(** * Piercer: the WireGuard peer registry, its resolver and the subscriptions

    A shallow embedding of [piercer/core/wg_parser.py],
    [piercer/dns_server.py], [piercer/config.py], the endpoints of
    [piercer/routers/wg.py] and the status methods of
    [piercer/core/clash_parser.py], and the properties proved over it.

    Python strings are modelled as lists of characters; a character is a
    code point below 256 ([ascii]).  The part of Python's [re] module that
    the patterns of the registry use is modelled as a backtracking matcher
    over a small syntax tree, obtained from the pattern text by [Re.compile]. *)

From Stdlib Require Import Ascii String ZArith Lia Bool Sorted.
From stdpp Require Import base option list strings gmap.

Local Open Scope nat_scope.
Local Open Scope list_scope.

(** ** Strings *)

Abbreviation str := (list ascii).

(** A string literal of the source. *)
Definition L (x : string) : str := list_ascii_of_string x.

(** The line feed (the source's ["\n"] outside raw strings). *)
Definition NL : ascii := "010"%char.

Module Py.

Definition code (c : ascii) : nat := nat_of_ascii c.

(** [str.isspace] on one character, for code points below 256. *)
Definition isspace (c : ascii) : bool :=
  let n := code c in
  ((9 <=? n) && (n <=? 13)) || ((28 <=? n) && (n <=? 32))
  || (n =? 133) || (n =? 160).

(** [s.lstrip()], [s.rstrip()] and [s.strip()]. *)
Fixpoint lstrip (x : str) : str :=
  match x with
  | c :: x' => if isspace c then lstrip x' else x
  | [] => []
  end.

Fixpoint rstrip (x : str) : str :=
  match x with
  | c :: x' =>
      match rstrip x' with
      | [] => if isspace c then [] else [c]
      | y => c :: y
      end
  | [] => []
  end.

Definition strip (x : str) : str := lstrip (rstrip x).

(** [s.rstrip(chars)] for a one-character [chars]. *)
Fixpoint rstrip_char (d : ascii) (x : str) : str :=
  match x with
  | c :: x' =>
      match rstrip_char d x' with
      | [] => if Ascii.eqb c d then [] else [c]
      | y => c :: y
      end
  | [] => []
  end.

(** [str.lower] on one character, for code points below 256. *)
Definition lower_char (c : ascii) : ascii :=
  let n := code c in
  if ((65 <=? n) && (n <=? 90))
     || ((192 <=? n) && (n <=? 222) && negb (n =? 215))
  then ascii_of_nat (n + 32) else c.

Definition lower (x : str) : str := map lower_char x.

(** [s.split(sep)[0]] for a one-character [sep]. *)
Fixpoint split_head (sep : ascii) (x : str) : str :=
  match x with
  | c :: x' => if Ascii.eqb c sep then [] else c :: split_head sep x'
  | [] => []
  end.

(** [s.split(sep)] for a one-character [sep]. *)
Fixpoint split (sep : ascii) (x : str) : list str :=
  match x with
  | c :: x' =>
      if Ascii.eqb c sep then [] :: split sep x'
      else match split sep x' with
           | y :: ys => (c :: y) :: ys
           | [] => [[c]]
           end
  | [] => [[]]
  end.

(** [sep.join(xs)]. *)
Fixpoint join (sep : str) (xs : list str) : str :=
  match xs with
  | [] => []
  | [x] => x
  | x :: xs' => x ++ sep ++ join sep xs'
  end.

Fixpoint startswith (x pre : str) {struct pre} : bool :=
  match pre, x with
  | [], _ => true
  | d :: pre', c :: x' => Ascii.eqb c d && startswith x' pre'
  | _ :: _, [] => false
  end.

(** [s.endswith(suf)]. *)
Definition endswith (x suf : str) : bool :=
  (length suf <=? length x)
  && bool_decide (drop (length x - length suf) x = suf).

(** [s[:-n]] for [n = len(t)]: Python reads [s[:-0]] as [s[:0]]. *)
Definition slice_to_neg (x : str) (n : nat) : str :=
  match n with
  | O => []
  | S _ => take (length x - n) x
  end.

Definition digit (n : nat) : ascii := ascii_of_nat (48 + n).

(** [str(n)] for a natural number below 1000 (as the address octets are). *)
Definition str_of_nat (n : nat) : str :=
  if n <? 10 then [digit n]
  else if n <? 100 then [digit (n / 10); digit (n mod 10)]
  else [digit (n / 100); digit ((n / 10) mod 10); digit (n mod 10)].

Definition isalnum_ascii (c : ascii) : bool :=
  let n := code c in
  ((48 <=? n) && (n <=? 57)) || ((65 <=? n) && (n <=? 90))
  || ((97 <=? n) && (n <=? 122)).

Definition isdigit_ascii (c : ascii) : bool :=
  let n := code c in (48 <=? n) && (n <=? 57).

(** What reading a file in text mode makes of its text: the carriage
    return, alone or followed by a line feed, becomes a line feed. *)
Fixpoint universal_newlines (x : str) : str :=
  match x with
  | [] => []
  | c :: x' =>
      if Ascii.eqb c "013" then
        "010"%char ::
        match x' with
        | d :: x'' =>
            if Ascii.eqb d "010" then universal_newlines x''
            else universal_newlines x'
        | [] => []
        end
      else c :: universal_newlines x'
  end.

(** The white space [int] passes over at both ends of its argument,
    for code points below 256 (the separators 28 to 31 are not among
    it). *)
Definition int_space (c : ascii) : bool :=
  let n := code c in
  ((9 <=? n) && (n <=? 13)) || (n =? 32) || (n =? 133) || (n =? 160).

Fixpoint int_lstrip (x : str) : str :=
  match x with
  | c :: x' => if int_space c then int_lstrip x' else x
  | [] => []
  end.

Fixpoint int_rstrip (x : str) : str :=
  match x with
  | c :: x' =>
      match int_rstrip x' with
      | [] => if int_space c then [] else [c]
      | y => c :: y
      end
  | [] => []
  end.

(** The digits of a decimal literal: single underscores may stand
    between two digits.  [count] is the number of digits read so far. *)
Fixpoint int_digits (acc : Z) (count : nat) (after_digit : bool) (x : str)
  : option (Z * nat) :=
  match x with
  | [] => if after_digit then Some (acc, count) else None
  | c :: x' =>
      if isdigit_ascii c then
        int_digits (10 * acc + Z.of_nat (code c - 48)) (S count) true x'
      else if Ascii.eqb c "_" && after_digit then
        int_digits acc count false x'
      else None
  end.

(** [sys.get_int_max_str_digits()], the default. *)
Definition int_max_str_digits : nat := 4300.

(** [int(text)]; [None] stands for [ValueError]. *)
Definition int (x : str) : option Z :=
  let y := int_lstrip (int_rstrip x) in
  let '(negative, ds) :=
    match y with
    | c :: y' =>
        if Ascii.eqb c "-" then (true, y')
        else if Ascii.eqb c "+" then (false, y')
        else (false, y)
    | [] => (false, [])
    end in
  match int_digits 0 0 false ds with
  | Some (v, count) =>
      if int_max_str_digits <? count then None
      else Some (if negative then (- v)%Z else v)
  | None => None
  end.

End Py.

(** ** The [re] module *)

Module Re.

(** Compilation flags: [re.MULTILINE] and [re.DOTALL]. *)
Record flags := Flags { MULTILINE : bool; DOTALL : bool }.

Definition no_flags : flags := Flags false false.

(** An atom that consumes exactly one character. *)
Inductive cset :=
| CChar (c : ascii)      (* a literal character *)
| CDot                   (* [.] *)
| CSpace.                (* [\s] *)

Inductive quant := QOpt | QStar | QPlus.

Inductive regex :=
| REps
| RSet (cs : cset)
| RRep (cs : cset) (q : quant) (greedy : bool)
| RBol                               (* [^] *)
| REndZ                              (* [\Z] *)
| RSeq (r1 r2 : regex)
| RAlt (r1 r2 : regex)
| RGroup (n : nat) (r : regex)       (* capturing group number [n] *)
| RLook (r : regex).                 (* [(?=...)] *)

(** *** [re.escape] *)

(** The characters [re.escape] puts a backslash in front of:
    [()[]{}?*+-|^$\.&~# \t\n\r\v\f]. *)
Definition special_chars : str :=
  L "()[]{}?*+-|^$\.&~# "
  ++ ["009"; "010"; "013"; "011"; "012"]%char.

Definition is_special (c : ascii) : bool :=
  bool_decide (c ∈ special_chars).

Definition escape (x : str) : str :=
  flat_map (fun c => if is_special c then ["\"%char; c] else [c]) x.

(** *** [re.compile]: from the pattern text to the syntax tree *)

Inductive token :=
| TSet (cs : cset)
| TStar | TPlus | TQuest
| TOpen | TLook | TClose | TBar
| TBol | TEndZ.

(** The lexer.  A backslash followed by a character that is no ASCII
    letter or digit stands for that character; of the letter escapes
    only those of the source's patterns (and the white space ones) are
    modelled, any other is refused, as are character classes, counted
    repetitions, [$] and the group extensions other than [(?=]. *)
Definition lex_escape (c : ascii) : option token :=
  if Py.isalnum_ascii c then
    if Ascii.eqb c "n" then Some (TSet (CChar "010"))
    else if Ascii.eqb c "t" then Some (TSet (CChar "009"))
    else if Ascii.eqb c "r" then Some (TSet (CChar "013"))
    else if Ascii.eqb c "f" then Some (TSet (CChar "012"))
    else if Ascii.eqb c "v" then Some (TSet (CChar "011"))
    else if Ascii.eqb c "s" then Some (TSet CSpace)
    else if Ascii.eqb c "Z" then Some TEndZ
    else None
  else Some (TSet (CChar c)).

Definition lex_plain (c : ascii) : option token :=
  if Ascii.eqb c "[" then None
  else if Ascii.eqb c "{" then None
  else if Ascii.eqb c "$" then None
  else Some (if Ascii.eqb c "." then TSet CDot
             else if Ascii.eqb c "*" then TStar
             else if Ascii.eqb c "+" then TPlus
             else if Ascii.eqb c "?" then TQuest
             else if Ascii.eqb c ")" then TClose
             else if Ascii.eqb c "|" then TBar
             else if Ascii.eqb c "^" then TBol
             else TSet (CChar c)).

Fixpoint lex (x : str) : option (list token) :=
  match x with
  | [] => Some []
  | c :: x' =>
      if Ascii.eqb c "\" then
        match x' with
        | d :: x'' => t ← lex_escape d; ts ← lex x''; Some (t :: ts)
        | [] => None
        end
      else if Ascii.eqb c "(" then
        match x' with
        | q :: x'' =>
            if Ascii.eqb q "?" then
              match x'' with
              | e :: x3 =>
                  if Ascii.eqb e "=" then ts ← lex x3; Some (TLook :: ts)
                  else None
              | [] => None
              end
            else ts ← lex x'; Some (TOpen :: ts)
        | [] => Some [TOpen]
        end
      else t ← lex_plain c; ts ← lex x'; Some (t :: ts)
  end.

(** The parser keeps a stack of open groups; each frame holds the
    finished alternatives and the items of the current one, both in
    reverse order. *)
Inductive fkind := FTop | FGroup (n : nat) | FLook.

Record frame := Frame { f_kind : fkind; f_alts : list regex; f_cur : list regex }.

Record pstate := PState { p_stack : list frame; p_top : frame; p_next : nat }.

Definition seq_of (items : list regex) : regex := foldr RSeq REps items.

Fixpoint alt_of (alts : list regex) : regex :=
  match alts with
  | [] => REps
  | [r] => r
  | r :: rs => RAlt r (alt_of rs)
  end.

Definition close_frame (f : frame) : regex :=
  alt_of (rev (seq_of (rev (f_cur f)) :: f_alts f)).

Definition push_item (r : regex) (f : frame) : frame :=
  Frame (f_kind f) (f_alts f) (r :: f_cur f).

Definition quantify (t : token) (f : frame) : option frame :=
  match f_cur f with
  | RSet cs :: items =>
      let q := match t with TStar => QStar | TPlus => QPlus | _ => QOpt end in
      Some (Frame (f_kind f) (f_alts f) (RRep cs q true :: items))
  | RRep cs q true :: items =>
      match t with
      | TQuest => Some (Frame (f_kind f) (f_alts f) (RRep cs q false :: items))
      | _ => None
      end
  | _ => None
  end.

Definition pstep (st : pstate) (t : token) : option pstate :=
  let f := p_top st in
  match t with
  | TSet cs => Some (PState (p_stack st) (push_item (RSet cs) f) (p_next st))
  | TBol => Some (PState (p_stack st) (push_item RBol f) (p_next st))
  | TEndZ => Some (PState (p_stack st) (push_item REndZ f) (p_next st))
  | TStar | TPlus | TQuest =>
      f' ← quantify t f; Some (PState (p_stack st) f' (p_next st))
  | TOpen =>
      Some (PState (f :: p_stack st) (Frame (FGroup (p_next st)) [] []) (S (p_next st)))
  | TLook => Some (PState (f :: p_stack st) (Frame FLook [] []) (p_next st))
  | TBar =>
      Some (PState (p_stack st)
              (Frame (f_kind f) (seq_of (rev (f_cur f)) :: f_alts f) [])
              (p_next st))
  | TClose =>
      match p_stack st, f_kind f with
      | parent :: stack, FGroup n =>
          Some (PState stack (push_item (RGroup n (close_frame f)) parent) (p_next st))
      | parent :: stack, FLook =>
          Some (PState stack (push_item (RLook (close_frame f)) parent) (p_next st))
      | _, _ => None
      end
  end.

Fixpoint prun (st : pstate) (ts : list token) : option pstate :=
  match ts with
  | [] => Some st
  | t :: ts' => st' ← pstep st t; prun st' ts'
  end.

Definition pinit : pstate := PState [] (Frame FTop [] []) 1.

Definition parse (ts : list token) : option regex :=
  st ← prun pinit ts;
  match p_stack st with
  | [] => Some (close_frame (p_top st))
  | _ => None
  end.

(** [re.compile(pattern)]; [None] stands for a pattern outside the
    modelled syntax. *)
Definition compile (pattern : str) : option regex :=
  ts ← lex pattern; parse ts.

(** *** Matching *)

Definition cset_match (fl : flags) (cs : cset) (c : ascii) : bool :=
  match cs with
  | CChar d => Ascii.eqb c d
  | CDot => DOTALL fl || negb (Ascii.eqb c NL)
  | CSpace => Py.isspace c
  end.

(** The groups captured so far, the latest first. *)
Definition caps := list (nat * str).

(** The text read between the input [s] and what is left of it, [s']. *)
Definition consumed (s s' : str) : str := take (length s - length s') s.

Fixpoint get_cap (n : nat) (g : caps) : option str :=
  match g with
  | [] => None
  | (i, x) :: g' => if Nat.eqb i n then Some x else get_cap n g'
  end.

Section Matcher.
Context {A : Type}.

(** A continuation receives the character before the position, the
    rest of the input and the captures. *)
Definition cont := option ascii -> str -> caps -> option A.

Definition orelse (x y : option A) : option A :=
  match x with Some v => Some v | None => y end.

(** [cs*] and [cs*?]. *)
Fixpoint rep_star (fl : flags) (cs : cset) (greedy : bool)
         (p : option ascii) (s : str) (g : caps) (k : cont) : option A :=
  match s with
  | c :: s' =>
      if cset_match fl cs c then
        if greedy then orelse (rep_star fl cs greedy (Some c) s' g k) (k p s g)
        else orelse (k p s g) (rep_star fl cs greedy (Some c) s' g k)
      else k p s g
  | [] => k p s g
  end.

Definition rep (fl : flags) (cs : cset) (q : quant) (greedy : bool)
           (p : option ascii) (s : str) (g : caps) (k : cont) : option A :=
  match q with
  | QStar => rep_star fl cs greedy p s g k
  | QPlus =>
      match s with
      | c :: s' =>
          if cset_match fl cs c then rep_star fl cs greedy (Some c) s' g k
          else None
      | [] => None
      end
  | QOpt =>
      match s with
      | c :: s' =>
          if cset_match fl cs c then
            if greedy then orelse (k (Some c) s' g) (k p s g)
            else orelse (k p s g) (k (Some c) s' g)
          else k p s g
      | [] => k p s g
      end
  end.
End Matcher.

(** [^] under the flags: at the start of the text, and with
    [MULTILINE] also just after a line feed. *)
Definition at_bol (fl : flags) (p : option ascii) : bool :=
  match p with
  | None => true
  | Some c => MULTILINE fl && Ascii.eqb c NL
  end.

(** The backtracking matcher, in continuation-passing style: the
    alternatives are tried in the order of Python's engine, and the
    first success wins. *)
Fixpoint m {A : Type} (fl : flags) (r : regex)
         (p : option ascii) (s : str) (g : caps) (k : @cont A) : option A :=
  match r with
  | REps => k p s g
  | RSet cs =>
      match s with
      | c :: s' => if cset_match fl cs c then k (Some c) s' g else None
      | [] => None
      end
  | RRep cs q greedy => rep fl cs q greedy p s g k
  | RBol => if at_bol fl p then k p s g else None
  | REndZ => match s with [] => k p s g | _ :: _ => None end
  | RSeq r1 r2 => m fl r1 p s g (fun p' s' g' => m fl r2 p' s' g' k)
  | RAlt r1 r2 => orelse (m fl r1 p s g k) (m fl r2 p s g k)
  | RGroup n r =>
      m fl r p s g
        (fun p' s' g' => k p' s' ((n, consumed s s') :: g'))
  | RLook r =>
      match m fl r p s g (fun _ _ g' => Some g') with
      | Some g' => k p s g'
      | None => None
      end
  end.

(** A match object: its span, the matched text and the groups. *)
Record re_match := Match {
  m_start : nat; m_end : nat; m_text : str; m_caps : caps }.

(** [match.group(n)] for [n >= 1]. *)
Definition group (mt : re_match) (n : nat) : option str := get_cap n (m_caps mt).

(** One attempt at a position: what is left of the input, and the
    captures.  With [must_advance] an empty match is refused (the engine
    sets it for the attempt that follows an empty match). *)
Definition match_here (fl : flags) (r : regex) (must_advance : bool)
           (p : option ascii) (s : str) : option (str * caps) :=
  m fl r p s []
    (fun _ s' g =>
       if must_advance && (length s' =? length s) then None else Some (s', g)).

Definition mk_match (off : nat) (s s' : str) (g : caps) : re_match :=
  Match off (off + (length s - length s')) (consumed s s') g.

(** [pattern.search(text)]: the first position with a match. *)
Fixpoint search_from (fl : flags) (r : regex) (p : option ascii) (s : str)
         (off : nat) : option re_match :=
  match match_here fl r false p s with
  | Some (s', g) => Some (mk_match off s s' g)
  | None =>
      match s with
      | [] => None
      | c :: s' => search_from fl r (Some c) s' (S off)
      end
  end.

Definition search (fl : flags) (r : regex) (text : str) : option re_match :=
  search_from fl r None text 0.

(** The scan that [finditer] and [subn] share: the text cut into the
    matches and the characters outside them.  [skip] counts the
    characters of the current match still to be passed. *)
Fixpoint scan (fl : flags) (r : regex) (skip : nat) (p : option ascii)
         (s : str) (off : nat) : list (ascii + re_match) :=
  let advance (k : nat) : list (ascii + re_match) :=
    match s with
    | [] => []
    | c :: s' =>
        match k with
        | O => inl c :: scan fl r 0 (Some c) s' (S off)
        | S k' => scan fl r k' (Some c) s' (S off)
        end
    end in
  match skip with
  | S k => advance (S k)
  | O =>
      match match_here fl r false p s with
      | None => advance 0
      | Some (s', g) =>
          let mt := mk_match off s s' g in
          match length s - length s' with
          | S n => inr mt :: advance (S n)
          | O =>
              (* after an empty match the engine tries the same
                 position once more and asks for progress *)
              inr mt ::
              match match_here fl r true p s with
              | Some (s'', g') =>
                  inr (mk_match off s s'' g') :: advance (length s - length s'')
              | None => advance 0
              end
          end
      end
  end.

(** [pattern.finditer(text)]. *)
Definition finditer (fl : flags) (r : regex) (text : str) : list re_match :=
  omap (fun x => match x with inr mt => Some mt | inl _ => None end)
       (scan fl r 0 None text 0).

(** [pattern.subn(repl, text)] for a replacement text without group
    references. *)
Definition subn (fl : flags) (r : regex) (repl : str) (text : str) : str * nat :=
  let pieces := scan fl r 0 None text 0 in
  (flat_map (fun x => match x with inl c => [c] | inr _ => repl end) pieces,
   length (finditer fl r text)).

End Re.

(** ** Exceptions, the configuration file and the monad of the methods *)

(** The texts of the exceptions the source raises (they are not ASCII;
    only which one it is matters). *)
Inductive message :=
| MsgConfigMissing (path : str)      (* read_config *)
| MsgNameExists (name : str)         (* add_peer, the name check *)
| MsgIpInUse (ip : str)              (* add_peer, the address check *)
| MsgInvalidIp (ip : str)            (* check_ip_conflict *)
| MsgPoolExhausted                   (* get_next_available_ip *)
| MsgAddressValue (ip : str)         (* ipaddress.AddressValueError *)
| MsgBadPattern                      (* re.error *)
| MsgNotUtf8.                        (* UnicodeDecodeError, read_text *)

(** An exception stands for its class as the [except] clauses see it:
    [UnicodeDecodeError] is a [ValueError]. *)
Inductive exn :=
| FileNotFoundError (msg : message)
| ValueError (msg : message)
| RuntimeError (msg : message)
| ReError (msg : message).

Inductive result (A : Type) :=
| Ok (a : A)
| Raise (e : exn).
Arguments Ok {A} a.
Arguments Raise {A} e.

(** The file at [config_path] and the contents written so far, the
    latest first.  The file is absent, or present with a text ([FS], the
    text as it is stored), or present with bytes that are no UTF-8 text
    ([NotUtf8]).  Reading a text and writing always succeed: the other
    failures of the file system (a directory at the path, missing
    permissions) are not modelled.  The line ends are those of a POSIX
    system: [write_text] stores the text as it is given, and [read_text]
    turns every carriage return of the stored text, alone or before a
    line feed, into a line feed. *)
Inductive fs :=
| FS (stored : option str) (written : list str)
| NotUtf8 (written : list str).

(** The text that [read_text] returns, when the file is present and can
    be decoded. *)
Definition file (st : fs) : option str :=
  match st with
  | FS stored _ => Py.universal_newlines <$> stored
  | NotUtf8 _ => None
  end.

Definition written (st : fs) : list str :=
  match st with
  | FS _ written => written
  | NotUtf8 written => written
  end.

Definition M (A : Type) : Type := fs -> result A * fs.

Definition ret {A} (a : A) : M A := fun st => (Ok a, st).
Definition raise {A} (e : exn) : M A := fun st => (Raise e, st).
Definition bind {A B} (c : M A) (k : A -> M B) : M B :=
  fun st => match c st with
            | (Ok a, st') => k a st'
            | (Raise e, st') => (Raise e, st')
            end.
(** [try: c except FileNotFoundError: h]. *)
Definition catch_not_found {A} (c : M A) (h : M A) : M A :=
  fun st => match c st with
            | (Raise (FileNotFoundError _), st') => h st'
            | r => r
            end.
Definition lift {A} (r : result A) : M A := fun st => (r, st).

Notation "x <-- c ;; k" := (bind c (fun x => k))
  (at level 100, c at next level, right associativity).
Notation "c ;;; k" := (bind c (fun _ => k))
  (at level 100, right associativity).

(** ** [ipaddress] *)

Module Ip.

Fixpoint decimal (acc : nat) (x : str) : nat :=
  match x with
  | [] => acc
  | c :: x' => decimal (10 * acc + (Py.code c - 48)) x'
  end.

(** [IPv4Address._parse_octet]: one to three ASCII digits, no leading
    zero except for ["0"] itself (CPython 3.9.5 and later), at most 255. *)
Definition parse_octet (o : str) : option Z :=
  match o with
  | [] => None
  | c :: o' =>
      if negb (forallb Py.isdigit_ascii o) then None
      else if 3 <? length o then None
      else if Ascii.eqb c "0" && negb (bool_decide (o' = [])) then None
      else let v := decimal 0 o in
           if 255 <? v then None else Some (Z.of_nat v)
  end.

(** [IPv4Address(text)] as the 32-bit number of the address. *)
Definition parse (x : str) : option Z :=
  if bool_decide ("/"%char ∈ x) then None
  else match x with
       | [] => None
       | _ =>
           match Py.split "." x with
           | [a; b; c; d] =>
               a ← parse_octet a; b ← parse_octet b;
               c ← parse_octet c; d ← parse_octet d;
               Some (Z.lor (Z.shiftl a 24)
                       (Z.lor (Z.shiftl b 16) (Z.lor (Z.shiftl c 8) d)))
           | _ => None
           end
       end.

Definition IPv4Address (x : str) : result Z :=
  match parse x with
  | Some a => Ok a
  | None => Raise (ValueError (MsgAddressValue x))
  end.

(** The address [a.b.c.d]. *)
Definition quad (a b c d : Z) : Z := ((a * 256 + b) * 256 + c) * 256 + d.

(** [str(address)]. *)
Definition to_str (a : Z) : str :=
  let o (k : Z) := Py.str_of_nat (Z.to_nat (Z.land (Z.shiftr a k) 255)) in
  o 24%Z ++ L "." ++ o 16%Z ++ L "." ++ o 8%Z ++ L "." ++ o 0%Z.

End Ip.

(** ** [piercer/core/wg_parser.py] *)

Definition force (o : option Re.regex) : Re.regex := default Re.REps o.

Definition MULTILINE_DOTALL : Re.flags := Re.Flags true true.

Definition PEER_PATTERN_text : str :=
  L "^# =+\n# ClientName: (.+?)\n# AddedAt: (.+?)\n# =+\n\[Peer\]\n(.*?)(?=\n# =+|\Z)".
Definition PEER_PATTERN : Re.regex :=
  Eval vm_compute in force (Re.compile PEER_PATTERN_text).

Definition ENDPOINT_PATTERN : Re.regex :=
  Eval vm_compute in force (Re.compile (L "Endpoint\s*=\s*(.+)")).
Definition PUBKEY_PATTERN : Re.regex :=
  Eval vm_compute in force (Re.compile (L "PublicKey\s*=\s*(.+)")).
Definition ALLOWED_IPS_PATTERN : Re.regex :=
  Eval vm_compute in force (Re.compile (L "AllowedIPs\s*=\s*(.+)")).
Definition PRESHARED_KEY_PATTERN : Re.regex :=
  Eval vm_compute in force (Re.compile (L "PresharedKey\s*=\s*(.+)")).

(** [SERVER_IP = IPv4Address("10.8.0.1")]. *)
Definition SERVER_IP : Z := Eval vm_compute in default 0%Z (Ip.parse (L "10.8.0.1")).

Record WgPeer := mkWgPeer {
  name : str;
  public_key : str;
  allowed_ips : str;
  added_at : str;
  endpoint : option str;
  preshared_key : option str;
  latest_handshake : option Z;
  transfer_rx : option Z;
  transfer_tx : option Z }.

(** [match.group(n)] as a string (every group of the patterns above takes
    part in every match). *)
Definition group_str (mt : Re.re_match) (n : nat) : str :=
  default [] (Re.group mt n).

(** The fields searched in the block of one match. *)
Definition field (pat : Re.regex) (block : str) : option str :=
  mt ← Re.search Re.no_flags pat block; Some (Py.strip (group_str mt 1)).

(** The body of the loop of [parse_peers]: the peer of one match, if its
    block has both a public key and allowed addresses. *)
Definition peer_of_match (mt : Re.re_match) : option WgPeer :=
  let name := Py.strip (group_str mt 1) in
  let added_at := Py.strip (group_str mt 2) in
  let block := group_str mt 3 in
  match field PUBKEY_PATTERN block, field ALLOWED_IPS_PATTERN block with
  | Some pk, Some ips =>
      Some (mkWgPeer name pk ips added_at
              (field ENDPOINT_PATTERN block)
              (field PRESHARED_KEY_PATTERN block)
              None None None)
  | _, _ => None
  end.

(** [parse_peers] on a given content. *)
Definition parse_content (content : str) : list WgPeer :=
  omap peer_of_match (Re.finditer MULTILINE_DOTALL PEER_PATTERN content).

Section WgParser.
(** [self.config_path]. *)
Variable config_path : str.

(** [read_text] decodes the bytes and reads in text mode, with universal
    newlines; [UnicodeDecodeError] is a [ValueError]. *)
Definition read_config : M str :=
  fun st => match st with
            | FS None _ =>
                (Raise (FileNotFoundError (MsgConfigMissing config_path)), st)
            | FS (Some stored) _ => (Ok (Py.universal_newlines stored), st)
            | NotUtf8 _ => (Raise (ValueError MsgNotUtf8), st)
            end.

(** [write_text] replaces the file by the text, stored as it is given. *)
Definition write_config (content : str) : M unit :=
  fun st => (Ok tt, FS (Some content) (content :: written st)).

(** The default [content=None] of the methods: read the file. *)
Definition content_or_read (content : option str) : M str :=
  match content with
  | None => read_config
  | Some c => ret c
  end.

Definition parse_peers (content : option str) : M (list WgPeer) :=
  content <-- content_or_read content ;;
  ret (parse_content content).

(** The loop of [get_used_ips]: an address that does not parse is
    passed over. *)
Fixpoint add_used (used : gset Z) (peers : list WgPeer) : gset Z :=
  match peers with
  | [] => used
  | peer :: peers' =>
      let ip_str := Py.split_head "/" (allowed_ips peer) in
      match Ip.IPv4Address ip_str with
      | Ok a => add_used (used ∪ {[a]}) peers'
      | Raise _ => add_used used peers'
      end
  end.

Definition get_used_ips (content : option str) : M (gset Z) :=
  peers <-- parse_peers content ;;
  ret (add_used {[SERVER_IP]} peers).

(** The loop of [get_next_available_ip] over [range(2, 255)]. *)
Fixpoint first_free (used : gset Z) (candidates : list nat) : result Z :=
  match candidates with
  | [] => Raise (RuntimeError MsgPoolExhausted)
  | i :: rest =>
      match Ip.IPv4Address (L "10.8.0." ++ Py.str_of_nat i) with
      | Ok candidate =>
          if decide (candidate ∈ used) then first_free used rest
          else Ok candidate
      | Raise e => Raise e
      end
  end.

Definition get_next_available_ip (content : option str) : M Z :=
  used_ips <-- get_used_ips content ;;
  lift (first_free used_ips (seq 2 253)).

Definition check_ip_conflict (ip : str) (content : option str) : M bool :=
  match Ip.IPv4Address (Py.split_head "/" ip) with
  | Raise _ => raise (ValueError (MsgInvalidIp ip))
  | Ok target_ip =>
      used_ips <-- get_used_ips content ;;
      ret (bool_decide (target_ip ∈ used_ips))
  end.

Definition check_name_conflict (nm : str) (content : option str) : M bool :=
  peers <-- parse_peers content ;;
  ret (existsb (fun p => bool_decide (name p = nm)) peers).

(** The truth value of an optional string: [None] and [""] are false. *)
Definition truthy (o : option str) : option str :=
  match o with
  | Some [] | None => None
  | Some x => Some x
  end.

Definition BANNER : str := L "# ==========================================".

Definition block_lines (nm pk assigned_ip date : str)
           (ep psk : option str) : list str :=
  [ [];
    BANNER;
    L "# ClientName: " ++ nm;
    L "# AddedAt: " ++ date;
    BANNER;
    L "[Peer]";
    L "PublicKey = " ++ pk;
    L "AllowedIPs = " ++ assigned_ip ++ L "/32" ]
  ++ match truthy psk with Some x => [L "PresharedKey = " ++ x] | None => [] end
  ++ match truthy ep with Some x => [L "Endpoint = " ++ x] | None => [] end.

Definition generate_peer_block (nm pk assigned_ip date : str)
           (ep psk : option str) : str :=
  Py.join [NL] (block_lines nm pk assigned_ip date ep psk).

Definition add_peer (nm pk assigned_ip date : str)
           (ep psk : option str) : M unit :=
  content <-- read_config ;;
  name_taken <-- check_name_conflict nm (Some content) ;;
  if name_taken : bool then raise (ValueError (MsgNameExists nm))
  else
    ip_taken <-- check_ip_conflict assigned_ip (Some content) ;;
    if ip_taken : bool then raise (ValueError (MsgIpInUse assigned_ip))
    else
      let peer_block := generate_peer_block nm pk assigned_ip date ep psk in
      let new_content := Py.rstrip content ++ [NL] ++ peer_block ++ [NL] in
      write_config new_content.

(** The pattern [remove_peer] builds for a name. *)
Definition remove_pattern_text (nm : str) : str :=
  L "\n?# =+\n# ClientName: " ++ Re.escape nm
  ++ L "\n# AddedAt: .+?\n# =+\n\[Peer\]\n.*?(?=\n# =+|\Z)".

Definition remove_peer (nm : str) : M bool :=
  content <-- read_config ;;
  match Re.compile (remove_pattern_text nm) with
  | None => raise (ReError MsgBadPattern)
  | Some pattern =>
      let '(new_content, count) := Re.subn MULTILINE_DOTALL pattern [] content in
      if count =? 0 then ret false
      else write_config new_content ;;; ret true
  end.

Definition get_p2p_candidates (content : option str) : M (list WgPeer) :=
  peers <-- parse_peers content ;;
  ret (filter (fun p => is_Some (endpoint p)) peers).

(** One entry of the dictionary of [get_runtime_status]. *)
Record runtime_info := {
  ri_latest_handshake : option Z; ri_transfer_rx : Z; ri_transfer_tx : Z }.

(** [get_peers_with_status]; what [wg show wg0 dump] reports (the
    dictionary of [get_runtime_status], empty when the command fails) is
    a parameter. *)
Definition get_peers_with_status (runtime : gmap str runtime_info)
  : M (list WgPeer) :=
  peers <-- parse_peers None ;;
  ret (map (fun peer =>
              match runtime !! public_key peer with
              | Some info =>
                  mkWgPeer (name peer) (public_key peer) (allowed_ips peer)
                    (added_at peer) (endpoint peer) (preshared_key peer)
                    (ri_latest_handshake info)
                    (Some (ri_transfer_rx info)) (Some (ri_transfer_tx info))
              | None => peer
              end) peers).

End WgParser.

(** One entry of the dictionary of [get_runtime_status], with all its
    keys. *)
Record status_entry := mkStatus {
  se_preshared_key : option str;
  se_endpoint : option str;
  se_allowed_ips : str;
  se_latest_handshake : option Z;
  se_transfer_rx : Z;
  se_transfer_tx : Z;
  se_persistent_keepalive : option str }.

(** What [get_runtime_status] ends with: its dictionary, or the
    [ValueError] of an [int] on a text that is no number. *)
Inductive status_result :=
| Status (status : gmap str status_entry)
| IntValueError (text : str).

(** [v if v != marker else None]. *)
Definition unless (marker v : str) : option str :=
  if bool_decide (v = marker) then None else Some v.

(** The loop of [get_runtime_status] over the lines after the first. *)
Fixpoint status_lines (status : gmap str status_entry) (lines : list str)
  : status_result :=
  match lines with
  | [] => Status status
  | line :: lines' =>
      match Py.split "009" line with
      | p0 :: p1 :: p2 :: p3 :: p4 :: p5 :: p6 :: p7 :: _ =>
          match (if bool_decide (p4 = L "0") then Some None
                 else Some <$> Py.int p4) with
          | None => IntValueError p4
          | Some handshake =>
              match Py.int p5 with
              | None => IntValueError p5
              | Some rx =>
                  match Py.int p6 with
                  | None => IntValueError p6
                  | Some tx =>
                      status_lines
                        (<[p0 := mkStatus (unless (L "(none)") p1)
                                   (unless (L "(none)") p2) p3 handshake rx tx
                                   (unless (L "off") p7)]> status)
                        lines'
                  end
              end
          end
      | _ => status_lines status lines'
      end
  end.

(** [get_runtime_status]; [dump] is the output of [wg show wg0 dump],
    [None] when the command fails or is not there. *)
Definition get_runtime_status (dump : option str) : status_result :=
  match dump with
  | None => Status ∅
  | Some stdout =>
      let lines := Py.split NL (Py.strip stdout) in
      status_lines ∅ (tail lines)
  end.

(** What [get_peers_with_status] reads of an entry. *)
Definition runtime_of (e : status_entry) : runtime_info :=
  Build_runtime_info (se_latest_handshake e) (se_transfer_rx e) (se_transfer_tx e).

(** ** [piercer/config.py] *)

Module Settings.

(** [is_server_endpoint_configured]:
    [bool(self.server_endpoint and self.server_endpoint.strip())]. *)
Definition is_server_endpoint_configured (server_endpoint : str) : bool :=
  match server_endpoint with
  | [] => false
  | _ => negb (bool_decide (Py.strip server_endpoint = []))
  end.

End Settings.

(** ** [piercer/dns_server.py] *)

Record InternalDNSServer := mkDNS {
  listen_address : str;
  listen_port : Z;
  domain_suffix : str;
  wg_config_path : str }.

(** [InternalDNSServer.__init__]: the suffix is kept in lower case. *)
Definition InternalDNSServer_init (address : str) (port : Z)
           (suffix path : str) : InternalDNSServer :=
  mkDNS address port (Py.lower suffix) path.

(** [dnslib.QTYPE.A]. *)
Definition QTYPE_A : Z := 1.

Section Resolver.
Variable self : InternalDNSServer.

(** The loop over the peers of [get_name_to_ip_mapping]. *)
Fixpoint add_names (mapping : gmap str str) (peers : list WgPeer) : gmap str str :=
  match peers with
  | [] => mapping
  | peer :: peers' =>
      let nm := Py.lower (name peer) in
      let ip := Py.split_head "/" (allowed_ips peer) in
      add_names (<[nm := ip]> mapping) peers'
  end.

Definition get_name_to_ip_mapping : M (gmap str str) :=
  mapping <-- catch_not_found
                (peers <-- parse_peers (wg_config_path self) None ;;
                 ret (add_names ∅ peers))
                (ret ∅) ;;
  let mapping := <[L "server" := L "10.8.0.1"]> mapping in
  let mapping := <[L "gateway" := L "10.8.0.1"]> mapping in
  ret mapping.

Definition resolve_query (qname : str) (qtype : Z) : M (option str) :=
  let qname := Py.rstrip_char "." (Py.lower qname) in
  if negb (Z.eqb qtype QTYPE_A) then ret None
  else if negb (Py.endswith qname (domain_suffix self)) then ret None
  else
    let device_name := Py.slice_to_neg qname (length (domain_suffix self)) in
    mapping <-- get_name_to_ip_mapping ;;
    ret (mapping !! device_name).

End Resolver.

(** ** [piercer/routers/wg.py]: the endpoints over the registry *)

Module Router.

Record PeerInfo := mkPeerInfo {
  pi_name : str;
  pi_public_key : str;
  pi_allowed_ips : str;
  pi_added_at : str;
  pi_endpoint : option str;
  pi_latest_handshake : option Z;
  pi_transfer_rx : option Z;
  pi_transfer_tx : option Z }.

Record PeerListResponse := mkPeerList {
  pl_success : bool; pl_count : nat; pl_peers : list PeerInfo }.

(** The answer to a request: a response, [HTTPException(status)], or
    an exception that no handler caught. *)
Inductive answer (A : Type) :=
| Response (a : A)
| HTTPException (status : nat)
| Uncaught (e : exn).
Arguments Response {A} a.
Arguments HTTPException {A} status.
Arguments Uncaught {A} e.

Inductive op_message :=
| OpFailed (e : message)     (* [str(e)] of the [ValueError] *)
| OpAdded (name ip : str)
| OpRemoved (name : str)
| OpNotFound (name : str).

Record OperationResponse := mkOp { op_success : bool; op_message_of : op_message }.

Record P2PCandidatesResponse := mkP2P {
  p2p_success : bool; p2p_count : nat; p2p_candidates : list PeerInfo }.

(** [server_endpoint_display]: the configured endpoint, or the text
    that says it is not configured. *)
Inductive endpoint_display :=
| NotConfigured
| Configured (server_endpoint : str).

(** The fields of [ConfigTemplateResponse] that the endpoint computes;
    [config_template] and [instructions] are fixed texts around them. *)
Record ConfigTemplateResponse := mkTemplate {
  ct_success : bool;
  ct_assigned_ip : str;
  ct_server_public_key : str;
  ct_server_endpoint : endpoint_display }.

Section Endpoints.
(** [settings.wg_config_path]. *)
Variable wg_config_path : str.

Definition peer_info (p : WgPeer) : PeerInfo :=
  mkPeerInfo (name p) (public_key p) (allowed_ips p) (added_at p)
    (endpoint p) (latest_handshake p) (transfer_rx p) (transfer_tx p).

Definition list_peers (runtime : gmap str runtime_info) (st : fs)
  : answer PeerListResponse * fs :=
  match get_peers_with_status wg_config_path runtime st with
  | (Raise (FileNotFoundError _), st') => (Response (mkPeerList true 0 []), st')
  | (Raise e, st') => (Uncaught e, st')
  | (Ok peers, st') =>
      let peer_infos := map peer_info peers in
      (Response (mkPeerList true (length peer_infos) peer_infos), st')
  end.

(** [add_peer]; [today] is [date.today().isoformat()].  The reload of
    the interface that follows a success acts on nothing modelled here. *)
Definition add_peer_endpoint (today nm pk assigned_ip : str)
           (ep psk : option str) (st : fs) : answer OperationResponse * fs :=
  match add_peer wg_config_path nm pk assigned_ip today ep psk st with
  | (Raise (FileNotFoundError _), st') => (HTTPException 503, st')
  | (Raise (ValueError e), st') => (Response (mkOp false (OpFailed e)), st')
  | (Raise e, st') => (Uncaught e, st')
  | (Ok _, st') => (Response (mkOp true (OpAdded nm assigned_ip)), st')
  end.

Definition delete_peer (nm : str) (st : fs) : answer OperationResponse * fs :=
  match remove_peer wg_config_path nm st with
  | (Raise (FileNotFoundError _), st') => (HTTPException 503, st')
  | (Raise e, st') => (Uncaught e, st')
  | (Ok false, st') => (Response (mkOp false (OpNotFound nm)), st')
  | (Ok true, st') => (Response (mkOp true (OpRemoved nm)), st')
  end.

(** The entry of one candidate: the runtime fields keep their default. *)
Definition candidate_info (p : WgPeer) : PeerInfo :=
  mkPeerInfo (name p) (public_key p) (allowed_ips p) (added_at p)
    (endpoint p) None None None.

Definition get_p2p_candidates_endpoint (st : fs)
  : answer P2PCandidatesResponse * fs :=
  match get_p2p_candidates wg_config_path None st with
  | (Raise (FileNotFoundError _), st') => (Response (mkP2P true 0 []), st')
  | (Raise e, st') => (Uncaught e, st')
  | (Ok candidates, st') =>
      let candidate_infos := map candidate_info candidates in
      (Response (mkP2P true (length candidate_infos) candidate_infos), st')
  end.

(** [get_config_template]; [server_endpoint] is
    [settings.server_endpoint] and [server_public_key] what
    [get_server_public_key] obtains from the [wg] command. *)
Definition get_config_template (server_endpoint server_public_key : str)
           (st : fs) : answer ConfigTemplateResponse * fs :=
  let finish (assigned_ip : str) (st' : fs) :=
    let server_endpoint_display :=
      if negb (Settings.is_server_endpoint_configured server_endpoint)
      then NotConfigured else Configured server_endpoint in
    (Response (mkTemplate true assigned_ip server_public_key
                 server_endpoint_display), st') in
  match get_next_available_ip wg_config_path None st with
  | (Ok next_ip, st') => finish (Ip.to_str next_ip) st'
  | (Raise (FileNotFoundError _), st') => finish (L "10.8.0.2") st'
  | (Raise (RuntimeError _), st') => (HTTPException 503, st')
  | (Raise e, st') => (Uncaught e, st')
  end.
End Endpoints.

End Router.

(** ** [piercer/core/clash_parser.py] *)

Module Clash.

(** *** [datetime.date] *)

Record date := Date { year : Z; month : Z; day : Z }.

Definition is_leap (y : Z) : bool :=
  ((y mod 4 =? 0) && (negb (y mod 100 =? 0) || (y mod 400 =? 0)))%Z.

Definition days_in_month (y m : Z) : Z :=
  if (m =? 2)%Z then (if is_leap y then 29 else 28)%Z
  else if ((m =? 4) || (m =? 6) || (m =? 9) || (m =? 11))%Z then 30%Z
       else 31%Z.

(** The days of the calendar, from the year 1 to the year 9999. *)
Definition valid (d : date) : bool :=
  ((1 <=? year d) && (year d <=? 9999) && (1 <=? month d) && (month d <=? 12)
   && (1 <=? day d) && (day d <=? days_in_month (year d) (month d)))%Z.

(** [date(year, month, day)]; [None] stands for [ValueError]. *)
Definition make_date (y m d : Z) : option date :=
  if valid (Date y m d) then Some (Date y m d) else None.

Definition days_before_year (y : Z) : Z :=
  (let y := y - 1 in y * 365 + y / 4 - y / 100 + y / 400)%Z.

Definition days_before_month (y m : Z) : Z :=
  (nth (Z.to_nat (m - 1)) [0; 31; 59; 90; 120; 151; 181; 212; 243; 273; 304; 334] 0
   + (if (2 <? m) && is_leap y then 1 else 0))%Z.

(** [d.toordinal()]: the first of January of the year 1 is day 1. *)
Definition toordinal (d : date) : Z :=
  (days_before_year (year d) + days_before_month (year d) (month d) + day d)%Z.

(** [(a - b).days]. *)
Definition days_between (a b : date) : Z := (toordinal a - toordinal b)%Z.

(** A number in decimal, with zeros in front up to [width] digits. *)
Fixpoint pad (width : nat) (n : nat) : str :=
  match width with
  | O => []
  | S w => pad w (n / 10) ++ [Py.digit (n mod 10)]
  end.

(** [d.isoformat()]. *)
Definition isoformat (d : date) : str :=
  pad 4 (Z.to_nat (year d)) ++ L "-" ++ pad 2 (Z.to_nat (month d))
  ++ L "-" ++ pad 2 (Z.to_nat (day d)).

(** *** [ClashParser] *)

Record SubscriptionInfo := mkInfo {
  key : str;
  name : str;
  expire_date : option date;
  days_remaining : option Z;
  status : str;
  url : option str }.

(** A value of the dictionary of the providers: a dictionary, with what
    its key [url] holds, or anything else. *)
Inductive provider :=
| ProviderDict (url : option str)
| ProviderOther.

Section Parser.
(** What [DATE_PATTERN.match(key)] finds: nothing, or the name of the
    first group and the numbers that the digits of the three other
    groups stand for. *)
Variable date_fields : str -> option (str * Z * Z * Z).

Definition parse_subscription_date (key : str) : str * option date :=
  match date_fields key with
  | Some (name, year, month, day) =>
      match make_date year month day with
      | Some expire_date => (name, Some expire_date)
      | None => (key, None)
      end
  | None => (key, None)
  end.

(** [calculate_status]; [today] is the date given, or the current one. *)
Definition calculate_status (expire_date : option date) (today : date)
  : option Z * str :=
  match expire_date with
  | None => (None, L "unknown")
  | Some expire_date =>
      let days_remaining := days_between expire_date today in
      if (days_remaining <? 0)%Z then (Some days_remaining, L "expired")
      else if (days_remaining <=? 7)%Z then (Some days_remaining, L "expiring")
      else (Some days_remaining, L "active")
  end.

(** [status_order.get(status, 4)]. *)
Definition status_order (status : str) : nat :=
  if bool_decide (status = L "expired") then 0
  else if bool_decide (status = L "expiring") then 1
  else if bool_decide (status = L "active") then 2
  else if bool_decide (status = L "unknown") then 3
  else 4.

(** The key of the sort: [(status_order.get(x.status, 4),
    x.days_remaining or 999)]. *)
Definition sort_key (x : SubscriptionInfo) : nat * Z :=
  (status_order (status x),
   match days_remaining x with
   | Some d => if (d =? 0)%Z then 999%Z else d
   | None => 999%Z
   end).

(** The order of the tuples. *)
Definition key_le (a b : nat * Z) : bool :=
  (a.1 <? b.1) || ((a.1 =? b.1) && (a.2 <=? b.2)%Z).

(** [list.sort(key=...)] is stable; the stable insertion sort returns
    the same list. *)
Fixpoint insert (x : SubscriptionInfo) (l : list SubscriptionInfo)
  : list SubscriptionInfo :=
  match l with
  | [] => [x]
  | y :: l' =>
      if key_le (sort_key x) (sort_key y) then x :: l else y :: insert x l'
  end.

Definition sort (l : list SubscriptionInfo) : list SubscriptionInfo :=
  foldr insert [] l.

(** The body of the loop over the providers. *)
Definition info_of (today : date) (item : str * provider) : SubscriptionInfo :=
  let '(key, value) := item in
  let '(name, expire_date) := parse_subscription_date key in
  let '(days_remaining, status) := calculate_status expire_date today in
  let url := match value with ProviderDict u => u | ProviderOther => None end in
  mkInfo key name expire_date days_remaining status url.

(** [get_subscription_status]; [providers] is the dictionary of
    [get_proxy_providers], in its order, [None] when the file does not
    exist. *)
Definition get_subscription_status (providers : option (list (str * provider)))
           (today : date) : list SubscriptionInfo :=
  match providers with
  | None => []
  | Some items => sort (map (info_of today) items)
  end.

Record SummaryEntry := mkEntry {
  e_key : str;
  e_name : str;
  e_expire_date : option str;
  e_days_remaining : option Z;
  e_status : str }.

Record Summary := mkSummary {
  total : nat;
  expired : nat;
  expiring : nat;
  active : nat;
  unknown : nat;
  subscriptions : list SummaryEntry }.

Definition count_status (st : str) (l : list SubscriptionInfo) : nat :=
  length (filter (fun s => status s = st) l).

Definition get_status_summary (providers : option (list (str * provider)))
           (today : date) : Summary :=
  let subscriptions := get_subscription_status providers today in
  mkSummary (length subscriptions)
    (count_status (L "expired") subscriptions)
    (count_status (L "expiring") subscriptions)
    (count_status (L "active") subscriptions)
    (count_status (L "unknown") subscriptions)
    (map (fun s => mkEntry (key s) (name s) (isoformat <$> expire_date s)
                     (days_remaining s) (status s)) subscriptions).

End Parser.

End Clash.

(** ** Definitions used in the statements *)

(** The configuration of the tests of the repository ([SAMPLE_WG_CONFIG]). *)
Definition SAMPLE_WG_CONFIG : str := L "[Interface]
PrivateKey = SERVER_PRIVATE_KEY
Address = 10.8.0.1/24
ListenPort = 51820
PostUp = iptables -A FORWARD -i wg0 -j ACCEPT
PostDown = iptables -D FORWARD -i wg0 -j ACCEPT

# ==========================================
# ClientName: macbook-pro
# AddedAt: 2026-01-27
# ==========================================
[Peer]
PublicKey = CLIENT1_PUBLIC_KEY
AllowedIPs = 10.8.0.5/32

# ==========================================
# ClientName: home-nas
# AddedAt: 2026-01-27
# ==========================================
[Peer]
PublicKey = CLIENT2_PUBLIC_KEY
AllowedIPs = 10.8.0.6/32
Endpoint = nas.myhome.com:51820

# ==========================================
# ClientName: phone-android
# AddedAt: 2026-01-28
# ==========================================
[Peer]
PublicKey = CLIENT3_PUBLIC_KEY
AllowedIPs = 10.8.0.7/32
PresharedKey = PRESHARED_KEY_VALUE
".

Module Pool.
(** The candidate of offset [i] in [get_next_available_ip]. *)
Definition candidate (i : nat) : result Z :=
  Ip.IPv4Address (L "10.8.0." ++ Py.str_of_nat i).

(** The address [10.8.0.i]. *)
Definition addr (i : nat) : Z := Ip.quad 10 8 0 (Z.of_nat i).
End Pool.

(** Some decoded record of [content] has the name [nm]. *)
Definition name_taken (content nm : str) : Prop :=
  exists p, p ∈ parse_content content /\ name p = nm.

(** The host address of some decoded record of [content] is the host
    part of [ip]. *)
Definition address_taken (content ip : str) : Prop :=
  exists p a, p ∈ parse_content content /\
              Ip.parse (Py.split_head "/" (allowed_ips p)) = Some a /\
              Ip.parse (Py.split_head "/" ip) = Some a.

(** The name conflict and the address conflict as [add_peer] raises them. *)
Definition NameConflict (nm : str) : exn := ValueError (MsgNameExists nm).
Definition AddressConflict (ip : str) : exn := ValueError (MsgIpInUse ip).
Definition PoolExhausted : exn := RuntimeError MsgPoolExhausted.

(** C3 as the specification words it: each conflict alone decides the
    error. *)
Definition C3_as_stated (config_path content nm pk ip date : str)
           (ep psk : option str) (st : fs) : Prop :=
  file st = Some content ->
  (name_taken content nm ->
   add_peer config_path nm pk ip date ep psk st = (Raise (NameConflict nm), st)) /\
  (address_taken content ip ->
   add_peer config_path nm pk ip date ep psk st = (Raise (AddressConflict ip), st)).

(** The peers the resolver sees: those decoded from the text read, none
    when the file is absent. *)
Definition peers_of (st : fs) : list WgPeer :=
  match file st with
  | Some content => parse_content content
  | None => []
  end.

(** The table [get_name_to_ip_mapping] returns in the state [st]. *)
Definition mapping_of (st : fs) : gmap str str :=
  <[L "gateway" := L "10.8.0.1"]>
    (<[L "server" := L "10.8.0.1"]> (add_names ∅ (peers_of st))).

(** What the resolver finds for the name [d] in the state [st]: the
    entry of the table, or the error of a file that cannot be decoded,
    which [get_name_to_ip_mapping] does not catch. *)
Definition looked_up (st : fs) (d : str) : result (option str) :=
  match st with
  | NotUtf8 _ => Raise (ValueError MsgNotUtf8)
  | FS _ _ => Ok (mapping_of st !! d)
  end.




(** ** Definitions for reasoning about the matcher *)

(** The character before the position once [x] has been read. *)
Definition prev_after (p : option ascii) (x : str) : option ascii :=
  match last x with
  | Some c => Some c
  | None => p
  end.

(** The pattern that reads the literal text [x] and goes on with [r]. *)
Definition lit (x : str) (r : Re.regex) : Re.regex :=
  foldr (fun c acc => Re.RSeq (Re.RSet (Re.CChar c)) acc) r x.

(** [kw in x]. *)
Fixpoint contains (x kw : str) : bool :=
  Py.startswith x kw ||
  match x with
  | [] => false
  | _ :: x' => contains x' kw
  end.

(** No occurrence of [kw] in [x ++ s] starts inside [x]. *)
Definition nostart (kw x s : str) : Prop :=
  forall x1 x2, x = x1 ++ x2 -> x2 <> [] -> Py.startswith (x2 ++ s) kw = false.

(** The repetition of the set [cs] cannot go on into [s]. *)
Definition stops (fl : Re.flags) (cs : Re.cset) (s : str) : Prop :=
  match s with
  | c :: _ => Re.cset_match fl cs c = false
  | [] => True
  end.

(** The repetition [=+] of the banners. *)
Definition EQS : Re.regex := Re.RRep (Re.CChar "=") Re.QPlus true.

(** [.+?] and [.*?]. *)
Definition DOTS (q : Re.quant) : Re.regex :=
  Re.RSeq (Re.RRep Re.CDot q false) Re.REps.

(** The body of the look-ahead [(?=\n# =+|\Z)]. *)
Definition LOOK_BODY : Re.regex :=
  Re.RAlt (lit (NL :: L "# ") (Re.RSeq EQS Re.REps)) (Re.RSeq Re.REndZ Re.REps).

(** [PEER_PATTERN] with its literal texts gathered. *)
Definition PEER_PATTERN_form : Re.regex :=
  Re.RSeq Re.RBol
    (lit (L "# ") (Re.RSeq EQS
    (lit (NL :: L "# ClientName: ") (Re.RSeq (Re.RGroup 1 (DOTS Re.QPlus))
    (lit (NL :: L "# AddedAt: ") (Re.RSeq (Re.RGroup 2 (DOTS Re.QPlus))
    (lit (NL :: L "# ") (Re.RSeq EQS
    (lit (NL :: L "[Peer]" ++ [NL]) (Re.RSeq (Re.RGroup 3 (DOTS Re.QStar))
    (Re.RSeq (Re.RLook LOOK_BODY) Re.REps))))))))))).

(** A run of [n] equal signs. *)
Definition eq_run (n : nat) : str := replicate n "="%char.

(** The head of a peer block: banner, name, date, banner, [[Peer]]. *)
Definition header (n1 n2 : nat) (nm date : str) : str :=
  L "# " ++ eq_run (S n1) ++ (NL :: L "# ClientName: ") ++ nm
  ++ (NL :: L "# AddedAt: ") ++ date ++ (NL :: L "# ") ++ eq_run (S n2)
  ++ (NL :: L "[Peer]" ++ [NL]).

(** What may follow a block: the end of the text, or the line feed and
    the banner of the next block. *)
Definition block_end (tail : str) : Prop :=
  tail = [] \/ exists n t, tail = (NL :: L "# ") ++ eq_run (S n) ++ t /\ stops MULTILINE_DOTALL (Re.CChar "=") t.

(** The four patterns of the fields: [kw\s*=\s*(.+)]. *)
Definition kw_pattern (kw : str) : Re.regex :=
  lit kw (Re.RSeq (Re.RRep Re.CSpace Re.QStar true)
    (lit (L "=") (Re.RSeq (Re.RRep Re.CSpace Re.QStar true)
      (Re.RSeq (Re.RGroup 1 (Re.RSeq (Re.RRep Re.CDot Re.QPlus true) Re.REps))
         Re.REps)))).

(** ** Well-formed records and documents *)

(** Without a line feed. *)
Definition single_line (v : str) : bool :=
  forallb (fun c => negb (Ascii.eqb c NL)) v.

(** Neither empty nor with white space at either end. *)
Definition trimmed (v : str) : bool :=
  match v with
  | c :: _ => negb (Py.isspace c)
  | [] => false
  end
  && match last v with
     | Some d => negb (Py.isspace d)
     | None => false
     end.

(** A field as the registry writes and reads it back unchanged: one
    line, trimmed, without the text of a banner. *)
Definition clean (v : str) : bool :=
  single_line v && trimmed v && negb (contains v (L "# =")).

(** The names of the fields a value must not contain, as the patterns
    of the fields are searched anywhere in the block. *)
Definition KEYWORDS : list str := [L "AllowedIPs"; L "PresharedKey"; L "Endpoint"].

Definition kw_free (v : str) : bool :=
  forallb (fun kw => negb (contains v kw)) KEYWORDS.

Definition value_ok (v : str) : bool := clean v && kw_free v.

Definition opt_ok (o : option str) : bool :=
  match o with
  | Some v => value_ok v
  | None => true
  end.

(** A line of an optional field. *)
Definition opt_line (kw : str) (o : option str) : str :=
  match o with
  | Some v => NL :: kw ++ v
  | None => []
  end.

(** The lines of a block after [[Peer]]. *)
Definition body_text (pk ip : str) (psk ep : option str) : str :=
  L "PublicKey = " ++ pk ++ (NL :: L "AllowedIPs = ") ++ ip ++ L "/32"
  ++ opt_line (L "PresharedKey = ") psk ++ opt_line (L "Endpoint = ") ep.

(** What may follow the value of a field: the end of the block, or a
    line feed. *)
Definition line_end (s : str) : Prop := s = [] \/ exists s', s = NL :: s'.

(** A peer as it is given to [add_peer]: name, public key, host address,
    date, optional endpoint, optional preshared key. *)
Record PeerSpec := mkSpec {
  s_name : str;
  s_public_key : str;
  s_ip : str;
  s_added_at : str;
  s_endpoint : option str;
  s_preshared_key : option str }.

(** The block [generate_peer_block] renders for a peer. *)
Definition encode (r : PeerSpec) : str :=
  generate_peer_block (s_name r) (s_public_key r) (s_ip r) (s_added_at r)
    (s_endpoint r) (s_preshared_key r).

(** The record [parse_peers] is to give back for it. *)
Definition decoded (r : PeerSpec) : WgPeer :=
  mkWgPeer (s_name r) (s_public_key r) (s_ip r ++ L "/32") (s_added_at r)
    (s_endpoint r) (s_preshared_key r) None None None.

(** The peers that survive the round trip: every field on one line,
    trimmed and without banner text; the values of the block free of the
    names of the other fields; no slash in the host address. *)
Definition canonical (r : PeerSpec) : bool :=
  clean (s_name r) && clean (s_added_at r)
  && value_ok (s_public_key r) && value_ok (s_ip r)
  && opt_ok (s_preshared_key r) && opt_ok (s_endpoint r)
  && negb (contains (s_ip r) (L "/")).

(** The blocks of the peers [rs], each followed by a line feed, as
    successive calls of [add_peer] lay them out. *)
Definition blocks (rs : list PeerSpec) : str :=
  flat_map (fun r => encode r ++ [NL]) rs.

(** A document: a text [P] without banner (the interface part, already
    stripped on the right) and the blocks of the peers [rs]. *)
Definition doc (P : str) (rs : list PeerSpec) : str := P ++ [NL] ++ blocks rs.

(** The matches among the pieces of a scan. *)
Definition matches_of (pieces : list (ascii + Re.re_match)) : list Re.re_match :=
  omap (fun x => match x with inr mt => Some mt | inl _ => None end) pieces.




(** A decoded record read as a peer to encode again. *)
Definition spec_of (p : WgPeer) : PeerSpec :=
  mkSpec (name p) (public_key p) (Py.split_head "/" (allowed_ips p)) (added_at p)
    (endpoint p) (preshared_key p).

(** The blocks of decoded records. *)
Definition reencode (ps : list WgPeer) : str := blocks (map spec_of ps).

(** [add_peer] for a peer. *)
Definition add_spec (config_path : str) (r : PeerSpec) : M unit :=
  add_peer config_path (s_name r) (s_public_key r) (s_ip r) (s_added_at r)
    (s_endpoint r) (s_preshared_key r).


(** ** The pattern of [remove_peer] *)

(** The pattern that reads one given character. *)
Definition chr (c : ascii) : Re.regex := Re.RSet (Re.CChar c).

(** The items of a pattern text without groups: what [re.compile] makes
    of it, as a list. *)
Definition items_of (text : str) : list Re.regex :=
  match Re.lex text with
  | Some ts =>
      match Re.prun Re.pinit ts with
      | Some st => rev (Re.f_cur (Re.p_top st))
      | None => []
      end
  | None => []
  end.

Definition rm_head : list Re.regex :=
  Eval vm_compute in items_of (L "\n?# =+\n# ClientName: ").

Definition rm_tail : list Re.regex :=
  Eval vm_compute in
    items_of (L "\n# AddedAt: .+?\n# =+\n\[Peer\]\n.*?(?=\n# =+|\Z)").

(** The syntax tree of the pattern for the name [nm]: the name is read
    character by character. *)
Definition remove_pattern (nm : str) : Re.regex :=
  Re.seq_of (rm_head ++ map chr nm ++ rm_tail).

(** The same with its literal texts gathered. *)
Definition remove_pattern_form (nm : str) : Re.regex :=
  Re.RSeq (Re.RRep (Re.CChar NL) Re.QOpt true)
    (lit (L "# ") (Re.RSeq EQS
    (lit (NL :: L "# ClientName: " ++ nm ++ NL :: L "# AddedAt: ")
       (Re.RSeq (Re.RRep Re.CDot Re.QPlus false)
    (lit (NL :: L "# ") (Re.RSeq EQS
    (lit (NL :: L "[Peer]" ++ [NL]) (Re.RSeq (Re.RRep Re.CDot Re.QStar false)
    (Re.RSeq (Re.RLook LOOK_BODY) Re.REps))))))))).

(** The tokens of the two fixed parts of the pattern text. *)
Definition rm_head_tokens : list Re.token :=
  Eval vm_compute in default [] (Re.lex (L "\n?# =+\n# ClientName: ")).

Definition rm_tail_tokens : list Re.token :=
  Eval vm_compute in
    default [] (Re.lex (L "\n# AddedAt: .+?\n# =+\n\[Peer\]\n.*?(?=\n# =+|\Z)")).

(** The pattern [r] matches nowhere inside [x] when [x] is followed by [s]. *)
Definition nomatch (r : Re.regex) (x s : str) : Prop :=
  forall x1 x2 p, x = x1 ++ x2 -> x2 <> [] ->
                  Re.match_here MULTILINE_DOTALL r false p (x2 ++ s) = None.

(** What [subn] with the empty replacement keeps of the pieces of a scan. *)
Definition kept (pieces : list (ascii + Re.re_match)) : str :=
  flat_map (fun x => match x with inl c => [c] | inr _ => [] end) pieces.

(** The peers of a list that are not named [nm]. *)
Definition others (nm : str) (rs : list PeerSpec) : list PeerSpec :=
  filter (fun r => s_name r <> nm) rs.

(** ** Definitions for the statements on the runtime status *)

(** A line of the dump with at least eight fields. *)
Definition long_line (line : str) : bool :=
  8 <=? length (Py.split "009" line).

(** The counters of a line are numbers: the handshake is ["0"] or a
    number, and both transfer counters are numbers.  A line of fewer
    than eight fields has no counters. *)
Definition counters_ok (line : str) : bool :=
  match Py.split "009" line with
  | _ :: _ :: _ :: _ :: p4 :: p5 :: p6 :: _ :: _ =>
      (bool_decide (p4 = L "0") || bool_decide (is_Some (Py.int p4)))
      && bool_decide (is_Some (Py.int p5))
      && bool_decide (is_Some (Py.int p6))
  | _ => true
  end.

(** ** Definitions for the statements on successive calls *)

(** [add_peer] called for each peer of a list in turn. *)
Fixpoint add_all (config_path : str) (rs : list PeerSpec) : M unit :=
  match rs with
  | [] => ret tt
  | r :: rs' => add_spec config_path r ;;; add_all config_path rs'
  end.

(** The peers [rs] can be added one after the other to a file that
    holds the peers [rs0]: their names and their addresses differ from
    each other and from those of [rs0], and every address parses and is
    not that of the server. *)
Definition addable (rs0 rs : list PeerSpec) : bool :=
  bool_decide (NoDup (map s_name (rs0 ++ rs)))
  && bool_decide (NoDup (map (fun r => Ip.parse (s_ip r)) (rs0 ++ rs)))
  && forallb (fun r => match Ip.parse (s_ip r) with
                       | Some a => negb (a =? SERVER_IP)%Z
                       | None => false
                       end) rs.

(** ** Definitions for the statements that read a written text back *)

(** A text without carriage return.  [read_text] reads in text mode,
    which turns every carriage return, alone or before a line feed, into
    a line feed ([Py.universal_newlines]): a text that was written is
    read back as it was exactly when it holds none. *)
Definition cr_free (x : str) : bool :=
  forallb (fun c => negb (Ascii.eqb c "013")) x.

(** ** Definitions for the statements on blocks without keys *)

(** A block of a document: that of a canonical peer, or a block with a
    banner, a name and a date whose body is any text. *)
Inductive item :=
| Good (r : PeerSpec)
| Broken (nm date body : str).

(** The body of a broken block has no banner text and lacks the word
    [PublicKey] or the word [AllowedIPs]. *)
Definition broken_ok (nm date body : str) : bool :=
  clean nm && clean date && negb (contains body (L "# ="))
  && (negb (contains body (L "PublicKey")) || negb (contains body (L "AllowedIPs"))).

Definition item_ok (it : item) : bool :=
  match it with
  | Good r => canonical r
  | Broken nm date body => broken_ok nm date body
  end.

Definition item_text (it : item) : str :=
  match it with
  | Good r => encode r
  | Broken nm date body =>
      Py.join [NL] [ []; BANNER; L "# ClientName: " ++ nm; L "# AddedAt: " ++ date;
                     BANNER; L "[Peer]"; body ]
  end.

(** The blocks of the items, each followed by a line feed. *)
Definition item_blocks (items : list item) : str :=
  flat_map (fun it => item_text it ++ [NL]) items.

(** The peers among the items. *)
Definition good_peers (items : list item) : list PeerSpec :=
  omap (fun it => match it with Good r => Some r | Broken _ _ _ => None end) items.

(** ** Definitions for the statements on the subscriptions *)

(** The order of the calendar: by year, then month, then day. *)
Definition date_before (a b : Clash.date) : bool :=
  ((Clash.year a <? Clash.year b)
   || ((Clash.year a =? Clash.year b)
       && ((Clash.month a <? Clash.month b)
           || ((Clash.month a =? Clash.month b)
               && (Clash.day a <? Clash.day b)))))%Z.

(** ** Definitions for the statements on removal and on lenient decoding *)






(** * Properties *)

(** ** Reading the file *)

Lemma read_config_text config_path st content :
  file st = Some content -> read_config config_path st = (Ok content, st).
Proof. destruct st as [[c|] w|w]; [|done..]. cbn. by intros [= ->]. Qed.

Lemma universal_newlines_cr_free x :
  cr_free x = true -> Py.universal_newlines x = x.
Proof.
  induction x as [|c x IH]; [reflexivity|]. cbn [cr_free forallb].
  intros H. apply andb_prop in H as [Hc Hx]. apply negb_true_iff in Hc.
  cbn [Py.universal_newlines]. rewrite Hc. f_equal. by apply IH.
Qed.

(** A text that was read holds no carriage return. *)
Lemma cr_free_universal_newlines x : cr_free (Py.universal_newlines x) = true.
Proof.
  enough (H : cr_free (Py.universal_newlines x) = true /\
              forall c, cr_free (Py.universal_newlines (c :: x)) = true)
    by apply H.
  induction x as [|a x [IH1 IH2]].
  - split; [reflexivity|]. intros c. cbn [Py.universal_newlines].
    destruct (Ascii.eqb c "013") eqn:E; [reflexivity|].
    cbn [cr_free forallb]. by rewrite E.
  - split; [apply IH2|]. intros c.
    change (Py.universal_newlines (c :: a :: x))
      with (if Ascii.eqb c "013"
            then "010"%char :: (if Ascii.eqb a "010" then Py.universal_newlines x
                                else Py.universal_newlines (a :: x))
            else c :: Py.universal_newlines (a :: x)).
    destruct (Ascii.eqb c "013") eqn:E.
    + destruct (Ascii.eqb a "010"); cbn [cr_free forallb];
        [exact IH1|exact (IH2 a)].
    + cbn [cr_free forallb]. rewrite E. exact (IH2 a).
Qed.

Lemma file_cr_free st content : file st = Some content -> cr_free content = true.
Proof.
  destruct st as [[c|] w|w]; [|done..]. cbn. intros [= <-].
  apply cr_free_universal_newlines.
Qed.

Lemma file_stored content w :
  cr_free content = true -> file (FS (Some content) w) = Some content.
Proof. intros H. cbn. by rewrite universal_newlines_cr_free. Qed.

(** ** The address pool *)

Lemma candidate_table :
  forallb (fun i => match Pool.candidate i with
                    | Ok a => Z.eqb a (Pool.addr i)
                    | Raise _ => false
                    end) (seq 2 253) = true.
Proof. vm_compute. reflexivity. Qed.

Lemma candidate_ok i : 2 <= i <= 254 -> Pool.candidate i = Ok (Pool.addr i).
Proof.
  intros Hi.
  pose proof candidate_table as T.
  rewrite forallb_forall in T.
  specialize (T i).
  destruct (Pool.candidate i) as [a|e].
  - f_equal. apply Z.eqb_eq, T, in_seq. lia.
  - discriminate T. apply in_seq. lia.
Qed.

Lemma addr_inj i j : Pool.addr i = Pool.addr j -> i = j.
Proof. unfold Pool.addr, Ip.quad. lia. Qed.

Lemma add_used_spec peers : forall used a,
  a ∈ add_used used peers <->
  a ∈ used \/ exists p, p ∈ peers /\
                Ip.parse (Py.split_head "/" (allowed_ips p)) = Some a.
Proof.
  induction peers as [|p peers IH]; intros used a; simpl.
  - split; [auto|]. intros [H|(p & Hp & _)]; [done|]. by apply elem_of_nil in Hp.
  - unfold Ip.IPv4Address.
    destruct (Ip.parse (Py.split_head "/" (allowed_ips p))) as [b|] eqn:E;
      rewrite IH; split.
    + intros [H|(q & Hq & Hpq)].
      * apply elem_of_union in H as [H|H]; [auto|].
        apply elem_of_singleton in H. subst. right. exists p. split; [left|done].
      * right. exists q. split; [by right|done].
    + intros [H|(q & Hq & Hpq)].
      * left. apply elem_of_union. auto.
      * apply elem_of_cons in Hq as [->|Hq].
        -- left. apply elem_of_union. right. apply elem_of_singleton. congruence.
        -- right. eauto.
    + intros [H|(q & Hq & Hpq)]; [auto|]. right. exists q. split; [by right|done].
    + intros [H|(q & Hq & Hpq)]; [auto|].
      apply elem_of_cons in Hq as [->|Hq]; [congruence|]. right. eauto.
Qed.

Lemma first_free_cons used i rest :
  first_free used (i :: rest) =
  match Pool.candidate i with
  | Ok c => if decide (c ∈ used) then first_free used rest else Ok c
  | Raise e => Raise e
  end.
Proof. reflexivity. Qed.

Lemma first_free_spec used : forall n lo,
  2 <= lo -> lo + n <= 255 ->
  match first_free used (seq lo n) with
  | Ok a => exists i, lo <= i < lo + n /\ a = Pool.addr i /\ (a ∉ used) /\
                      forall j, lo <= j < i -> Pool.addr j ∈ used
  | Raise e => e = RuntimeError MsgPoolExhausted /\
               forall j, lo <= j < lo + n -> Pool.addr j ∈ used
  end.
Proof.
  induction n as [|n IH]; intros lo Hlo Hn.
  - simpl. split; [done|]. intros; lia.
  - rewrite <- cons_seq, first_free_cons, candidate_ok by lia.
    destruct (decide (Pool.addr lo ∈ used)) as [Hin|Hout].
    + specialize (IH (S lo) ltac:(lia) ltac:(lia)).
      destruct (first_free used (seq (S lo) n)) as [a|e].
      * destruct IH as (i & Hi & -> & Hfree & Hbelow).
        exists i. repeat split; [lia|lia|done|].
        intros j Hj. destruct (decide (j = lo)) as [->|]; [done|].
        apply Hbelow. lia.
      * destruct IH as [-> Hall]. split; [done|].
        intros j Hj. destruct (decide (j = lo)) as [->|]; [done|].
        apply Hall. lia.
    + exists lo. repeat split; [lia|lia|done|]. intros; lia.
Qed.


(** ** Conflicts *)

Lemma check_name_conflict_spec config_path nm content st :
  exists b, check_name_conflict config_path nm (Some content) st = (Ok b, st) /\
            (b = true <-> name_taken content nm).
Proof.
  eexists. split; [reflexivity|].
  unfold name_taken. rewrite existsb_exists. split.
  - intros (p & Hp & E). exists p. apply bool_decide_eq_true in E.
    split; [by apply list_elem_of_In|done].
  - intros (p & Hp & E). exists p. split; [by apply list_elem_of_In|].
    by apply bool_decide_eq_true.
Qed.

Lemma check_ip_conflict_taken config_path ip content st :
  address_taken content ip ->
  check_ip_conflict config_path ip (Some content) st = (Ok true, st).
Proof.
  intros (p & a & Hp & Ha & Hip).
  unfold check_ip_conflict, Ip.IPv4Address. rewrite Hip.
  change (get_used_ips config_path (Some content) st)
    with (Ok (add_used {[SERVER_IP]} (parse_content content)), st).
  unfold bind, ret. f_equal. f_equal. apply bool_decide_eq_true, add_used_spec. right. eauto.
Qed.

Lemma add_peer_name_conflict config_path content nm pk ip date ep psk st :
  file st = Some content -> name_taken content nm ->
  add_peer config_path nm pk ip date ep psk st = (Raise (NameConflict nm), st).
Proof.
  intros Hf Hn. unfold add_peer, bind at 1. rewrite (read_config_text _ _ _ Hf).
  unfold bind at 1.
  destruct (check_name_conflict_spec config_path nm content st) as (b & -> & Hb).
  apply Hb in Hn. subst b. reflexivity.
Qed.

Lemma add_peer_address_conflict config_path content nm pk ip date ep psk st :
  file st = Some content -> ~ name_taken content nm -> address_taken content ip ->
  add_peer config_path nm pk ip date ep psk st = (Raise (AddressConflict ip), st).
Proof.
  intros Hf Hn Ha. unfold add_peer, bind at 1. rewrite (read_config_text _ _ _ Hf).
  unfold bind at 1.
  destruct (check_name_conflict_spec config_path nm content st) as (b & -> & Hb).
  destruct b; [exfalso; apply Hn, Hb; reflexivity|].
  unfold bind at 1. rewrite check_ip_conflict_taken by done. reflexivity.
Qed.

(** ** The sample configuration *)

Lemma SAMPLE_peers :
  parse_content SAMPLE_WG_CONFIG =
  [ mkWgPeer (L "macbook-pro") (L "CLIENT1_PUBLIC_KEY") (L "10.8.0.5/32")
      (L "2026-01-27") None None None None None;
    mkWgPeer (L "home-nas") (L "CLIENT2_PUBLIC_KEY") (L "10.8.0.6/32")
      (L "2026-01-27") (Some (L "nas.myhome.com:51820")) None None None None;
    mkWgPeer (L "phone-android") (L "CLIENT3_PUBLIC_KEY") (L "10.8.0.7/32")
      (L "2026-01-28") None (Some (L "PRESHARED_KEY_VALUE")) None None None ].
Proof. vm_compute. reflexivity. Qed.


(** ** An absent configuration file *)

Ltac not_missing :=
  eexists _, _; split; [reflexivity | intros msg; discriminate].

Lemma add_peer_present config_path stored w nm pk ip date ep psk :
  exists r st', add_peer config_path nm pk ip date ep psk (FS (Some stored) w) = (r, st') /\
                forall msg, r <> Raise (FileNotFoundError msg).
Proof.
  unfold add_peer, bind at 1, read_config.
  set (content := Py.universal_newlines stored).
  unfold bind at 1.
  destruct (check_name_conflict_spec config_path nm content (FS (Some stored) w))
    as (b & -> & _).
  destruct b; [not_missing|].
  unfold bind at 1, check_ip_conflict.
  destruct (Ip.IPv4Address (Py.split_head "/" ip)) as [a|e]; [|not_missing].
  unfold bind, ret.
  change (get_used_ips config_path (Some content) (FS (Some stored) w))
    with (Ok (add_used {[SERVER_IP]} (parse_content content)), FS (Some stored) w).
  cbv beta iota. case_bool_decide; not_missing.
Qed.

Lemma remove_peer_present config_path stored w nm :
  exists r st', remove_peer config_path nm (FS (Some stored) w) = (r, st') /\
                forall msg, r <> Raise (FileNotFoundError msg).
Proof.
  unfold remove_peer, bind at 1, read_config.
  set (content := Py.universal_newlines stored).
  destruct (Re.compile (remove_pattern_text nm)) as [pattern|]; [|not_missing].
  destruct (Re.subn MULTILINE_DOTALL pattern [] content) as [new_content count].
  destruct (count =? 0); not_missing.
Qed.

(** ** The resolver *)

Lemma get_name_to_ip_mapping_eq self st :
  get_name_to_ip_mapping self st
  = (match st with
     | NotUtf8 _ => Raise (ValueError MsgNotUtf8)
     | FS _ _ => Ok (mapping_of st)
     end, st).
Proof.
  destruct st as [[content|] w|w]; reflexivity.
Qed.

Lemma looked_up_file st content d :
  file st = Some content -> looked_up st d = Ok (mapping_of st !! d).
Proof. by destruct st. Qed.

Lemma add_names_lookup peers : forall (mapping : gmap str str) d,
  add_names mapping peers !! d =
  match list_find (fun p => bool_decide (Py.lower (name p) = d)) (rev peers) with
  | Some (_, p) => Some (Py.split_head "/" (allowed_ips p))
  | None => mapping !! d
  end.
Proof.
  induction peers as [|p peers IH]; intros mapping d; [reflexivity|].
  cbn [add_names rev]. rewrite IH.
  destruct (list_find _ (rev peers)) as [[i q]|] eqn:E.
  - erewrite list_find_app_l by exact E. reflexivity.
  - rewrite list_find_app_r by exact E. cbn.
    case_bool_decide as Hd.
    + cbn. subst d. apply lookup_insert_eq.
    + cbn. by apply lookup_insert_ne.
Qed.


Lemma mapping_of_other st d :
  d ∉ [L "server"; L "gateway"] ->
  mapping_of st !! d = add_names ∅ (peers_of st) !! d.
Proof.
  intros H. unfold mapping_of.
  rewrite !lookup_insert_ne; [done| |];
    intros <-; apply H; rewrite !elem_of_cons; auto.
Qed.

Lemma endswith_app d sfx : Py.endswith (d ++ sfx) sfx = true.
Proof.
  unfold Py.endswith. rewrite length_app.
  apply andb_true_intro. split.
  - apply Nat.leb_le. lia.
  - apply bool_decide_eq_true.
    replace (length d + length sfx - length sfx) with (length d) by lia.
    apply drop_app_length.
Qed.

Lemma endswith_inv q sfx :
  Py.endswith q sfx = true -> q = take (length q - length sfx) q ++ sfx.
Proof.
  unfold Py.endswith. intros H. apply andb_prop in H as [_ H].
  apply bool_decide_eq_true in H.
  rewrite <- H at 2. symmetry. apply take_drop.
Qed.

Lemma slice_to_neg_app d sfx :
  sfx <> [] -> Py.slice_to_neg (d ++ sfx) (length sfx) = d.
Proof.
  intros H. unfold Py.slice_to_neg.
  destruct sfx as [|c sfx]; [done|]. cbn [length].
  rewrite length_app. cbn [length].
  replace (length d + S (length sfx) - S (length sfx)) with (length d) by lia.
  apply take_app_length.
Qed.



Lemma resolve_query_in_zone self qname d st :
  domain_suffix self <> [] ->
  Py.rstrip_char "." (Py.lower qname) = d ++ domain_suffix self ->
  resolve_query self qname QTYPE_A st = (looked_up st d, st).
Proof.
  intros Hs Hq. unfold resolve_query. cbn [Z.eqb QTYPE_A negb Pos.eqb].
  rewrite Hq, endswith_app, slice_to_neg_app by done. cbn [negb].
  unfold bind. rewrite get_name_to_ip_mapping_eq. by destruct st.
Qed.



(** ** The matcher *)

Arguments Re.rep {A} fl cs q greedy p !s g k : simpl nomatch.
Arguments Re.consumed : simpl never.
Arguments Py.strip : simpl never.
Arguments parse_content : simpl never.
Arguments field : simpl never.
Arguments body_text : simpl never.

Lemma orelse_None_r {A} (x : option A) : Re.orelse x None = x.
Proof. by destruct x. Qed.

Lemma consumed_app (x s : str) : Re.consumed (x ++ s) s = x.
Proof.
  unfold Re.consumed. rewrite length_app.
  replace (length x + length s - length s) with (length x) by lia.
  apply take_app_length.
Qed.

Lemma consumed_nil (s : str) : Re.consumed s s = [].
Proof. apply (consumed_app [] s). Qed.

Lemma prev_after_nil p : prev_after p [] = p.
Proof. reflexivity. Qed.

Lemma prev_after_cons p c x : prev_after p (c :: x) = prev_after (Some c) x.
Proof.
  unfold prev_after. destruct x as [|d x]; [reflexivity|].
  rewrite last_cons. by destruct (last (d :: x)) eqn:E.
Qed.

Lemma prev_after_snoc p x c : prev_after p (x ++ [c]) = Some c.
Proof. unfold prev_after. by rewrite last_snoc. Qed.

Lemma prev_after_app p x y :
  prev_after p (x ++ y) = prev_after (prev_after p x) y.
Proof.
  revert p. induction x as [|c x IH]; intros p; [reflexivity|].
  cbn [app]. rewrite !prev_after_cons. apply IH.
Qed.

Lemma eqb_NL_false c : c <> NL -> Ascii.eqb c NL = false.
Proof. apply Ascii.eqb_neq. Qed.

(** *** Literal text *)

Lemma m_lit {A} fl x r p s g (k : Re.cont (A := A)) :
  Re.m fl (lit x r) p (x ++ s) g k = Re.m fl r (prev_after p x) s g k.
Proof.
  revert p. induction x as [|c x IH]; intros p; [reflexivity|].
  cbn. rewrite Ascii.eqb_refl, IH, prev_after_cons. reflexivity.
Qed.

Lemma m_lit_fail {A} fl x r p s g (k : Re.cont (A := A)) :
  Py.startswith s x = false -> Re.m fl (lit x r) p s g k = None.
Proof.
  revert p s. induction x as [|c x IH]; intros p s H; [by destruct s|].
  destruct s as [|d s]; [reflexivity|]. cbn in *.
  destruct (Ascii.eqb d c); [|reflexivity]. apply IH, H.
Qed.

Lemma startswith_app x s : Py.startswith (x ++ s) x = true.
Proof.
  induction x as [|c x IH]; [by destruct s|]. cbn. by rewrite Ascii.eqb_refl.
Qed.

Lemma startswith_inv s x : Py.startswith s x = true -> exists s', s = x ++ s'.
Proof.
  revert s. induction x as [|c x IH]; intros s H; [by exists s|].
  destruct s as [|d s]; [discriminate|]. cbn in H.
  apply andb_prop in H as [H1 H2]. apply Ascii.eqb_eq in H1. subst d.
  destruct (IH s H2) as [s' ->]. by exists s'.
Qed.

Lemma m_lit_inv {A} fl x r p s g (k : Re.cont (A := A)) v :
  Re.m fl (lit x r) p s g k = Some v ->
  exists s', s = x ++ s' /\ Re.m fl r (prev_after p x) s' g k = Some v.
Proof.
  intros H. destruct (Py.startswith s x) eqn:E.
  - apply startswith_inv in E as [s' ->]. exists s'. split; [done|].
    by rewrite m_lit in H.
  - by rewrite m_lit_fail in H.
Qed.

(** *** Repetitions *)

Lemma rep_star_const {A} fl cs gr p s g (k : Re.cont (A := A)) v :
  (forall p' s', k p' s' g = Some v) -> Re.rep_star fl cs gr p s g k = Some v.
Proof.
  intros H. revert p. induction s as [|c s IH]; intros p; cbn; [apply H|].
  destruct (Re.cset_match fl cs c); [|apply H].
  destruct gr; [by rewrite IH|by rewrite H].
Qed.

Lemma rep_star_lazy_stop {A} fl cs p s g (k : Re.cont (A := A)) v :
  k p s g = Some v -> Re.rep_star fl cs false p s g k = Some v.
Proof.
  intros H. destruct s as [|c s]; cbn; [exact H|].
  destruct (Re.cset_match fl cs c); by rewrite H.
Qed.

Lemma rep_star_lazy_skip {A} fl cs x : forall p s g (k : Re.cont (A := A)),
  Forall (fun c => Re.cset_match fl cs c = true) x ->
  (forall x1 c x2, x = x1 ++ c :: x2 ->
                   k (prev_after p x1) (c :: x2 ++ s) g = None) ->
  Re.rep_star fl cs false p (x ++ s) g k
  = Re.rep_star fl cs false (prev_after p x) s g k.
Proof.
  induction x as [|c x IH]; intros p s g k Hx Hk; [reflexivity|].
  apply Forall_cons in Hx as [Hc Hx]. cbn. rewrite Hc.
  pose proof (Hk [] c x eq_refl) as H0. change (prev_after p []) with p in H0.
  rewrite H0. cbn. rewrite prev_after_cons.
  apply IH; [exact Hx|]. intros x1 d x2 ->.
  specialize (Hk (c :: x1) d x2 eq_refl). by rewrite prev_after_cons in Hk.
Qed.

Lemma rep_star_greedy_max {A} fl cs x : forall p s g (k : Re.cont (A := A)) v,
  Forall (fun c => Re.cset_match fl cs c = true) x ->
  stops fl cs s ->
  k (prev_after p x) s g = Some v ->
  Re.rep_star fl cs true p (x ++ s) g k = Some v.
Proof.
  induction x as [|c x IH]; intros p s g k v Hx Hs Hk.
  - destruct s as [|c s]; cbn in *; [exact Hk|]. by rewrite Hs.
  - apply Forall_cons in Hx as [Hc Hx]. cbn. rewrite Hc.
    rewrite prev_after_cons in Hk. by rewrite (IH _ _ _ _ _ Hx Hs Hk).
Qed.

Lemma rep_plus_greedy_max {A} fl cs x p s g (k : Re.cont (A := A)) v :
  x <> [] ->
  Forall (fun c => Re.cset_match fl cs c = true) x ->
  stops fl cs s ->
  k (prev_after p x) s g = Some v ->
  Re.rep fl cs Re.QPlus true p (x ++ s) g k = Some v.
Proof.
  intros Hne Hx Hs Hk. destruct x as [|c x]; [done|].
  apply Forall_cons in Hx as [Hc Hx].
  change (Re.rep fl cs Re.QPlus true p ((c :: x) ++ s) g k)
    with (if Re.cset_match fl cs c
          then Re.rep_star fl cs true (Some c) (x ++ s) g k else None).
  rewrite Hc. rewrite prev_after_cons in Hk. by apply rep_star_greedy_max.
Qed.

Lemma rep_plus_head_fail {A} fl cs gr p c s g (k : Re.cont (A := A)) :
  Re.cset_match fl cs c = false -> Re.rep fl cs Re.QPlus gr p (c :: s) g k = None.
Proof. intros H. unfold Re.rep. by rewrite H. Qed.

(** A lazy [.+?] or [.*?] under [DOTALL] runs over a text in which the
    continuation fails everywhere, up to the first place where it
    succeeds. *)
Lemma rep_lazy_to {A} fl q x p s g (k : Re.cont (A := A)) v :
  Re.DOTALL fl = true ->
  (q = Re.QPlus -> x <> []) -> q <> Re.QOpt ->
  (forall x1 c x2, x = x1 ++ c :: x2 -> (q = Re.QPlus -> x1 <> []) ->
                   k (prev_after p x1) (c :: x2 ++ s) g = None) ->
  k (prev_after p x) s g = Some v ->
  Re.rep fl Re.CDot q false p (x ++ s) g k = Some v.
Proof.
  intros Hfl Hne Hq Hk Hv.
  assert (Hall : forall y : str, Forall (fun c => Re.cset_match fl Re.CDot c = true) y).
  { intros y. apply Forall_forall. intros c _. cbn. by rewrite Hfl. }
  destruct q; [done| |].
  - change (Re.rep_star fl Re.CDot false p (x ++ s) g k = Some v).
    rewrite rep_star_lazy_skip; [by apply rep_star_lazy_stop|apply Hall|].
    intros x1 c x2 E. apply (Hk x1 c x2 E). discriminate.
  - destruct x as [|c x]; [by specialize (Hne eq_refl)|].
    change (Re.rep fl Re.CDot Re.QPlus false p ((c :: x) ++ s) g k)
      with (if Re.cset_match fl Re.CDot c
            then Re.rep_star fl Re.CDot false (Some c) (x ++ s) g k else None).
    replace (Re.cset_match fl Re.CDot c) with true by (cbn; by rewrite Hfl).
    rewrite prev_after_cons in Hv.
    rewrite rep_star_lazy_skip; [by apply rep_star_lazy_stop|apply Hall|].
    intros x1 d x2 ->. rewrite <- (prev_after_cons p c x1).
    apply (Hk (c :: x1) d x2 eq_refl). discriminate.
Qed.


(** *** [PEER_PATTERN] at the head of a block *)

Lemma PEER_PATTERN_eq : PEER_PATTERN = PEER_PATTERN_form.
Proof. reflexivity. Qed.

Lemma eq_run_all fl n :
  Forall (fun c => Re.cset_match fl (Re.CChar "=") c = true) (eq_run n).
Proof. apply Forall_replicate. reflexivity. Qed.

Lemma not_in_split (c d : ascii) (x x1 x2 : str) :
  d ∉ x -> x = x1 ++ c :: x2 -> c <> d.
Proof.
  intros H -> ->. apply H. apply elem_of_app. right. apply elem_of_cons. by left.
Qed.

Lemma startswith_app_both x a b :
  Py.startswith (x ++ a) (x ++ b) = Py.startswith a b.
Proof. induction x as [|c x IH]; [reflexivity|]. cbn. by rewrite Ascii.eqb_refl. Qed.

Lemma m_lit_plus_fail {A} fl x c gr r p s g (k : Re.cont (A := A)) :
  Py.startswith s (x ++ [c]) = false ->
  Re.m fl (lit x (Re.RSeq (Re.RRep (Re.CChar c) Re.QPlus gr) r)) p s g k = None.
Proof.
  intros H. destruct (Py.startswith s x) eqn:E; [|by apply m_lit_fail].
  apply startswith_inv in E as [s' ->]. rewrite m_lit. cbn [Re.m].
  destruct s' as [|d s']; [reflexivity|]. apply rep_plus_head_fail.
  rewrite startswith_app_both in H. cbn in H. cbn.
  by destruct (Ascii.eqb d c).
Qed.

(** The look-ahead fails where the text neither ends nor starts a banner. *)
Lemma look_fail {A} fl p s g (k : Re.cont (A := A)) :
  s <> [] -> Py.startswith s (NL :: L "# =") = false ->
  Re.m fl LOOK_BODY p s g k = None.
Proof.
  intros Hs H. unfold LOOK_BODY. cbn [Re.m].
  destruct s as [|c s]; [done|]. rewrite orelse_None_r.
  by apply (m_lit_plus_fail fl (NL :: L "# ") "=").
Qed.

Lemma look_ok fl p tail g :
  block_end tail ->
  Re.m fl LOOK_BODY p tail g (fun _ _ g' => Some g') = Some g.
Proof.
  intros [->|(n & t & -> & Ht)]; [reflexivity|].
  unfold LOOK_BODY. cbn [Re.m EQS DOTS]. rewrite m_lit. cbn [Re.m EQS DOTS].
  erewrite rep_plus_greedy_max; [reflexivity|discriminate|apply eq_run_all| |reflexivity].
  destruct t; [done|]. exact Ht.
Qed.

Lemma peer_match_at p n1 n2 nm date body tail :
  Re.at_bol MULTILINE_DOTALL p = true ->
  nm <> [] -> NL ∉ nm -> date <> [] -> NL ∉ date ->
  nostart (NL :: L "# =") body tail -> block_end tail ->
  Re.match_here MULTILINE_DOTALL PEER_PATTERN false p (header n1 n2 nm date ++ body ++ tail)
  = Some (tail, [(3, body); (2, date); (1, nm)]).
Proof.
  intros Hp Hnm Hnm' Hd Hd' Hbody Htail.
  unfold Re.match_here. rewrite PEER_PATTERN_eq. unfold PEER_PATTERN_form, header.
  rewrite <- !app_assoc. cbn [Re.m EQS DOTS]. rewrite Hp.
  rewrite m_lit. cbn [Re.m EQS DOTS].
  apply rep_plus_greedy_max; [discriminate|apply eq_run_all|reflexivity|].
  rewrite m_lit. cbn [Re.m EQS DOTS].
  apply rep_lazy_to; [reflexivity|done|done| |].
  { intros x1 c x2 E _. apply m_lit_fail. cbn.
    by rewrite (eqb_NL_false c (not_in_split _ _ _ _ _ Hnm' E)). }
  rewrite m_lit. cbn [Re.m EQS DOTS].
  apply rep_lazy_to; [reflexivity|done|done| |].
  { intros x1 c x2 E _. apply m_lit_fail. cbn.
    by rewrite (eqb_NL_false c (not_in_split _ _ _ _ _ Hd' E)). }
  rewrite m_lit. cbn [Re.m EQS DOTS].
  apply rep_plus_greedy_max; [discriminate|apply eq_run_all|reflexivity|].
  rewrite m_lit. cbn [Re.m EQS DOTS].
  apply rep_lazy_to; [reflexivity|done|done| |].
  { intros x1 c x2 E _. rewrite look_fail; [reflexivity|discriminate|].
    apply (Hbody x1 (c :: x2) E). discriminate. }
  rewrite look_ok by done. cbn.
  by rewrite !consumed_app.
Qed.


(** [PEER_PATTERN] fails where the text does not start with a banner. *)
Lemma peer_fail b p t :
  Py.startswith t (L "# =") = false ->
  Re.match_here MULTILINE_DOTALL PEER_PATTERN b p t = None.
Proof.
  intros H. unfold Re.match_here. rewrite PEER_PATTERN_eq.
  unfold PEER_PATTERN_form. cbn [Re.m].
  destruct (Re.at_bol MULTILINE_DOTALL p); [|reflexivity].
  by apply (m_lit_plus_fail _ (L "# ") "=").
Qed.

(** *** The scan of [finditer] and [subn] *)

Lemma scan_fail_step fl r p c s off :
  Re.match_here fl r false p (c :: s) = None ->
  Re.scan fl r 0 p (c :: s) off = inl c :: Re.scan fl r 0 (Some c) s (S off).
Proof. intros H. cbn [Re.scan]. by rewrite H. Qed.

Lemma scan_fail_nil fl r p off :
  Re.match_here fl r false p [] = None -> Re.scan fl r 0 p [] off = [].
Proof. intros H. cbn [Re.scan]. by rewrite H. Qed.

Lemma scan_chars fl r x : forall p s off,
  (forall x1 x2, x = x1 ++ x2 -> x2 <> [] ->
                 Re.match_here fl r false (prev_after p x1) (x2 ++ s) = None) ->
  Re.scan fl r 0 p (x ++ s) off
  = map inl x ++ Re.scan fl r 0 (prev_after p x) s (off + length x).
Proof.
  induction x as [|c x IH]; intros p s off H.
  - cbn. by rewrite Nat.add_0_r.
  - cbn [app map length]. rewrite scan_fail_step.
    + rewrite IH, prev_after_cons.
      * by replace (S off + length x) with (off + S (length x)) by lia.
      * intros x1 x2 -> Hx2. rewrite <- (prev_after_cons p c x1).
        by apply (H (c :: x1) x2).
    + by apply (H [] (c :: x)).
Qed.

Lemma scan_skip fl r x : forall p s off,
  Re.scan fl r (length x) p (x ++ s) off
  = Re.scan fl r 0 (prev_after p x) s (off + length x).
Proof.
  induction x as [|c x IH]; intros p s off.
  - cbn [length app]. by rewrite Nat.add_0_r.
  - cbn [length app Re.scan]. rewrite IH, prev_after_cons.
    by replace (S off + length x) with (off + S (length x)) by lia.
Qed.

Lemma scan_match fl r p x s g off :
  x <> [] ->
  Re.match_here fl r false p (x ++ s) = Some (s, g) ->
  Re.scan fl r 0 p (x ++ s) off
  = inr (Re.Match off (off + length x) x g)
      :: Re.scan fl r 0 (prev_after p x) s (off + length x).
Proof.
  intros Hx H. destruct x as [|c x]; [done|].
  assert (E : length ((c :: x) ++ s) - length s = S (length x)).
  { rewrite length_app. cbn [length]. lia. }
  cbn [app Re.scan]. cbn [app] in H, E. rewrite H, E.
  unfold Re.mk_match. rewrite E.
  change (c :: x ++ s) with ((c :: x) ++ s) at 1. rewrite consumed_app.
  rewrite scan_skip, prev_after_cons. cbn [length].
  by replace (S off + length x) with (off + S (length x)) by lia.
Qed.

(** *** [search] *)

Lemma search_skip fl r x : forall p s off,
  (forall x1 x2, x = x1 ++ x2 -> x2 <> [] ->
                 Re.match_here fl r false (prev_after p x1) (x2 ++ s) = None) ->
  Re.search_from fl r p (x ++ s) off
  = Re.search_from fl r (prev_after p x) s (off + length x).
Proof.
  induction x as [|c x IH]; intros p s off H.
  - cbn. by rewrite Nat.add_0_r.
  - assert (H0 : Re.match_here fl r false p (c :: x ++ s) = None)
      by (by apply (H [] (c :: x))).
    cbn [app length Re.search_from]. rewrite H0, IH, prev_after_cons.
    + by replace (S off + length x) with (off + S (length x)) by lia.
    + intros x1 x2 -> Hx2. rewrite <- (prev_after_cons p c x1).
      by apply (H (c :: x1) x2).
Qed.

Lemma search_hit fl r p s s' g off :
  Re.match_here fl r false p s = Some (s', g) ->
  Re.search_from fl r p s off = Some (Re.mk_match off s s' g).
Proof. intros H. destruct s; cbn [Re.search_from]; by rewrite H. Qed.

Lemma search_miss fl r p off :
  Re.match_here fl r false p [] = None -> Re.search_from fl r p [] off = None.
Proof. intros H. cbn [Re.search_from]. by rewrite H. Qed.


(** *** Stripping *)

Lemma rstrip_snoc x d : Py.isspace d = false -> Py.rstrip (x ++ [d]) = x ++ [d].
Proof.
  intros H. induction x as [|c x IH]; cbn; [by rewrite H|].
  rewrite IH. by destruct x.
Qed.

Lemma strip_trimmed v : trimmed v = true -> Py.strip v = v.
Proof.
  unfold trimmed, Py.strip. intros H. apply andb_prop in H as [H1 H2].
  destruct (last v) as [d|] eqn:E; [|discriminate].
  apply last_Some in E as [x ->]. apply negb_true_iff in H2.
  rewrite rstrip_snoc by done.
  destruct (x ++ [d]) as [|c y]; [done|]. apply negb_true_iff in H1.
  cbn. by rewrite H1.
Qed.

Lemma trimmed_head v :
  trimmed v = true -> exists c v', v = c :: v' /\ Py.isspace c = false.
Proof.
  unfold trimmed. intros H. apply andb_prop in H as [H _].
  destruct v as [|c v']; [discriminate|]. exists c, v'.
  split; [done|]. by apply negb_true_iff.
Qed.

Lemma trimmed_app v w :
  trimmed v = true -> trimmed w = true -> trimmed (v ++ w) = true.
Proof.
  intros Hv Hw. destruct (trimmed_head v Hv) as (c & v' & -> & Hc).
  unfold trimmed in *. apply andb_prop in Hw as [Hw1 Hw2].
  apply andb_true_intro. split; [cbn; by rewrite Hc|].
  destruct (last w) as [d|] eqn:E; [|discriminate].
  apply last_Some in E as [x ->].
  by rewrite (app_assoc (c :: v') x [d]), last_snoc.
Qed.

Lemma single_line_spec v : single_line v = true <-> NL ∉ v.
Proof.
  unfold single_line. rewrite forallb_forall. split.
  - intros H Hin. apply list_elem_of_In, H in Hin. by rewrite Ascii.eqb_refl in Hin.
  - intros H c Hc. apply negb_true_iff, Ascii.eqb_neq. intros ->.
    by apply H, list_elem_of_In.
Qed.

Lemma single_line_all fl v :
  single_line v = true ->
  Forall (fun c => Re.cset_match fl Re.CDot c = true) v.
Proof.
  unfold single_line. rewrite forallb_forall, Forall_forall.
  intros H c Hc. apply list_elem_of_In, H in Hc. cbn.
  fold NL. rewrite Hc. apply orb_true_r.
Qed.

(** *** The patterns of the fields *)

Lemma kw_patterns :
  PUBKEY_PATTERN = kw_pattern (L "PublicKey") /\
  ALLOWED_IPS_PATTERN = kw_pattern (L "AllowedIPs") /\
  PRESHARED_KEY_PATTERN = kw_pattern (L "PresharedKey") /\
  ENDPOINT_PATTERN = kw_pattern (L "Endpoint").
Proof. repeat split. Qed.

Lemma kw_fail fl kw b p t :
  Py.startswith t kw = false -> Re.match_here fl (kw_pattern kw) b p t = None.
Proof. intros H. by apply m_lit_fail. Qed.

Lemma kw_match_at kw v s p :
  single_line v = true -> trimmed v = true -> line_end s ->
  Re.match_here Re.no_flags (kw_pattern kw) false p (kw ++ L " = " ++ v ++ s)
  = Some (s, [(1, v)]).
Proof.
  intros Hl Ht Hs. destruct (trimmed_head v Ht) as (c & v' & Ev & Hc).
  unfold Re.match_here, kw_pattern. rewrite m_lit. cbn [Re.m].
  change (L " = " ++ v ++ s) with ([" "%char] ++ (L "=" ++ [" "%char] ++ v ++ s)).
  apply (rep_star_greedy_max Re.no_flags Re.CSpace [" "%char]);
    [by repeat constructor|reflexivity|].
  rewrite m_lit. cbn [Re.m].
  apply (rep_star_greedy_max Re.no_flags Re.CSpace [" "%char]);
    [by repeat constructor|by rewrite Ev|].
  apply rep_plus_greedy_max; [by rewrite Ev|by apply single_line_all| |].
  - destruct Hs as [->|[s' ->]]; reflexivity.
  - cbn. by rewrite consumed_app.
Qed.

Lemma field_at kw pre v s :
  nostart kw pre (kw ++ L " = " ++ v ++ s) ->
  single_line v = true -> trimmed v = true -> line_end s ->
  field (kw_pattern kw) (pre ++ kw ++ L " = " ++ v ++ s) = Some v.
Proof.
  intros Hpre Hl Ht Hs. unfold field, Re.search.
  rewrite search_skip by (intros x1 x2 E Hx2; by apply kw_fail, (Hpre x1 x2)).
  erewrite search_hit by (by apply kw_match_at).
  cbn. by rewrite strip_trimmed.
Qed.

Lemma field_none kw body :
  kw <> [] -> nostart kw body [] -> field (kw_pattern kw) body = None.
Proof.
  intros Hkw Hbody. unfold field, Re.search.
  rewrite <- (app_nil_r body).
  rewrite search_skip by (intros x1 x2 E Hx2; by apply kw_fail, (Hbody x1 x2)).
  rewrite search_miss; [reflexivity|].
  apply kw_fail. by destruct kw.
Qed.


(** *** Texts in which a keyword does not start *)

Lemma nostart_nil kw s : nostart kw [] s.
Proof. intros x1 x2 E Hx2. by destruct x1, x2. Qed.

Lemma nostart_cons kw c x s :
  Py.startswith (c :: x ++ s) kw = false -> nostart kw x s -> nostart kw (c :: x) s.
Proof.
  intros Hc Hx x1 x2 E Hx2. destruct x1 as [|c' x1].
  - cbn in E. by subst x2.
  - injection E as -> ->. by apply (Hx x1 x2).
Qed.

Lemma nostart_app kw x y s :
  nostart kw x (y ++ s) -> nostart kw y s -> nostart kw (x ++ y) s.
Proof.
  revert y s. induction x as [|c x IH]; intros y s Hx Hy; [exact Hy|].
  cbn [app]. apply nostart_cons.
  - rewrite <- app_assoc. by apply (Hx [] (c :: x)).
  - apply IH; [|exact Hy]. intros x1 x2 -> Hx2. by apply (Hx (c :: x1) x2).
Qed.

Lemma contains_suffix x1 x2 kw :
  contains (x1 ++ x2) kw = false -> Py.startswith x2 kw = false.
Proof.
  induction x1 as [|c x1 IH]; cbn [app]; intros H.
  - destruct x2; cbn in H; by apply orb_false_elim in H as [H _].
  - cbn in H. apply orb_false_elim in H as [_ H]. by apply IH.
Qed.

Lemma startswith_app_cases kw : forall x d s,
  Py.startswith (x ++ d :: s) kw = true ->
  Py.startswith x kw = true \/ existsb (Ascii.eqb d) kw = true.
Proof.
  induction kw as [|k kw IH]; intros x d s H; [by left|].
  destruct x as [|c x]; cbn in H; apply andb_prop in H as [H1 H2].
  - right. cbn. by rewrite H1.
  - destruct (IH x d s H2) as [H|H].
    + left. cbn. by rewrite H1, H.
    + right. cbn. rewrite H. apply orb_true_r.
Qed.

Lemma nostart_field kw v d s :
  contains v kw = false -> existsb (Ascii.eqb d) kw = false ->
  nostart kw v (d :: s).
Proof.
  intros Hv Hd x1 x2 -> _.
  destruct (Py.startswith (x2 ++ d :: s) kw) eqn:E; [|reflexivity].
  apply startswith_app_cases in E as [E|E]; [|congruence].
  by rewrite (contains_suffix x1 x2 kw Hv) in E.
Qed.

Lemma nostart_field_end kw v : contains v kw = false -> nostart kw v [].
Proof.
  intros Hv x1 x2 -> _. rewrite app_nil_r. by apply (contains_suffix x1 x2).
Qed.

(** The goals [nostart kw x s] where [x] is made of literal texts and of
    fields known not to contain [kw]. *)
Ltac nostart_tac :=
  lazymatch goal with
  | |- nostart _ [] _ => apply nostart_nil
  | |- nostart _ (_ :: _) _ => apply nostart_cons; [reflexivity|nostart_tac]
  | |- nostart _ (_ ++ _) _ =>
      apply nostart_app;
      [first [apply nostart_field; [assumption|reflexivity]
             |apply nostart_field_end; assumption]
      |nostart_tac]
  | |- nostart _ _ _ =>
      first [apply nostart_field; [assumption|reflexivity]
            |apply nostart_field_end; assumption]
  end.

Ltac reshape new :=
  match goal with
  | |- field _ ?old = _ =>
      replace old with new by (rewrite <- ?app_assoc; reflexivity)
  end.

Lemma kw_free_spec v :
  kw_free v = true ->
  contains v (L "AllowedIPs") = false /\ contains v (L "PresharedKey") = false /\
  contains v (L "Endpoint") = false.
Proof.
  unfold kw_free. cbn [forallb KEYWORDS]. intros H.
  apply andb_prop in H as [H1 H]. apply andb_prop in H as [H2 H].
  apply andb_prop in H as [H3 _].
  by rewrite !negb_true_iff in *.
Qed.

Lemma fields_of_body pk ip psk ep sfx :
  value_ok pk = true -> value_ok ip = true ->
  opt_ok psk = true -> opt_ok ep = true ->
  sfx = [] \/ sfx = [NL] ->
  let body := body_text pk ip psk ep ++ sfx in
  field PUBKEY_PATTERN body = Some pk /\
  field ALLOWED_IPS_PATTERN body = Some (ip ++ L "/32") /\
  field PRESHARED_KEY_PATTERN body = psk /\
  field ENDPOINT_PATTERN body = ep.
Proof.
  intros Hpk Hip Hpsk Hep Hsfx body.
  destruct kw_patterns as (-> & -> & -> & ->).
  apply andb_prop in Hpk as [Hpk Hpk']. apply andb_prop in Hip as [Hip Hip'].
  apply andb_prop in Hpk as [Hpk Hpk'']. apply andb_prop in Hpk as [Lpk Tpk].
  apply andb_prop in Hip as [Hip Hip'']. apply andb_prop in Hip as [Lip Tip].
  apply kw_free_spec in Hpk' as (Apk & Ppk & Epk).
  apply kw_free_spec in Hip' as (Aip & Pip & Eip).
  assert (Hpsk' : match psk with
                  | Some v => single_line v = true /\ trimmed v = true /\
                              contains v (L "Endpoint") = false
                  | None => True end).
  { destruct psk as [v|]; [|done]. cbn in Hpsk.
    apply andb_prop in Hpsk as [H H']. apply andb_prop in H as [H _].
    apply andb_prop in H as [? ?]. by apply kw_free_spec in H' as (_ & _ & ?). }
  assert (Hep' : match ep with
                 | Some v => single_line v = true /\ trimmed v = true /\
                             contains v (L "PresharedKey") = false
                 | None => True end).
  { destruct ep as [v|]; [|done]. cbn in Hep.
    apply andb_prop in Hep as [H H']. apply andb_prop in H as [H _].
    apply andb_prop in H as [? ?]. by apply kw_free_spec in H' as (_ & ? & _). }
  assert (Tip32 : trimmed (ip ++ L "/32") = true) by (by apply trimmed_app).
  assert (Lip32 : single_line (ip ++ L "/32") = true).
  { unfold single_line in *. rewrite forallb_app, Lip. reflexivity. }
  assert (Hend : line_end sfx) by (destruct Hsfx as [->| ->]; [by left|right; by eexists]).
  subst body. unfold body_text. rewrite <- !app_assoc.
  split; [|split; [|split]].
  - apply (field_at (L "PublicKey") [] pk
             ((NL :: L "AllowedIPs = ") ++ ip ++ L "/32"
              ++ opt_line (L "PresharedKey = ") psk
              ++ opt_line (L "Endpoint = ") ep ++ sfx));
      [apply nostart_nil|done|done|].
    right. by eexists.
  - reshape ((L "PublicKey = " ++ pk ++ [NL]) ++ L "AllowedIPs" ++ L " = "
            ++ ip ++ L "/32" ++ opt_line (L "PresharedKey = ") psk
            ++ opt_line (L "Endpoint = ") ep ++ sfx).
    rewrite (app_assoc ip (L "/32")).
    apply field_at; [|done|done|].
    + cbn [L list_ascii_of_string app]. nostart_tac.
    + destruct psk, ep; cbn [opt_line app]; try (right; by eexists); exact Hend.
  - destruct psk as [v|].
    + destruct Hpsk' as (Lv & Tv & Ev).
      reshape ((L "PublicKey = " ++ pk ++ (NL :: L "AllowedIPs = ") ++ ip ++ L "/32" ++ [NL])
              ++ L "PresharedKey" ++ L " = " ++ v ++ opt_line (L "Endpoint = ") ep ++ sfx).
      apply field_at; [|done|done|].
      * cbn [L list_ascii_of_string app]. nostart_tac.
      * destruct ep; cbn [opt_line app]; try (right; by eexists); exact Hend.
    + apply field_none; [discriminate|].
      destruct ep as [v|]; [destruct Hep' as (Lv & Tv & Pv)|];
        destruct Hsfx as [-> | ->];
        cbn [L list_ascii_of_string app opt_line]; nostart_tac.
  - destruct ep as [v|].
    + destruct Hep' as (Lv & Tv & Pv).
      destruct psk as [w|].
      * destruct Hpsk' as (Lw & Tw & Ew).
        reshape ((L "PublicKey = " ++ pk ++ (NL :: L "AllowedIPs = ") ++ ip ++ L "/32"
                 ++ (NL :: L "PresharedKey = ") ++ w ++ [NL])
                ++ L "Endpoint" ++ L " = " ++ v ++ sfx).
        apply field_at; [|done|done|done].
        cbn [L list_ascii_of_string app]. nostart_tac.
      * reshape ((L "PublicKey = " ++ pk ++ (NL :: L "AllowedIPs = ") ++ ip ++ L "/32" ++ [NL])
                ++ L "Endpoint" ++ L " = " ++ v ++ sfx).
        apply field_at; [|done|done|done].
        cbn [L list_ascii_of_string app]. nostart_tac.
    + apply field_none; [discriminate|].
      destruct psk as [w|]; [destruct Hpsk' as (Lw & Tw & Ew)|];
        destruct Hsfx as [-> | ->];
        cbn [L list_ascii_of_string app opt_line]; nostart_tac.
Qed.


(** *** Decoding a document *)

Lemma truthy_ok o : opt_ok o = true -> truthy o = o.
Proof.
  destruct o as [[|c v]|]; [|done|done]. intros H. vm_compute in H. discriminate.
Qed.

Ltac norm_app :=
  repeat (progress (rewrite <- ?app_assoc, ?app_nil_r; cbn [app])).

Lemma encode_eq r :
  encode r = NL :: header 41 41 (s_name r) (s_added_at r)
             ++ body_text (s_public_key r) (s_ip r)
                  (truthy (s_preshared_key r)) (truthy (s_endpoint r)).
Proof.
  unfold encode, generate_peer_block, block_lines, header, body_text.
  destruct (truthy (s_preshared_key r)), (truthy (s_endpoint r));
    cbn [app Py.join opt_line]; norm_app; reflexivity.
Qed.

Lemma matches_of_app a b : matches_of (a ++ b) = matches_of a ++ matches_of b.
Proof. apply omap_app. Qed.

Lemma matches_of_inl c l : matches_of (inl c :: l) = matches_of l.
Proof. reflexivity. Qed.

Lemma matches_of_inr mt l : matches_of (inr mt :: l) = mt :: matches_of l.
Proof. reflexivity. Qed.

Lemma omap_cons_Some {A B} (f : A -> option B) x l y :
  f x = Some y -> omap f (x :: l) = y :: omap f l.
Proof. intros H. cbn. by rewrite H. Qed.

Lemma omap_cons_None {A B} (f : A -> option B) x l :
  f x = None -> omap f (x :: l) = omap f l.
Proof. intros H. cbn. by rewrite H. Qed.

Lemma matches_of_chars (x : str) : matches_of (map inl x) = [].
Proof. by induction x. Qed.

Lemma nostart_head kw k v s :
  Forall (fun c => c <> k) v -> nostart (k :: kw) v s.
Proof.
  intros Hv x1 x2 -> Hx2. destruct x2 as [|c x2]; [done|].
  apply Forall_app in Hv as [_ Hv]. apply Forall_cons in Hv as [Hc _].
  cbn. apply Ascii.eqb_neq in Hc. by rewrite Hc.
Qed.

Lemma single_line_Forall v : single_line v = true -> Forall (fun c => c <> NL) v.
Proof.
  unfold single_line. rewrite forallb_forall, Forall_forall.
  intros H c Hc. apply list_elem_of_In, H, negb_true_iff in Hc.
  by apply Ascii.eqb_neq.
Qed.

Lemma clean_spec v :
  clean v = true ->
  single_line v = true /\ trimmed v = true /\ contains v (L "# =") = false.
Proof.
  unfold clean. intros H. apply andb_prop in H as [H H3].
  apply andb_prop in H as [H1 H2]. by apply negb_true_iff in H3.
Qed.

Lemma canonical_spec r :
  canonical r = true ->
  clean (s_name r) = true /\ clean (s_added_at r) = true /\
  value_ok (s_public_key r) = true /\ value_ok (s_ip r) = true /\
  opt_ok (s_preshared_key r) = true /\ opt_ok (s_endpoint r) = true.
Proof.
  unfold canonical. intros H.
  do 6 (apply andb_prop in H as [H ?]). by repeat split.
Qed.

Lemma opt_ok_spec o :
  opt_ok o = true ->
  match o with
  | Some v => single_line v = true /\ trimmed v = true /\
              contains v (L "# =") = false
  | None => True
  end.
Proof.
  destruct o as [v|]; [|done]. cbn. intros H.
  apply andb_prop in H as [H _]. by apply clean_spec.
Qed.

Lemma value_ok_clean v : value_ok v = true -> clean v = true.
Proof. intros H. by apply andb_prop in H as [H _]. Qed.

(** The body of a canonical block has no line that starts with [#]. *)
Lemma body_nostart pk ip psk ep sfx tail :
  value_ok pk = true -> value_ok ip = true ->
  opt_ok psk = true -> opt_ok ep = true ->
  (sfx = [] /\ tail = []) \/ (sfx = [NL] /\ block_end tail) ->
  nostart (NL :: L "# =") (body_text pk ip psk ep ++ sfx) tail.
Proof.
  intros Hpk Hip Hpsk Hep Hsfx.
  assert (Htail : block_end tail) by (destruct Hsfx as [[_ ->]|[_ ?]]; [by left|done]).
  apply value_ok_clean, clean_spec in Hpk as (Lpk%single_line_Forall & _ & _).
  apply value_ok_clean, clean_spec in Hip as (Lip%single_line_Forall & _ & _).
  apply opt_ok_spec in Hpsk. apply opt_ok_spec in Hep.
  unfold body_text. rewrite <- !app_assoc.
  assert (Hlast : Py.startswith (NL :: tail) (NL :: L "# =") = false).
  { destruct Htail as [->|(n & t & -> & _)]; reflexivity. }
  assert (Hf : forall v s, Forall (fun c => c <> NL) v ->
                           nostart (NL :: L "# =") v s)
    by (intros; by apply nostart_head).
  destruct psk as [v|]; [destruct Hpsk as (Lv%single_line_Forall & _ & _)|];
    (destruct ep as [w|]; [destruct Hep as (Lw%single_line_Forall & _ & _)|]);
    destruct Hsfx as [[-> ->]|[-> _]];
    cbn [L list_ascii_of_string app opt_line];
    repeat first
      [ apply nostart_nil
      | apply nostart_cons; [first [reflexivity|exact Hlast]|]
      | apply nostart_app; [by apply Hf|] ].
Qed.

Lemma blocks_end rs : block_end (blocks rs).
Proof.
  destruct rs as [|r rs]; [by left|]. right.
  exists 41. eexists. cbn [blocks flat_map]. rewrite encode_eq. unfold header.
  cbn [app]. rewrite <- !app_assoc. split; [reflexivity|]. reflexivity.
Qed.

Lemma peer_of_block off text r sfx :
  canonical r = true -> sfx = [] \/ sfx = [NL] ->
  peer_of_match
    (Re.Match off (off + length text) text
       [(3, body_text (s_public_key r) (s_ip r) (s_preshared_key r)
              (s_endpoint r) ++ sfx);
        (2, s_added_at r); (1, s_name r)]) = Some (decoded r).
Proof.
  intros (Hn & Hd & Hpk & Hip & Hpsk & Hep)%canonical_spec Hsfx.
  unfold peer_of_match, group_str, Re.group. cbn.
  destruct (fields_of_body _ _ _ _ sfx Hpk Hip Hpsk Hep Hsfx) as (-> & -> & -> & ->).
  apply clean_spec in Hn as (_ & Hn & _). apply clean_spec in Hd as (_ & Hd & _).
  by rewrite !strip_trimmed.
Qed.

Lemma scan_blocks rs : forall p off,
  Forall (fun r => canonical r = true) rs ->
  omap peer_of_match
    (matches_of (Re.scan MULTILINE_DOTALL PEER_PATTERN 0 p (blocks rs) off))
  = map decoded rs.
Proof.
  induction rs as [|r rs IH]; intros p off Hrs.
  - cbn [blocks flat_map]. rewrite scan_fail_nil; [reflexivity|by apply peer_fail].
  - apply Forall_cons in Hrs as [Hr Hrs].
    pose proof (canonical_spec r Hr) as (Hn & Hd & Hpk & Hip & Hpsk & Hep).
    cbn [blocks flat_map]. fold (blocks rs). rewrite encode_eq.
    rewrite !truthy_ok by done. cbn [app].
    rewrite scan_fail_step by (by apply peer_fail).
    set (body := body_text (s_public_key r) (s_ip r) (s_preshared_key r) (s_endpoint r)).
    match goal with
    | |- context [Re.scan _ _ 0 (Some NL) ?t (S off)] =>
        replace t
          with ((header 41 41 (s_name r) (s_added_at r) ++ body ++ [NL]) ++ blocks rs)
          by (rewrite <- !app_assoc; reflexivity)
    end.
    apply clean_spec in Hn as (Ln & Tn & _). apply clean_spec in Hd as (Ld & Td & _).
    rewrite (scan_match _ _ _ (header 41 41 (s_name r) (s_added_at r) ++ body ++ [NL])
               (blocks rs) [(3, body ++ [NL]); (2, s_added_at r); (1, s_name r)]).
    + subst body. rewrite matches_of_inl, matches_of_inr.
      rewrite (omap_cons_Some _ _ _ (decoded r)) by (apply peer_of_block; auto).
      cbn [map]. f_equal. by apply IH.
    + unfold header. discriminate.
    + rewrite <- app_assoc. apply peer_match_at; try done.
      * by destruct (trimmed_head _ Tn) as (? & ? & -> & _).
      * by apply single_line_spec.
      * by destruct (trimmed_head _ Td) as (? & ? & -> & _).
      * by apply single_line_spec.
      * apply body_nostart; try done. right. split; [done|apply blocks_end].
      * apply blocks_end.
Qed.

(** Decoding a document gives back its peers, in order. *)
Lemma parse_content_doc P rs :
  contains P (L "# =") = false ->
  Forall (fun r => canonical r = true) rs ->
  parse_content (doc P rs) = map decoded rs.
Proof.
  intros HP Hrs. unfold parse_content, Re.finditer, doc.
  rewrite app_assoc, scan_chars.
  - fold (matches_of (map inl (P ++ [NL]) ++
            Re.scan MULTILINE_DOTALL PEER_PATTERN 0 (prev_after None (P ++ [NL]))
              (blocks rs) (0 + length (P ++ [NL])))).
    rewrite matches_of_app, matches_of_chars. cbn [app]. by apply scan_blocks.
  - intros x1 x2 E Hx2. apply peer_fail.
    revert x1 x2 E Hx2. change (nostart (L "# =") (P ++ [NL]) (blocks rs)).
    apply nostart_app; [by apply nostart_field|].
    apply nostart_cons; [|apply nostart_nil].
    destruct rs; [reflexivity|]. cbn [blocks flat_map]. by rewrite encode_eq.
Qed.



(** *** Encoding decoded records again *)

Lemma canonical_no_slash r : canonical r = true -> contains (s_ip r) (L "/") = false.
Proof.
  unfold canonical. intros H. apply andb_prop in H as [_ H].
  by apply negb_true_iff.
Qed.

Lemma split_head_app d x y :
  contains x [d] = false -> Py.split_head d (x ++ d :: y) = x.
Proof.
  induction x as [|c x IH]; intros H; cbn.
  - by rewrite Ascii.eqb_refl.
  - cbn in H. apply orb_false_elim in H as [H1 H2].
    rewrite andb_true_r in H1. rewrite H1. f_equal. by apply IH.
Qed.

Lemma spec_of_decoded r : canonical r = true -> spec_of (decoded r) = r.
Proof.
  intros H%canonical_no_slash. destruct r as [nm pk ip date ep psk].
  unfold spec_of, decoded. cbn in *. f_equal.
  by apply (split_head_app "/" ip (L "32")).
Qed.

Lemma reencode_decoded rs :
  Forall (fun r => canonical r = true) rs ->
  reencode (map decoded rs) = blocks rs.
Proof.
  intros H. unfold reencode. f_equal. rewrite map_map.
  induction H as [|r rs Hr _ IH]; [reflexivity|].
  cbn [map]. by rewrite spec_of_decoded, IH.
Qed.

(** *** Adding a peer *)

Lemma add_peer_inv config_path content nm pk ip date ep psk st st' :
  file st = Some content ->
  add_peer config_path nm pk ip date ep psk st = (Ok tt, st') ->
  let new_content :=
    Py.rstrip content ++ [NL] ++ generate_peer_block nm pk ip date ep psk ++ [NL] in
  st' = FS (Some new_content) (new_content :: written st) /\
  ~ name_taken content nm /\
  exists a, Ip.parse (Py.split_head "/" ip) = Some a /\
            a ∉ add_used {[SERVER_IP]} (parse_content content).
Proof.
  intros Hf. unfold add_peer, bind at 1. rewrite (read_config_text _ _ _ Hf).
  unfold bind at 1.
  destruct (check_name_conflict_spec config_path nm content st) as (b & Hb & Hn).
  rewrite Hb. destruct b; [discriminate|].
  unfold bind at 1, check_ip_conflict, Ip.IPv4Address.
  destruct (Ip.parse (Py.split_head "/" ip)) as [a|]; [|discriminate].
  unfold bind, ret.
  change (get_used_ips config_path (Some content) st)
    with (Ok (add_used {[SERVER_IP]} (parse_content content)), st).
  cbv beta iota. case_bool_decide as Ha; [discriminate|].
  unfold write_config. intros [= <-]. cbv zeta.
  split; [reflexivity|]. split; [|by exists a].
  intros H. apply Hn in H. discriminate.
Qed.

Lemma add_peer_ok config_path content nm pk ip date ep psk st a :
  file st = Some content ->
  ~ name_taken content nm ->
  Ip.parse (Py.split_head "/" ip) = Some a ->
  a ∉ add_used {[SERVER_IP]} (parse_content content) ->
  let new_content :=
    Py.rstrip content ++ [NL] ++ generate_peer_block nm pk ip date ep psk ++ [NL] in
  add_peer config_path nm pk ip date ep psk st
  = (Ok tt, FS (Some new_content) (new_content :: written st)).
Proof.
  intros Hf Hn Hip Ha. unfold add_peer, bind at 1. rewrite (read_config_text _ _ _ Hf).
  unfold bind at 1.
  destruct (check_name_conflict_spec config_path nm content st) as (b & Hb & Hn').
  rewrite Hb. destruct b; [exfalso; by apply Hn, Hn'|].
  unfold bind at 1, check_ip_conflict, Ip.IPv4Address. rewrite Hip.
  unfold bind, ret.
  change (get_used_ips config_path (Some content) st)
    with (Ok (add_used {[SERVER_IP]} (parse_content content)), st).
  cbv beta iota. case_bool_decide; [done|]. reflexivity.
Qed.

Lemma rstrip_snoc_space x c : Py.isspace c = true -> Py.rstrip (x ++ [c]) = Py.rstrip x.
Proof.
  intros H. induction x as [|d x IH]; cbn; [by rewrite H|]. by rewrite IH.
Qed.

Lemma trimmed_last v :
  trimmed v = true -> exists x d, v = x ++ [d] /\ Py.isspace d = false.
Proof.
  unfold trimmed. intros H. apply andb_prop in H as [_ H].
  destruct (last v) as [d|] eqn:E; [|discriminate].
  apply last_Some in E as [x ->]. exists x, d.
  split; [done|]. by apply negb_true_iff.
Qed.

Lemma last_app_Some {A} (x y : list A) d : last y = Some d -> last (x ++ y) = Some d.
Proof. intros H. by rewrite last_app, H. Qed.

Lemma encode_last r :
  canonical r = true -> exists x d, encode r = x ++ [d] /\ Py.isspace d = false.
Proof.
  intros Hr. pose proof (canonical_spec r Hr) as (_ & _ & _ & _ & Hpsk & Hep).
  assert (H : exists d, last (encode r) = Some d /\ Py.isspace d = false).
  { rewrite encode_eq, !truthy_ok by done. unfold body_text.
    apply opt_ok_spec in Hpsk. apply opt_ok_spec in Hep.
    destruct (s_endpoint r) as [v|].
    - destruct Hep as (_ & (x & d & -> & Hd)%trimmed_last & _).
      exists d. split; [|done]. cbn [opt_line].
      rewrite !app_comm_cons, !app_assoc. apply last_snoc.
    - destruct (s_preshared_key r) as [v|].
      + destruct Hpsk as (_ & (x & d & -> & Hd)%trimmed_last & _).
        exists d. split; [|done]. cbn [opt_line]. rewrite !app_nil_r.
        rewrite !app_comm_cons, !app_assoc. apply last_snoc.
      + exists "2"%char. split; [|reflexivity]. cbn [opt_line]. rewrite !app_nil_r.
        rewrite !app_comm_cons, !app_assoc. by apply last_app_Some. }
  destruct H as (d & (x & E)%last_Some & Hd). by exists x, d.
Qed.

Lemma blocks_snoc rs r : blocks (rs ++ [r]) = blocks rs ++ encode r ++ [NL].
Proof. unfold blocks. rewrite flat_map_app. cbn. by rewrite app_nil_r. Qed.

(** Stripping a document on the right takes off its last line feed only. *)
Lemma rstrip_doc P rs :
  Py.rstrip P = P -> Forall (fun r => canonical r = true) rs ->
  Py.rstrip (doc P rs) ++ [NL] = doc P rs.
Proof.
  intros HP Hrs. unfold doc.
  induction rs as [|r rs' _] using rev_ind.
  - cbn [blocks flat_map]. rewrite app_nil_r, rstrip_snoc_space by reflexivity.
    by rewrite HP.
  - apply Forall_app in Hrs as [_ Hr]. apply Forall_cons in Hr as [Hr _].
    destruct (encode_last r Hr) as (x & d & E & Hd).
    rewrite blocks_snoc, E.
    replace (P ++ [NL] ++ blocks rs' ++ (x ++ [d]) ++ [NL])
      with (((P ++ [NL] ++ blocks rs' ++ x) ++ [d]) ++ [NL])
      by (rewrite <- !app_assoc; reflexivity).
    by rewrite rstrip_snoc_space, rstrip_snoc.
Qed.

Lemma doc_snoc P rs r : doc P (rs ++ [r]) = doc P rs ++ encode r ++ [NL].
Proof. unfold doc. rewrite blocks_snoc, <- !app_assoc. reflexivity. Qed.

(** A successful add on a document writes the document with one more
    block. *)
Lemma add_spec_doc config_path P rs r st st' :
  file st = Some (doc P rs) ->
  Py.rstrip P = P -> Forall (fun r => canonical r = true) rs ->
  add_spec config_path r st = (Ok tt, st') ->
  st' = FS (Some (doc P (rs ++ [r]))) (doc P (rs ++ [r]) :: written st).
Proof.
  intros Hf HP Hrs Hadd.
  destruct (add_peer_inv _ _ _ _ _ _ _ _ _ _ Hf Hadd) as (-> & _).
  fold (encode r).
  replace (Py.rstrip (doc P rs) ++ [NL] ++ encode r ++ [NL])
    with ((Py.rstrip (doc P rs) ++ [NL]) ++ encode r ++ [NL])
    by (rewrite <- !app_assoc; reflexivity).
  by rewrite rstrip_doc, <- doc_snoc.
Qed.

(** *** [re.escape] and [re.compile] on the pattern of [remove_peer] *)

Arguments Re.escape : simpl never.

(** What the lexer does with each character, escaped or not. *)
Lemma lex_char_table c :
  (Re.is_special c = true -> Re.lex_escape c = Some (Re.TSet (Re.CChar c))) /\
  (Re.is_special c = false ->
   Ascii.eqb c "\" = false /\ Ascii.eqb c "(" = false /\
   Re.lex_plain c = Some (Re.TSet (Re.CChar c))).
Proof.
  destruct c as [[] [] [] [] [] [] [] []]; vm_compute; split;
    first [discriminate | intros _; repeat split].
Qed.

(** An escaped name is lexed as the characters of the name. *)
Lemma lex_escape_app nm : forall rest ts,
  Re.lex rest = Some ts ->
  Re.lex (Re.escape nm ++ rest) = Some (map (fun c => Re.TSet (Re.CChar c)) nm ++ ts).
Proof.
  induction nm as [|c nm IH]; intros rest ts H; [exact H|].
  unfold Re.escape. cbn [flat_map]. fold (Re.escape nm).
  destruct (lex_char_table c) as [Hs Hp].
  destruct (Re.is_special c) eqn:E.
  - cbn [app Re.lex]. rewrite Ascii.eqb_refl, (Hs eq_refl), (IH rest ts H). reflexivity.
  - destruct (Hp eq_refl) as (H1 & H2 & H3).
    cbn [app Re.lex]. rewrite H1, H2, H3, (IH rest ts H). reflexivity.
Qed.

Lemma prun_app ts1 : forall st ts2,
  Re.prun st (ts1 ++ ts2) = st' ← Re.prun st ts1; Re.prun st' ts2.
Proof.
  induction ts1 as [|t ts1 IH]; intros st ts2; [reflexivity|].
  cbn [app Re.prun]. destruct (Re.pstep st t); [apply IH|reflexivity].
Qed.

Lemma prun_chars nm : forall stack kind alts cur next,
  Re.prun (Re.PState stack (Re.Frame kind alts cur) next)
    (map (fun c => Re.TSet (Re.CChar c)) nm)
  = Some (Re.PState stack (Re.Frame kind alts (rev (map chr nm) ++ cur)) next).
Proof.
  induction nm as [|c nm IH]; intros stack kind alts cur next; [reflexivity|].
  change (Re.prun (Re.PState stack (Re.Frame kind alts cur) next)
            (map (fun c => Re.TSet (Re.CChar c)) (c :: nm)))
    with (Re.prun (Re.PState stack (Re.Frame kind alts (chr c :: cur)) next)
            (map (fun c => Re.TSet (Re.CChar c)) nm)).
  rewrite IH. cbn [map rev]. by rewrite <- app_assoc.
Qed.

(** [re.compile] succeeds on the pattern of every name, and reads the
    escaped name as the literal name. *)
Lemma close_frame_single kind cur :
  Re.close_frame (Re.Frame kind [] cur) = Re.seq_of (rev cur).
Proof. reflexivity. Qed.

Lemma lex_remove_pattern nm :
  Re.lex (remove_pattern_text nm)
  = Some (rm_head_tokens ++ map (fun c => Re.TSet (Re.CChar c)) nm ++ rm_tail_tokens).
Proof.
  unfold remove_pattern_text. cbn.
  rewrite (lex_escape_app nm _ rm_tail_tokens) by (vm_compute; reflexivity).
  reflexivity.
Qed.

Lemma compile_remove_pattern nm :
  Re.compile (remove_pattern_text nm) = Some (remove_pattern nm).
Proof.
  unfold Re.compile. rewrite lex_remove_pattern. cbn [mbind option_bind].
  unfold Re.parse. rewrite prun_app.
  assert (H1 : Re.prun Re.pinit rm_head_tokens
               = Some (Re.PState [] (Re.Frame Re.FTop [] (rev rm_head)) 1))
    by (vm_compute; reflexivity).
  rewrite H1. cbn [mbind option_bind]. rewrite prun_app, prun_chars.
  cbn [mbind option_bind].
  assert (H2 : forall cur,
             Re.prun (Re.PState [] (Re.Frame Re.FTop [] cur) 1) rm_tail_tokens
             = Some (Re.PState [] (Re.Frame Re.FTop [] (rev rm_tail ++ cur)) 1))
    by (intros cur; vm_compute; reflexivity).
  rewrite H2. cbv [mbind option_bind Re.p_stack Re.p_top].
  rewrite close_frame_single.
  unfold remove_pattern. f_equal. f_equal.
  by rewrite !rev_app_distr, !rev_involutive, <- !app_assoc.
Qed.

Lemma lit_chars x r : foldr Re.RSeq r (map chr x) = lit x r.
Proof. induction x as [|c x IH]; [reflexivity|]. cbn. by rewrite IH. Qed.

Lemma lit_app x y r : lit (x ++ y) r = lit x (lit y r).
Proof. unfold lit. by rewrite foldr_app. Qed.

Lemma remove_pattern_eq nm : remove_pattern nm = remove_pattern_form nm.
Proof.
  unfold remove_pattern, Re.seq_of. rewrite !foldr_app, lit_chars.
  unfold remove_pattern_form.
  change (NL :: L "# ClientName: " ++ nm ++ NL :: L "# AddedAt: ")
    with ((NL :: L "# ClientName: ") ++ nm ++ NL :: L "# AddedAt: ").
  rewrite !lit_app. reflexivity.
Qed.

(** *** The pattern of [remove_peer] at a position *)

Lemma rep_opt_greedy_fail {A} fl cs p s g (k : Re.cont (A := A)) :
  k p s g = None ->
  (forall c s', s = c :: s' -> Re.cset_match fl cs c = true ->
                k (Some c) s' g = None) ->
  Re.rep fl cs Re.QOpt true p s g k = None.
Proof.
  intros H1 H2. destruct s as [|c s]; [exact H1|].
  unfold Re.rep. destruct (Re.cset_match fl cs c) eqn:E; [|exact H1].
  by rewrite (H2 c s eq_refl E), H1.
Qed.

Lemma rep_star_greedy_none {A} fl cs x : forall p s g (k : Re.cont (A := A)),
  Forall (fun c => Re.cset_match fl cs c = true) x ->
  stops fl cs s ->
  (forall x1 x2, x = x1 ++ x2 -> k (prev_after p x1) (x2 ++ s) g = None) ->
  Re.rep_star fl cs true p (x ++ s) g k = None.
Proof.
  induction x as [|c x IH]; intros p s g k Hx Hs Hk.
  - pose proof (Hk [] [] eq_refl) as H0. cbn in H0.
    destruct s as [|c s]; cbn in *; [exact H0|]. by rewrite Hs.
  - apply Forall_cons in Hx as [Hc Hx]. cbn. rewrite Hc.
    rewrite IH; [exact (Hk [] (c :: x) eq_refl)|exact Hx|exact Hs|].
    intros x1 x2 ->. rewrite <- (prev_after_cons p c x1).
    exact (Hk (c :: x1) x2 eq_refl).
Qed.

Lemma rep_plus_cons {A} fl cs gr p c s g (k : Re.cont (A := A)) :
  Re.rep fl cs Re.QPlus gr p (c :: s) g k
  = if Re.cset_match fl cs c then Re.rep_star fl cs gr (Some c) s g k else None.
Proof. reflexivity. Qed.

Lemma rep_opt_cons {A} fl cs p c s g (k : Re.cont (A := A)) :
  Re.rep fl cs Re.QOpt true p (c :: s) g k
  = if Re.cset_match fl cs c then Re.orelse (k (Some c) s g) (k p (c :: s) g)
    else k p (c :: s) g.
Proof. reflexivity. Qed.

Lemma eq_run_cons n : eq_run (S n) = "="%char :: eq_run n.
Proof. reflexivity. Qed.

Lemma eq_run_split n x1 x2 :
  eq_run n = x1 ++ x2 -> x2 = eq_run (length x2).
Proof.
  revert n. induction x1 as [|c x1 IH]; intros n E.
  - cbn in E. subst x2. unfold eq_run. by rewrite length_replicate.
  - destruct n as [|n]; [discriminate|]. injection E as _ E. by apply (IH n).
Qed.

(** After a banner the pattern asks for the line of the name. *)
Lemma rm_fail_banner nm b p n s pre :
  pre = [] \/ pre = [NL] ->
  stops MULTILINE_DOTALL (Re.CChar "=") s ->
  Py.startswith s (NL :: L "# ClientName: " ++ nm ++ NL :: L "# AddedAt: ") = false ->
  Re.match_here MULTILINE_DOTALL (remove_pattern nm) b p
    (pre ++ L "# " ++ eq_run (S n) ++ s) = None.
Proof.
  intros Hpre Hs Hname. unfold Re.match_here. rewrite remove_pattern_eq.
  unfold remove_pattern_form. cbn [Re.m].
  assert (Hbanner : forall p' g,
            Re.m MULTILINE_DOTALL
              (lit (L "# ") (Re.RSeq EQS
                 (lit (NL :: L "# ClientName: " ++ nm ++ NL :: L "# AddedAt: ")
                    (Re.RSeq (Re.RRep Re.CDot Re.QPlus false)
                       (lit (NL :: L "# ") (Re.RSeq EQS
                          (lit (NL :: L "[Peer]" ++ [NL])
                             (Re.RSeq (Re.RRep Re.CDot Re.QStar false)
                                (Re.RSeq (Re.RLook LOOK_BODY) Re.REps)))))))))
              p' (L "# " ++ eq_run (S n) ++ s) g
              (fun _ s' g' =>
                 if b && (length s' =? length (pre ++ L "# " ++ eq_run (S n) ++ s))
                 then None else Some (s', g')) = None).
  { intros p' g. rewrite m_lit. cbn [Re.m EQS].
    rewrite eq_run_cons. cbn [app]. rewrite rep_plus_cons.
    change (Re.cset_match MULTILINE_DOTALL (Re.CChar "=") "=") with true. cbv iota.
    apply rep_star_greedy_none; [apply eq_run_all|exact Hs|].
    intros x1 x2 E. destruct x2 as [|c x2].
    - cbn [app]. by apply m_lit_fail.
    - apply m_lit_fail. apply eq_run_split in E. cbn in E. by injection E as -> _. }
  destruct Hpre as [-> | ->].
  - cbn [app]. apply rep_opt_greedy_fail; [apply Hbanner|].
    intros c s' E _. apply m_lit_fail. cbn in E. by injection E as <- <-.
  - cbn [app]. rewrite rep_opt_cons.
    change (Re.cset_match MULTILINE_DOTALL (Re.CChar NL) NL) with true. cbv iota.
    rewrite Hbanner. cbn [Re.orelse]. by apply m_lit_fail.
Qed.

(** The pattern fails where the text starts neither with a banner nor
    with a line feed and a banner. *)
Lemma rm_fail nm b p t :
  Py.startswith t (L "# =") = false ->
  Py.startswith t (NL :: L "# =") = false ->
  Re.match_here MULTILINE_DOTALL (remove_pattern nm) b p t = None.
Proof.
  intros H1 H2. unfold Re.match_here. rewrite remove_pattern_eq.
  unfold remove_pattern_form. cbn [Re.m].
  apply rep_opt_greedy_fail.
  - by apply (m_lit_plus_fail _ (L "# ") "=").
  - intros c s' -> Hc. apply (m_lit_plus_fail _ (L "# ") "=").
    cbn in Hc. cbn in H2. by rewrite Hc in H2.
Qed.

(** *** The pattern of [remove_peer] on the blocks of a document *)

Lemma rm_match_at nm p n1 n2 date body tail :
  date <> [] -> NL ∉ date ->
  nostart (NL :: L "# =") body tail -> block_end tail ->
  Re.match_here MULTILINE_DOTALL (remove_pattern nm) false p
    (NL :: header n1 n2 nm date ++ body ++ tail) = Some (tail, []).
Proof.
  intros Hd Hd' Hbody Htail.
  unfold Re.match_here. rewrite remove_pattern_eq. unfold remove_pattern_form.
  cbn [Re.m]. rewrite rep_opt_cons.
  change (Re.cset_match MULTILINE_DOTALL (Re.CChar NL) NL) with true. cbv iota.
  match goal with
  | |- Re.orelse ?a _ = Some ?v => assert (E : a = Some v); [|by rewrite E]
  end.
  unfold header. rewrite <- !app_assoc.
  rewrite m_lit. cbn [Re.m EQS].
  apply rep_plus_greedy_max; [discriminate|apply eq_run_all|reflexivity|].
  replace ((NL :: L "# ClientName: ") ++ nm ++ (NL :: L "# AddedAt: ") ++ date
           ++ (NL :: L "# ") ++ eq_run (S n2) ++ (NL :: L "[Peer]" ++ [NL])
           ++ body ++ tail)
    with ((NL :: L "# ClientName: " ++ nm ++ NL :: L "# AddedAt: ")
          ++ date ++ (NL :: L "# ") ++ eq_run (S n2)
          ++ (NL :: L "[Peer]" ++ [NL]) ++ body ++ tail)
    by (cbn [app]; rewrite <- !app_assoc; reflexivity).
  rewrite m_lit. cbn [Re.m].
  apply rep_lazy_to; [reflexivity|done|done| |].
  { intros x1 c x2 E _. apply m_lit_fail. cbn.
    by rewrite (eqb_NL_false c (not_in_split _ _ _ _ _ Hd' E)). }
  rewrite m_lit. cbn [Re.m EQS].
  apply rep_plus_greedy_max; [discriminate|apply eq_run_all|reflexivity|].
  rewrite m_lit. cbn [Re.m].
  apply rep_lazy_to; [reflexivity|done|done| |].
  { intros x1 c x2 E _. rewrite look_fail; [reflexivity|discriminate|].
    apply (Hbody x1 (c :: x2) E). discriminate. }
  rewrite look_ok by done. reflexivity.
Qed.

Lemma nomatch_nil r s : nomatch r [] s.
Proof. intros x1 x2 p E Hx2. by destruct x1, x2. Qed.

Lemma nomatch_cons r c x s :
  (forall p, Re.match_here MULTILINE_DOTALL r false p (c :: x ++ s) = None) ->
  nomatch r x s -> nomatch r (c :: x) s.
Proof.
  intros Hc Hx x1 x2 p E Hx2. destruct x1 as [|c' x1].
  - cbn in E. subst x2. apply Hc.
  - injection E as -> ->. by apply (Hx x1 x2).
Qed.

Lemma nomatch_app r x y s :
  nomatch r x (y ++ s) -> nomatch r y s -> nomatch r (x ++ y) s.
Proof.
  revert y s. induction x as [|c x IH]; intros y s Hx Hy; [exact Hy|].
  cbn [app]. apply nomatch_cons.
  - intros p. rewrite <- app_assoc. by apply (Hx [] (c :: x)).
  - apply IH; [|exact Hy]. intros x1 x2 p -> Hx2. by apply (Hx (c :: x1) x2).
Qed.

Lemma nomatch_nostart nm x s :
  nostart (L "# =") x s -> nostart (NL :: L "# =") x s ->
  nomatch (remove_pattern nm) x s.
Proof.
  intros H1 H2 x1 x2 p E Hx2. apply rm_fail; [by apply (H1 x1)|by apply (H2 x1)].
Qed.

Lemma startswith_names N : forall nm rest y,
  NL ∉ N -> NL ∉ nm -> N <> nm ->
  Py.startswith (N ++ NL :: rest) (nm ++ NL :: y) = false.
Proof.
  induction N as [|c N IH]; intros nm rest y HN Hnm Hne.
  - destruct nm as [|d nm]; [done|].
    apply not_elem_of_cons in Hnm as [Hd _].
    apply Ascii.eqb_neq in Hd. cbn [app Py.startswith]. by rewrite Hd.
  - apply not_elem_of_cons in HN as [Hc HN].
    destruct nm as [|d nm].
    + assert (Hc' : c <> NL) by congruence.
      apply Ascii.eqb_neq in Hc'. cbn [app Py.startswith]. by rewrite Hc'.
    + apply not_elem_of_cons in Hnm as [_ Hnm]. cbn [app Py.startswith].
      destruct (Ascii.eqb_spec c d) as [->|]; [|reflexivity].
      apply IH; try done. congruence.
Qed.

(** *** A block of another name holds no match *)

Lemma block_pieces r :
  canonical r = true ->
  encode r ++ [NL]
  = [NL] ++ (L "# " ++ eq_run 42)
    ++ ((NL :: L "# ClientName: ") ++ s_name r ++ (NL :: L "# AddedAt: ") ++ s_added_at r)
    ++ [NL] ++ (L "# " ++ eq_run 42)
    ++ ((NL :: L "[Peer]" ++ [NL])
        ++ body_text (s_public_key r) (s_ip r) (s_preshared_key r) (s_endpoint r)
        ++ [NL]).
Proof.
  intros Hr. pose proof (canonical_spec r Hr) as (_ & _ & _ & _ & Hpsk & Hep).
  rewrite encode_eq, !truthy_ok by done. unfold header.
  norm_app. reflexivity.
Qed.

(** The body of a canonical block holds no banner text. *)
Lemma body_nostart_banner pk ip psk ep tail :
  value_ok pk = true -> value_ok ip = true ->
  opt_ok psk = true -> opt_ok ep = true -> block_end tail ->
  nostart (L "# =") (body_text pk ip psk ep ++ [NL]) tail.
Proof.
  intros Hpk Hip Hpsk Hep Htail.
  apply value_ok_clean, clean_spec in Hpk as (_ & _ & Bpk).
  apply value_ok_clean, clean_spec in Hip as (_ & _ & Bip).
  apply opt_ok_spec in Hpsk. apply opt_ok_spec in Hep.
  unfold body_text. rewrite <- !app_assoc.
  assert (Hlast : Py.startswith (NL :: tail) (L "# =") = false) by reflexivity.
  destruct psk as [v|]; [destruct Hpsk as (_ & _ & Bv)|];
    (destruct ep as [w|]; [destruct Hep as (_ & _ & Bw)|]);
    cbn [L list_ascii_of_string app opt_line];
    repeat first
      [ apply nostart_nil
      | apply nostart_cons; [reflexivity|]
      | apply nostart_app; [apply nostart_field; [assumption|reflexivity]|] ].
Qed.

Lemma banner_rest_nomatch nm s :
  nomatch (remove_pattern nm) (" "%char :: eq_run 42) s.
Proof.
  apply nomatch_nostart; cbn [eq_run replicate];
    repeat first [apply nostart_nil | apply nostart_cons; [reflexivity|]].
Qed.

Ltac shape_text new :=
  match goal with
  | |- Re.match_here _ _ _ _ ?old = _ =>
      replace old with new by (cbn [app]; rewrite <- ?app_assoc; reflexivity)
  end.

Lemma rm_nomatch_block nm r tail :
  canonical r = true -> s_name r <> nm -> NL ∉ nm -> block_end tail ->
  nomatch (remove_pattern nm) (encode r ++ [NL]) tail.
Proof.
  intros Hr Hne Hnm Htail.
  pose proof (canonical_spec r Hr) as (Hn & Hd & Hpk & Hip & Hpsk & Hep).
  apply clean_spec in Hn as (Ln & _ & Bn). apply clean_spec in Hd as (Ld & _ & Bd).
  rewrite block_pieces by done.
  set (body := body_text (s_public_key r) (s_ip r) (s_preshared_key r) (s_endpoint r)).
  set (X1 := (NL :: L "# ClientName: ") ++ s_name r ++ (NL :: L "# AddedAt: ")
             ++ s_added_at r).
  set (X2 := (NL :: L "[Peer]" ++ [NL]) ++ body ++ [NL]).
  assert (Hname : forall rest,
            Py.startswith (X1 ++ rest)
              (NL :: L "# ClientName: " ++ nm ++ NL :: L "# AddedAt: ") = false).
  { intros rest. subst X1. rewrite <- !app_assoc.
    change (NL :: L "# ClientName: " ++ nm ++ NL :: L "# AddedAt: ")
      with ((NL :: L "# ClientName: ") ++ nm ++ NL :: L "# AddedAt: ").
    rewrite startswith_app_both. cbn [app].
    apply startswith_names; [by apply single_line_spec|done|done]. }
  assert (Hstop1 : forall rest, stops MULTILINE_DOTALL (Re.CChar "=") (X1 ++ rest))
    by reflexivity.
  assert (Hstop2 : forall rest, stops MULTILINE_DOTALL (Re.CChar "=") (X2 ++ rest))
    by reflexivity.
  assert (Hpeer : forall rest,
            Py.startswith (X2 ++ rest)
              (NL :: L "# ClientName: " ++ nm ++ NL :: L "# AddedAt: ") = false)
    by reflexivity.
  apply (nomatch_app _ [NL]); [|apply (nomatch_app _ (L "# " ++ eq_run 42));
    [|apply (nomatch_app _ X1); [|apply (nomatch_app _ [NL]);
      [|apply (nomatch_app _ (L "# " ++ eq_run 42))]]]].
  - (* the line feed before the first banner *)
    apply nomatch_cons; [|apply nomatch_nil]. intros p.
    shape_text ([NL] ++ L "# " ++ eq_run 42
                ++ X1 ++ [NL] ++ (L "# " ++ eq_run 42) ++ X2 ++ tail).
    apply (rm_fail_banner nm false p 41 _ [NL]); [by right|apply Hstop1|apply Hname].
  - (* the first banner *)
    change (L "# " ++ eq_run 42) with ("#"%char :: " "%char :: eq_run 42).
    apply nomatch_cons; [|apply banner_rest_nomatch]. intros p.
    shape_text ([] ++ L "# " ++ eq_run 42
                ++ X1 ++ [NL] ++ (L "# " ++ eq_run 42) ++ X2 ++ tail).
    apply (rm_fail_banner nm false p 41 _ []); [by left|apply Hstop1|apply Hname].
  - (* the lines of the name and of the date *)
    subst X1. apply single_line_Forall in Ln, Ld.
    apply nomatch_nostart; cbn [L list_ascii_of_string app];
      repeat first
        [ apply nostart_nil
        | apply nostart_cons; [reflexivity|]
        | apply nostart_app;
          [first [apply nostart_field; [assumption|reflexivity]
                 |by apply nostart_head]|]
        | apply nostart_field; [assumption|reflexivity]
        | by apply nostart_head ].
  - (* the line feed before the second banner *)
    apply nomatch_cons; [|apply nomatch_nil]. intros p.
    shape_text ([NL] ++ L "# " ++ eq_run 42 ++ X2 ++ tail).
    apply (rm_fail_banner nm false p 41 _ [NL]); [by right|apply Hstop2|apply Hpeer].
  - (* the second banner *)
    change (L "# " ++ eq_run 42) with ("#"%char :: " "%char :: eq_run 42).
    apply nomatch_cons; [|apply banner_rest_nomatch]. intros p.
    shape_text ([] ++ L "# " ++ eq_run 42 ++ X2 ++ tail).
    apply (rm_fail_banner nm false p 41 _ []); [by left|apply Hstop2|apply Hpeer].
  - (* the line of [[Peer]] and the body *)
    subst X2 body. apply nomatch_nostart.
    + apply nostart_app; [|by apply body_nostart_banner].
      cbn [L list_ascii_of_string app].
      repeat first [apply nostart_nil | apply nostart_cons; [reflexivity|]].
    + apply nostart_app;
        [|apply body_nostart; try done; right; by split].
      cbn [L list_ascii_of_string app].
      repeat first [apply nostart_nil | apply nostart_cons; [reflexivity|]].
Qed.


(** *** Removing from a document *)

Lemma kept_app a b : kept (a ++ b) = kept a ++ kept b.
Proof. apply flat_map_app. Qed.

Lemma kept_chars (x : str) : kept (map inl x) = x.
Proof. induction x as [|c x IH]; [reflexivity|]. cbn. f_equal. exact IH. Qed.

Lemma others_cons_eq nm r rs : s_name r = nm -> others nm (r :: rs) = others nm rs.
Proof. intros H. unfold others. by rewrite filter_cons_False by (intros ?; done). Qed.

Lemma others_cons_ne nm r rs :
  s_name r <> nm -> others nm (r :: rs) = r :: others nm rs.
Proof. intros H. unfold others. by rewrite filter_cons_True. Qed.

(** The peers named [nm]. *)
Lemma scan_rm_blocks nm rs :
  NL ∉ nm -> Forall (fun r => canonical r = true) rs ->
  forall p off,
    kept (Re.scan MULTILINE_DOTALL (remove_pattern nm) 0 p (blocks rs) off)
    = blocks (others nm rs) /\
    length (matches_of (Re.scan MULTILINE_DOTALL (remove_pattern nm) 0 p
                          (blocks rs) off))
    = length (filter (fun r => s_name r = nm) rs).
Proof.
  intros Hnm Hrs. induction Hrs as [|r rs Hr Hrs IH]; intros p off.
  - cbn [blocks flat_map]. rewrite scan_fail_nil by (by apply rm_fail). by split.
  - change (blocks (r :: rs)) with ((encode r ++ [NL]) ++ blocks rs).
    pose proof (canonical_spec r Hr) as (Hn & Hd & Hpk & Hip & Hpsk & Hep).
    destruct (decide (s_name r = nm)) as [E|E].
    + rewrite (scan_match _ _ _ (encode r ++ [NL]) (blocks rs) []).
      * rewrite others_cons_eq, filter_cons_True by done.
        destruct (IH (prev_after p (encode r ++ [NL]))
                    (off + length (encode r ++ [NL]))) as [IH1 IH2].
        split; [exact IH1|]. rewrite matches_of_inr. cbn [length]. by rewrite IH2.
      * rewrite encode_eq. discriminate.
      * rewrite encode_eq, !truthy_ok by done. subst nm.
        apply clean_spec in Hd as (Ld & Td & _).
        replace (((NL :: header 41 41 (s_name r) (s_added_at r)
                   ++ body_text (s_public_key r) (s_ip r) (s_preshared_key r)
                        (s_endpoint r)) ++ [NL]) ++ blocks rs)
          with (NL :: header 41 41 (s_name r) (s_added_at r)
                ++ (body_text (s_public_key r) (s_ip r) (s_preshared_key r)
                      (s_endpoint r) ++ [NL]) ++ blocks rs)
          by (cbn [app]; rewrite <- !app_assoc; reflexivity).
        apply rm_match_at.
        -- by destruct (trimmed_head _ Td) as (? & ? & -> & _).
        -- by apply single_line_spec.
        -- apply body_nostart; try done. right. split; [done|apply blocks_end].
        -- apply blocks_end.
    + rewrite scan_chars.
      * rewrite others_cons_ne, filter_cons_False by done.
        destruct (IH (prev_after p (encode r ++ [NL]))
                    (off + length (encode r ++ [NL]))) as [IH1 IH2].
        rewrite kept_app, kept_chars, matches_of_app, matches_of_chars.
        split; [|exact IH2].
        change (blocks (r :: others nm rs))
          with ((encode r ++ [NL]) ++ blocks (others nm rs)).
        by rewrite IH1.
      * intros x1 x2 Ex Hx2.
        by apply (rm_nomatch_block nm r (blocks rs) Hr E Hnm (blocks_end rs) x1 x2).
Qed.

Lemma nostart_nl_field kw v s :
  contains v kw = false -> existsb (Ascii.eqb NL) kw = false ->
  nostart (NL :: kw) v (NL :: s).
Proof.
  intros Hv Hd x1 x2 -> Hx2. destruct x2 as [|c x2]; [done|].
  cbn [app Py.startswith].
  destruct (Py.startswith (x2 ++ NL :: s) kw) eqn:E; [|apply andb_false_r].
  apply startswith_app_cases in E as [E|E]; [|congruence].
  replace (x1 ++ c :: x2) with ((x1 ++ [c]) ++ x2) in Hv
    by (rewrite <- app_assoc; reflexivity).
  by rewrite (contains_suffix (x1 ++ [c]) x2 kw Hv) in E.
Qed.

Lemma blocks_head rs :
  Py.startswith (blocks rs) (L "# =") = false.
Proof. destruct rs as [|r rs]; [reflexivity|]. cbn [blocks flat_map]. by rewrite encode_eq. Qed.

(** The text before the blocks holds no match of the pattern. *)
Lemma rm_nomatch_prefix nm P rs :
  contains P (L "# =") = false ->
  nomatch (remove_pattern nm) (P ++ [NL]) (blocks rs).
Proof.
  intros HP. apply nomatch_nostart.
  - apply nostart_app; [by apply nostart_field|].
    apply nostart_cons; [reflexivity|apply nostart_nil].
  - apply nostart_app; [by apply nostart_nl_field|].
    apply nostart_cons; [|apply nostart_nil].
    cbn [app Py.startswith]. rewrite Ascii.eqb_refl. apply blocks_head.
Qed.

(** [subn] with the pattern of [nm] on a document. *)
Lemma subn_doc nm P rs :
  NL ∉ nm -> contains P (L "# =") = false ->
  Forall (fun r => canonical r = true) rs ->
  Re.subn MULTILINE_DOTALL (remove_pattern nm) [] (doc P rs)
  = (doc P (others nm rs), length (filter (fun r => s_name r = nm) rs)).
Proof.
  intros Hnm HP Hrs. unfold Re.subn, Re.finditer.
  fold (kept (Re.scan MULTILINE_DOTALL (remove_pattern nm) 0 None (doc P rs) 0)).
  fold (matches_of (Re.scan MULTILINE_DOTALL (remove_pattern nm) 0 None (doc P rs) 0)).
  unfold doc. rewrite !(app_assoc P [NL]).
  rewrite scan_chars
    by (intros x1 x2 E Hx2; by apply (rm_nomatch_prefix nm P rs HP x1 x2)).
  rewrite kept_app, kept_chars, matches_of_app, matches_of_chars.
  change ([] ++ ?l) with l.
  destruct (scan_rm_blocks nm rs Hnm Hrs (prev_after None (P ++ [NL]))
              (0 + length (P ++ [NL]))) as [-> ->].
  reflexivity.
Qed.

Lemma filter_name_length nm rs :
  length (filter (fun r => s_name r = nm) rs) = 0 <->
  Forall (fun r => s_name r <> nm) rs.
Proof.
  induction rs as [|r rs IH]; [by split|].
  destruct (decide (s_name r = nm)) as [E|E].
  - rewrite filter_cons_True by done. split; [discriminate|].
    intros H. apply Forall_cons in H as [H _]. done.
  - rewrite filter_cons_False by done. rewrite IH. split.
    + intros H. by constructor.
    + intros H. by apply Forall_cons in H as [_ H].
Qed.

Lemma others_all nm rs : Forall (fun r => s_name r <> nm) rs -> others nm rs = rs.
Proof.
  intros H. induction H as [|r rs Hr _ IH]; [reflexivity|].
  by rewrite others_cons_ne, IH.
Qed.

(** [remove_peer] on a document. *)
Lemma remove_peer_doc config_path nm P rs st :
  file st = Some (doc P rs) ->
  NL ∉ nm -> contains P (L "# =") = false ->
  Forall (fun r => canonical r = true) rs ->
  remove_peer config_path nm st
  = if decide (Forall (fun r => s_name r <> nm) rs) then (Ok false, st)
    else (Ok true, FS (Some (doc P (others nm rs)))
                     (doc P (others nm rs) :: written st)).
Proof.
  intros Hf Hnm HP Hrs. unfold remove_peer, bind at 1. rewrite (read_config_text _ _ _ Hf).
  rewrite compile_remove_pattern, subn_doc by done.
  destruct (decide (Forall (fun r => s_name r <> nm) rs)) as [H|H].
  - apply filter_name_length in H as ->. reflexivity.
  - destruct (length (filter (fun r => s_name r = nm) rs)) eqn:E.
    + exfalso. by apply H, filter_name_length.
    + reflexivity.
Qed.

(** ** Texts without carriage return *)

Lemma cr_free_app x y : cr_free (x ++ y) = cr_free x && cr_free y.
Proof. apply forallb_app. Qed.

Lemma cr_free_doc_snoc P rs r :
  cr_free (doc P rs) = true -> cr_free (encode r) = true ->
  cr_free (doc P (rs ++ [r])) = true.
Proof.
  intros H1 H2. rewrite doc_snoc, !cr_free_app, H1, H2. reflexivity.
Qed.

Lemma cr_free_doc_one P r :
  cr_free P = true -> cr_free (encode r) = true -> cr_free (doc P [r]) = true.
Proof.
  intros H1 H2. unfold doc, blocks. cbn [flat_map]. rewrite app_nil_r.
  rewrite !cr_free_app, H1, H2. reflexivity.
Qed.

Lemma cr_free_blocks rs :
  cr_free (blocks rs) = true <-> Forall (fun r => cr_free (encode r) = true) rs.
Proof.
  induction rs as [|r rs IH]; [by split; [constructor|]|].
  change (blocks (r :: rs)) with ((encode r ++ [NL]) ++ blocks rs).
  rewrite !cr_free_app, Forall_cons, <- IH, !andb_true_iff. cbn. tauto.
Qed.

Lemma cr_free_doc_others P nm rs :
  cr_free (doc P rs) = true -> cr_free (doc P (others nm rs)) = true.
Proof.
  unfold doc. rewrite !cr_free_app, !andb_true_iff, !cr_free_blocks.
  intros (HP & Hnl & Hrs). split; [done|]. split; [done|].
  rewrite Forall_forall in *. intros r Hr. apply Hrs.
  unfold others in Hr. by apply list_elem_of_filter in Hr as [_ Hr].
Qed.




(** C2: for every peer set, [get_next_available_ip] returns the smallest
    address [10.8.0.i], [2 <= i <= 254], outside the used set; the used
    set is the root [10.8.0.1] together with the host parts of the
    allowed addresses that parse; the result is never the root, the
    network or the broadcast address, nor a used address; when every
    offset is taken the method raises the pool-exhausted error; and with
    peers at .5, .6 and .7 it returns [10.8.0.2]. *)
Theorem C2_next_available_ip (config_path : str) (peers : list WgPeer) :
  let used := add_used {[SERVER_IP]} peers in
  (forall a, a ∈ used <->
     a = SERVER_IP \/
     exists p, p ∈ peers /\ Ip.parse (Py.split_head "/" (allowed_ips p)) = Some a) /\
  match first_free used (seq 2 253) with
  | Ok a =>
      exists i, 2 <= i <= 254 /\ a = Pool.addr i /\ (a ∉ used) /\
        (forall j, 2 <= j < i -> Pool.addr j ∈ used) /\
        a <> SERVER_IP /\ a <> Pool.addr 0 /\ a <> Pool.addr 255
  | Raise e =>
      e = PoolExhausted /\
      forall j, 2 <= j <= 254 -> Pool.addr j ∈ used
  end /\
  ((forall j, 2 <= j <= 254 -> Pool.addr j ∈ used) ->
   first_free used (seq 2 253) = Raise PoolExhausted) /\
  (forall content st,
     parse_content content = peers ->
     get_used_ips config_path (Some content) st = (Ok used, st) /\
     get_next_available_ip config_path (Some content) st
     = (first_free used (seq 2 253), st) /\
     (file st = Some content ->
      get_next_available_ip config_path None st
      = (first_free used (seq 2 253), st))) /\
  (map (fun p => Py.split_head "/" (allowed_ips p)) (parse_content SAMPLE_WG_CONFIG)
   = [L "10.8.0.5"; L "10.8.0.6"; L "10.8.0.7"] /\
   forall st, get_next_available_ip config_path (Some SAMPLE_WG_CONFIG) st
              = (Ok (Pool.addr 2), st)).
Proof.
  intros used.
  assert (Hused : forall a, a ∈ used <->
     a = SERVER_IP \/
     exists p, p ∈ peers /\ Ip.parse (Py.split_head "/" (allowed_ips p)) = Some a).
  { intros a. unfold used. rewrite add_used_spec, elem_of_singleton. tauto. }
  assert (Hroot : SERVER_IP ∈ used) by (apply Hused; auto).
  pose proof (first_free_spec used 253 2 ltac:(lia) ltac:(lia)) as Hff.
  split; [exact Hused|]. split; [|split; [|split]].
  - destruct (first_free used (seq 2 253)) as [a|e].
    + destruct Hff as (i & Hi & -> & Hfree & Hbelow).
      exists i. repeat split; try lia; try done.
      * intros E. apply Hfree. rewrite E. exact Hroot.
      * intros E. apply addr_inj in E. lia.
      * intros E. apply addr_inj in E. lia.
    + destruct Hff as [-> Hall]. split; [done|]. intros j Hj. apply Hall. lia.
  - intros Hall. destruct (first_free used (seq 2 253)) as [a|e].
    + destruct Hff as (i & Hi & -> & Hfree & _). exfalso. apply Hfree, Hall. lia.
    + destruct Hff as [-> _]. reflexivity.
  - intros content st <-. split; [reflexivity|]. split; [reflexivity|].
    intros Hf.
    unfold get_next_available_ip, bind, get_used_ips, bind, parse_peers, bind,
      content_or_read, ret, lift.
    by rewrite (read_config_text _ _ _ Hf).
  - split; [vm_compute; reflexivity|].
    intros st.
    change (get_next_available_ip config_path (Some SAMPLE_WG_CONFIG) st)
      with (first_free (add_used {[SERVER_IP]} (parse_content SAMPLE_WG_CONFIG))
              (seq 2 253), st).
    assert (E : first_free (add_used {[SERVER_IP]} (parse_content SAMPLE_WG_CONFIG))
                  (seq 2 253) = Ok (Pool.addr 2)) by (vm_compute; reflexivity).
    rewrite E. reflexivity.
Qed.

(** C3, as the code has it: an add whose name is taken fails with the
    name conflict; an add whose name is free and whose host address is
    that of an existing record fails with the address conflict; in both
    cases the file and the log of writes are as before (nothing is
    written).  The name is checked first, so a request with both
    conflicts reports the name. *)
Theorem C3_add_conflicts (config_path content nm pk ip date : str)
        (ep psk : option str) (st : fs) :
  file st = Some content ->
  (name_taken content nm ->
   add_peer config_path nm pk ip date ep psk st = (Raise (NameConflict nm), st)) /\
  (~ name_taken content nm -> address_taken content ip ->
   add_peer config_path nm pk ip date ep psk st = (Raise (AddressConflict ip), st)).
Proof.
  intros Hf. split.
  - by apply add_peer_name_conflict.
  - by apply add_peer_address_conflict.
Qed.

(** [C3_add_conflicts] on the sample configuration: a second
    ["home-nas"], and a new name on the address of ["home-nas"]. *)
Lemma C3_add_conflicts_witness :
  let st := FS (Some SAMPLE_WG_CONFIG) [] in
  add_peer [] (L "home-nas") (L "KEY") (L "10.8.0.9") (L "2026-02-01") None None st
  = (Raise (NameConflict (L "home-nas")), st) /\
  add_peer [] (L "tablet") (L "KEY") (L "10.8.0.6") (L "2026-02-01") None None st
  = (Raise (AddressConflict (L "10.8.0.6")), st).
Proof.
  intros st. split.
  - apply (C3_add_conflicts [] SAMPLE_WG_CONFIG (L "home-nas") (L "KEY")
             (L "10.8.0.9") (L "2026-02-01") None None st eq_refl).
    unfold name_taken. rewrite SAMPLE_peers. eexists. split.
    + apply elem_of_cons; right. apply elem_of_cons; by left.
    + reflexivity.
  - apply (C3_add_conflicts [] SAMPLE_WG_CONFIG (L "tablet") (L "KEY")
             (L "10.8.0.6") (L "2026-02-01") None None st eq_refl).
    + unfold name_taken. rewrite SAMPLE_peers. intros (p & Hp & E).
      repeat (apply elem_of_cons in Hp as [->|Hp]; [discriminate E|]).
      by apply elem_of_nil in Hp.
    + unfold address_taken. rewrite SAMPLE_peers. eexists _, _. split.
      * apply elem_of_cons; right. apply elem_of_cons; by left.
      * split; vm_compute; reflexivity.
Defined.

(** The claim as worded fails when both conflicts are present: the
    request repeats ["macbook-pro"] on its own address, and the error is
    the name conflict, not the address conflict. *)
Lemma C3_as_stated_counterexample :
  ~ C3_as_stated [] SAMPLE_WG_CONFIG (L "macbook-pro") (L "KEY") (L "10.8.0.5")
      (L "2026-02-01") None None (FS (Some SAMPLE_WG_CONFIG) []).
Proof.
  intros H. destruct (H eq_refl) as [_ H2].
  assert (Ha : address_taken SAMPLE_WG_CONFIG (L "10.8.0.5")).
  { unfold address_taken. rewrite SAMPLE_peers. eexists _, _. split.
    - apply elem_of_cons; by left.
    - split; vm_compute; reflexivity. }
  specialize (H2 Ha). vm_compute in H2. discriminate H2.
Qed.




(** C6: with the configuration file absent, the list endpoint answers
    with the empty list (the registry's [FileNotFoundError] is caught
    there), while [add_peer] and [remove_peer] raise
    [FileNotFoundError], which their endpoints turn into the fatal
    status 503, and nothing is written; with the file present, even
    empty, the list is again a response and no mutation reports a
    missing file. *)
Theorem C6_absent_store (config_path : str) (runtime : gmap str runtime_info)
        (w : list str) :
  let absent := FS None w in
  let missing := FileNotFoundError (MsgConfigMissing config_path) in
  parse_peers config_path None absent = (Raise missing, absent) /\
  Router.list_peers config_path runtime absent
  = (Router.Response (Router.mkPeerList true 0 []), absent) /\
  (forall nm pk ip date ep psk,
     add_peer config_path nm pk ip date ep psk absent = (Raise missing, absent) /\
     Router.add_peer_endpoint config_path date nm pk ip ep psk absent
     = (Router.HTTPException 503, absent)) /\
  (forall nm,
     remove_peer config_path nm absent = (Raise missing, absent) /\
     Router.delete_peer config_path nm absent = (Router.HTTPException 503, absent)) /\
  Router.list_peers config_path runtime (FS (Some []) w)
  = (Router.Response (Router.mkPeerList true 0 []), FS (Some []) w) /\
  (forall content nm pk ip date ep psk,
     exists r st', add_peer config_path nm pk ip date ep psk (FS (Some content) w)
                   = (r, st') /\ forall msg, r <> Raise (FileNotFoundError msg)) /\
  (forall content nm,
     exists r st', remove_peer config_path nm (FS (Some content) w) = (r, st') /\
                   forall msg, r <> Raise (FileNotFoundError msg)) /\
  (exists st', add_peer config_path (L "laptop") (L "KEY") (L "10.8.0.2")
                 (L "2026-02-01") None None (FS (Some []) w) = (Ok tt, st')).
Proof.
  intros absent missing. repeat split.
  - intros content nm pk ip date ep psk. apply add_peer_present.
  - intros content nm. apply remove_peer_present.
  - eexists. vm_compute. reflexivity.
Qed.







(** ** Further properties of the registry, the resolver and the endpoints *)

(** *** White space *)

Lemma rstrip_nil x : Py.rstrip x = [] <-> forallb Py.isspace x = true.
Proof.
  induction x as [|c x IH]; [done|]. cbn [Py.rstrip forallb].
  destruct (Py.rstrip x) eqn:E.
  - destruct (Py.isspace c); cbn [andb]; [tauto|]. split; [done|discriminate].
  - split; [done|]. intros H. apply andb_prop in H as [_ H].
    by apply IH in H.
Qed.

Lemma lstrip_nil x : Py.lstrip x = [] <-> forallb Py.isspace x = true.
Proof.
  induction x as [|c x IH]; [done|]. cbn [Py.lstrip forallb].
  destruct (Py.isspace c); cbn [andb]; [exact IH|]. split; [done|discriminate].
Qed.

(** What [rstrip] removes is white space. *)
Lemma rstrip_split x :
  exists ws, x = Py.rstrip x ++ ws /\ forallb Py.isspace ws = true.
Proof.
  induction x as [|c x (ws & E & Hws)]; [by exists []|]. cbn [Py.rstrip].
  destruct (Py.rstrip x) eqn:Er.
  - destruct (Py.isspace c) eqn:Ec.
    + exists (c :: x). split; [done|]. cbn [forallb]. rewrite Ec.
      by apply rstrip_nil.
    + exists ws. split; [|done]. cbn [app] in *. by rewrite <- E.
  - exists ws. split; [|done]. cbn [app]. f_equal. exact E.
Qed.

Lemma strip_nil x : Py.strip x = [] <-> forallb Py.isspace x = true.
Proof.
  unfold Py.strip. rewrite lstrip_nil.
  destruct (rstrip_split x) as (ws & E & Hws).
  split; intros H.
  - rewrite E, forallb_app, H, Hws. done.
  - rewrite E, forallb_app in H. by apply andb_prop in H as [H _].
Qed.

Lemma existsb_negb {A} (f : A -> bool) l :
  existsb (fun c => negb (f c)) l = negb (forallb f l).
Proof.
  induction l as [|c l IH]; [done|]. cbn [existsb forallb].
  rewrite IH. by destruct (f c), (forallb f l).
Qed.

Lemma lstrip_idem x : Py.lstrip (Py.lstrip x) = Py.lstrip x.
Proof.
  induction x as [|c x IH]; [done|]. cbn [Py.lstrip].
  destruct (Py.isspace c) eqn:E; [exact IH|]. cbn [Py.lstrip]. by rewrite E.
Qed.

Lemma rstrip_idem x : Py.rstrip (Py.rstrip x) = Py.rstrip x.
Proof.
  induction x as [|c x IH]; [done|]. cbn [Py.rstrip].
  destruct (Py.rstrip x) as [|a l] eqn:E.
  - destruct (Py.isspace c) eqn:Ec; [done|]. cbn [Py.rstrip]. by rewrite Ec.
  - change (Py.rstrip (c :: a :: l))
      with (match Py.rstrip (a :: l) with
            | [] => if Py.isspace c then [] else [c]
            | y => c :: y
            end).
    by rewrite IH.
Qed.

Lemma rstrip_lstrip x : Py.rstrip (Py.lstrip x) = Py.lstrip (Py.rstrip x).
Proof.
  induction x as [|c x IH]; [done|]. cbn [Py.lstrip Py.rstrip].
  destruct (Py.isspace c) eqn:Ec.
  - rewrite IH. destruct (Py.rstrip x) as [|a l]; [done|].
    cbn [Py.lstrip]. by rewrite Ec.
  - cbn [Py.rstrip]. destruct (Py.rstrip x) as [|a l];
      cbn [Py.lstrip]; by rewrite Ec.
Qed.

Lemma strip_idem x : Py.strip (Py.strip x) = Py.strip x.
Proof.
  unfold Py.strip. by rewrite rstrip_lstrip, rstrip_idem, lstrip_idem.
Qed.

Lemma split_head_none d x : contains x [d] = false -> Py.split_head d x = x.
Proof.
  induction x as [|c x IH]; [done|]. cbn [contains Py.startswith Py.split_head].
  rewrite andb_true_r. intros H. apply orb_false_elim in H as [H1 H2].
  rewrite H1. f_equal. by apply IH.
Qed.

(** *** The addresses of the pool as texts *)

Lemma pool_text_table :
  forallb (fun i =>
             bool_decide (Ip.to_str (Pool.addr i) = L "10.8.0." ++ Py.str_of_nat i)
             && bool_decide (contains (Ip.to_str (Pool.addr i)) (L "/") = false))
          (seq 2 253) = true.
Proof. vm_compute. reflexivity. Qed.

Lemma pool_text i :
  2 <= i <= 254 ->
  Ip.to_str (Pool.addr i) = L "10.8.0." ++ Py.str_of_nat i /\
  Py.split_head "/" (Ip.to_str (Pool.addr i)) = Ip.to_str (Pool.addr i) /\
  Ip.parse (Ip.to_str (Pool.addr i)) = Some (Pool.addr i).
Proof.
  intros Hi. pose proof pool_text_table as T.
  rewrite forallb_forall in T. specialize (T i).
  assert (Hin : In i (seq 2 253)) by (apply in_seq; lia).
  apply T, andb_prop in Hin as [H1 H2].
  apply bool_decide_eq_true in H1, H2.
  split; [exact H1|]. split; [by apply split_head_none|].
  rewrite H1. pose proof (candidate_ok i Hi) as C.
  unfold Pool.candidate, Ip.IPv4Address in C.
  destruct (Ip.parse (L "10.8.0." ++ Py.str_of_nat i)); by inversion C.
Qed.

Lemma cr_free_rstrip x : cr_free x = true -> cr_free (Py.rstrip x) = true.
Proof.
  destruct (rstrip_split x) as (ws & E & _). rewrite E at 1.
  rewrite cr_free_app. intros H. by apply andb_prop in H as [H _].
Qed.


(** *** [Settings.is_server_endpoint_configured] *)

(** X17: [is_server_endpoint_configured] holds exactly of the endpoints
    that have a character which is no white space; the empty text and a
    text of blanks, tabs or line feeds alone count as not configured. *)
Theorem endpoint_configured_iff (server_endpoint : str) :
  Settings.is_server_endpoint_configured server_endpoint
  = existsb (fun c => negb (Py.isspace c)) server_endpoint.
Proof.
  rewrite existsb_negb. destruct server_endpoint as [|c x]; [reflexivity|].
  unfold Settings.is_server_endpoint_configured. f_equal.
  destruct (forallb Py.isspace (c :: x)) eqn:E.
  - apply strip_nil in E. by rewrite E.
  - case_bool_decide as H; [|done]. apply strip_nil in H. congruence.
Qed.

(** *** [check_ip_conflict] and the root address *)

Lemma root_used peers : SERVER_IP ∈ add_used {[SERVER_IP]} peers.
Proof. apply add_used_spec. left. set_solver. Qed.

(** X4: [check_ip_conflict] reads the requested address up to its first
    slash only: whatever follows it, a prefix length or any other text,
    changes nothing but the wording of the error for a host that is no
    address. *)
Theorem check_ip_conflict_prefix_ignored (config_path ip sfx : str)
        (content : option str) (st : fs) :
  contains ip (L "/") = false ->
  check_ip_conflict config_path (ip ++ "/"%char :: sfx) content st
  = match check_ip_conflict config_path ip content st with
    | (Raise (ValueError (MsgInvalidIp _)), st') =>
        (Raise (ValueError (MsgInvalidIp (ip ++ "/"%char :: sfx))), st')
    | r => r
    end.
Proof.
  intros H. unfold check_ip_conflict.
  rewrite (split_head_app "/" ip sfx H), (split_head_none "/" ip H).
  unfold Ip.IPv4Address. destruct (Ip.parse ip) as [a|]; [|reflexivity].
  unfold bind, get_used_ips, bind, parse_peers, bind, content_or_read.
  destruct content as [c|]; [reflexivity|].
  unfold read_config. destruct st as [[c|] w|w]; reflexivity.
Qed.

(** [check_ip_conflict_prefix_ignored] for [10.8.0.6/24] on the sample
    configuration, where [10.8.0.6] is taken. *)
Lemma check_ip_conflict_prefix_ignored_witness :
  check_ip_conflict [] (L "10.8.0.6/24") (Some SAMPLE_WG_CONFIG) (FS None [])
  = (Ok true, FS None []).
Proof.
  etransitivity.
  - exact (check_ip_conflict_prefix_ignored [] (L "10.8.0.6") (L "24")
             (Some SAMPLE_WG_CONFIG) (FS None []) eq_refl).
  - vm_compute. reflexivity.
Defined.

(** X5: [add_peer] never registers the address of the server: a request
    whose host part is [10.8.0.1], with or without a prefix length, fails
    on every present file with a [ValueError], the address conflict when
    the name is free, and nothing is written. *)
Theorem add_peer_root_refused (config_path content nm pk ip date : str)
        (ep psk : option str) (st : fs) :
  file st = Some content ->
  Py.split_head "/" ip = L "10.8.0.1" ->
  (exists msg, add_peer config_path nm pk ip date ep psk st
               = (Raise (ValueError msg), st)) /\
  (~ name_taken content nm ->
   add_peer config_path nm pk ip date ep psk st = (Raise (AddressConflict ip), st)).
Proof.
  intros Hf Hip.
  assert (Hfree : ~ name_taken content nm ->
                  add_peer config_path nm pk ip date ep psk st
                  = (Raise (AddressConflict ip), st)).
  { intros Hn. unfold add_peer, bind at 1. rewrite (read_config_text _ _ _ Hf).
    destruct (check_name_conflict_spec config_path nm content st) as (b & Hb & Hbn).
    unfold bind at 1. rewrite Hb. destruct b; [exfalso; by apply Hn, Hbn|].
    unfold bind at 1, check_ip_conflict. rewrite Hip.
    change (Ip.IPv4Address (L "10.8.0.1")) with (@Ok Z SERVER_IP).
    unfold bind, get_used_ips, bind, parse_peers, bind, content_or_read, ret.
    rewrite bool_decide_eq_true_2 by apply root_used. reflexivity. }
  split; [|exact Hfree].
  destruct (check_name_conflict_spec config_path nm content st) as (b & Hb & Hbn).
  destruct b.
  - eexists. by apply (add_peer_name_conflict _ content), Hbn.
  - eexists. apply Hfree. intros Hn. apply Hbn in Hn. discriminate.
Qed.

(** [add_peer_root_refused] for a request of [10.8.0.1/32] on an empty
    file. *)
Lemma add_peer_root_refused_witness :
  add_peer [] (L "laptop") (L "KEY") (L "10.8.0.1/32") (L "2026-02-01") None None
    (FS (Some []) [])
  = (Raise (AddressConflict (L "10.8.0.1/32")), FS (Some []) []).
Proof.
  apply (add_peer_root_refused [] [] (L "laptop") (L "KEY") (L "10.8.0.1/32")
           (L "2026-02-01") None None (FS (Some []) []) eq_refl eq_refl).
  intros (p & Hp & _). vm_compute in Hp. by apply elem_of_nil in Hp.
Defined.

(** *** The suggested address *)

Lemma get_next_available_ip_file config_path content st :
  file st = Some content ->
  get_next_available_ip config_path None st
  = (first_free (add_used {[SERVER_IP]} (parse_content content)) (seq 2 253), st).
Proof.
  intros Hf.
  unfold get_next_available_ip, bind, get_used_ips, bind, parse_peers, bind,
    content_or_read, ret, lift.
  by rewrite (read_config_text _ _ _ Hf).
Qed.

(** X12: the address [get_next_available_ip] returns is accepted by the
    registry: on the same file [check_ip_conflict] finds its text free,
    and [add_peer] with that text and a name that is not taken succeeds
    and writes the new block. *)
Theorem next_ip_accepted (config_path content nm pk date : str)
        (ep psk : option str) (a : Z) (st : fs) :
  file st = Some content ->
  get_next_available_ip config_path None st = (Ok a, st) ->
  check_ip_conflict config_path (Ip.to_str a) None st = (Ok false, st) /\
  (~ name_taken content nm ->
   let new_content :=
     Py.rstrip content ++ [NL]
     ++ generate_peer_block nm pk (Ip.to_str a) date ep psk ++ [NL] in
   add_peer config_path nm pk (Ip.to_str a) date ep psk st
   = (Ok tt, FS (Some new_content) (new_content :: written st))).
Proof.
  intros Hf Hnext. rewrite (get_next_available_ip_file _ content) in Hnext by done.
  pose proof (first_free_spec (add_used {[SERVER_IP]} (parse_content content))
                253 2 ltac:(lia) ltac:(lia)) as Hspec.
  apply (f_equal fst) in Hnext. cbn [fst] in Hnext. rewrite Hnext in Hspec.
  destruct Hspec as (i & Hi & -> & Hout & _).
  destruct (pool_text i ltac:(lia)) as (_ & Hhead & Hparse).
  split.
  - unfold check_ip_conflict, Ip.IPv4Address. rewrite Hhead, Hparse.
    unfold bind, get_used_ips, bind, parse_peers, bind, content_or_read, ret.
    rewrite (read_config_text _ _ _ Hf). by rewrite bool_decide_eq_false_2.
  - intros Hn new_content.
    apply (add_peer_ok _ content _ _ _ _ _ _ _ (Pool.addr i));
      [exact Hf|exact Hn|by rewrite Hhead|exact Hout].
Qed.

(** [next_ip_accepted] on the sample configuration: [10.8.0.2] is
    suggested and then accepted. *)
Lemma next_ip_accepted_witness :
  let st := FS (Some SAMPLE_WG_CONFIG) [] in
  check_ip_conflict [] (L "10.8.0.2") None st = (Ok false, st).
Proof.
  intros st.
  assert (Hnext : get_next_available_ip [] None st = (Ok (Pool.addr 2), st))
    by (vm_compute; reflexivity).
  exact (proj1 (next_ip_accepted [] SAMPLE_WG_CONFIG [] [] [] None None
                  (Pool.addr 2) st eq_refl Hnext)).
Defined.

(** *** [get_config_template] *)

(** X18: [get_config_template] never changes the file.  On a file that
    is absent or is a text it lets no exception through: it answers
    either with the status 503, and then the file is present and every
    address from [10.8.0.2] to [10.8.0.254] is used, or with a response
    whose assigned address is the text [10.8.0.i] of the least free
    offset [i] between 2 and 254 ([10.8.0.2] when the file is absent),
    whose public key is the one of the server and whose endpoint is the
    configured one exactly when [is_server_endpoint_configured] holds of
    it.  On a file that is no UTF-8 text the decoding error of
    [read_text] goes through, as no handler of the endpoint catches it. *)
Theorem get_config_template_answer (config_path server_endpoint pk : str) (st : fs) :
  match st with
  | NotUtf8 _ =>
      Router.get_config_template config_path server_endpoint pk st
      = (Router.Uncaught (ValueError MsgNotUtf8), st)
  | FS stored _ =>
      let used := add_used {[SERVER_IP]} (peers_of st) in
      match Router.get_config_template config_path server_endpoint pk st with
      | (Router.Response r, st') =>
          st' = st /\ Router.ct_success r = true /\
          Router.ct_server_public_key r = pk /\
          Router.ct_server_endpoint r
          = (if Settings.is_server_endpoint_configured server_endpoint
             then Router.Configured server_endpoint else Router.NotConfigured) /\
          exists i, 2 <= i <= 254 /\
                    Router.ct_assigned_ip r = L "10.8.0." ++ Py.str_of_nat i /\
                    (Pool.addr i ∉ used) /\
                    forall j, 2 <= j < i -> Pool.addr j ∈ used
      | (Router.HTTPException status, st') =>
          st' = st /\ status = 503 /\ stored <> None /\
          forall j, 2 <= j <= 254 -> Pool.addr j ∈ used
      | (Router.Uncaught _, _) => False
      end
  end.
Proof.
  assert (Hdisp : forall b : bool,
             (if negb b then Router.NotConfigured
              else Router.Configured server_endpoint)
             = (if b then Router.Configured server_endpoint
                else Router.NotConfigured)) by (by intros []).
  destruct st as [[stored|] w|w]; [| |reflexivity].
  - intros used.
    change (add_used {[SERVER_IP]} (parse_content (Py.universal_newlines stored)))
      in (value of used).
    unfold Router.get_config_template.
    rewrite (get_next_available_ip_file _ (Py.universal_newlines stored))
      by reflexivity.
    pose proof (first_free_spec used 253 2 ltac:(lia) ltac:(lia)) as Hspec.
    fold used. destruct (first_free used (seq 2 253)) as [a|e].
    + destruct Hspec as (i & Hi & -> & Hout & Hlow).
      destruct (pool_text i ltac:(lia)) as (Htext & _).
      cbv beta iota zeta.
      split; [reflexivity|]. split; [reflexivity|]. split; [reflexivity|].
      split; [apply Hdisp|].
      exists i. split; [lia|]. split; [exact Htext|]. split; [exact Hout|].
      exact Hlow.
    + destruct Hspec as (-> & Hall). cbv beta iota zeta.
      split; [reflexivity|]. split; [reflexivity|]. split; [discriminate|].
      intros j Hj. apply Hall. lia.
  - intros used. change (add_used {[SERVER_IP]} []) in (value of used).
    unfold Router.get_config_template.
    change (get_next_available_ip config_path None (FS None w))
      with (@Raise Z (FileNotFoundError (MsgConfigMissing config_path)), FS None w).
    cbv beta iota zeta.
    split; [reflexivity|]. split; [reflexivity|]. split; [reflexivity|].
    split; [apply Hdisp|].
    exists 2. split; [lia|]. split; [reflexivity|]. split; [|intros j Hj; lia].
    subst used. intros H. apply add_used_spec in H as [H|(p & Hp & _)].
    + apply elem_of_singleton in H. vm_compute in H. discriminate.
    + by apply elem_of_nil in Hp.
Qed.

(** *** What every decoded record satisfies *)

Lemma parse_content_elem content p :
  p ∈ parse_content content -> exists mt, peer_of_match mt = Some p.
Proof.
  unfold parse_content. intros H. apply list_elem_of_omap in H as (mt & _ & H).
  by exists mt.
Qed.

Lemma field_stripped pat block v : field pat block = Some v -> Py.strip v = v.
Proof.
  unfold field. destruct (Re.search Re.no_flags pat block) as [mt|]; [|done].
  cbv [mbind option_bind]. intros [= <-]. apply strip_idem.
Qed.

Lemma decoded_name_stripped content p :
  p ∈ parse_content content -> Py.strip (name p) = name p.
Proof.
  intros H. apply parse_content_elem in H as (mt & H).
  unfold peer_of_match in H.
  destruct (field PUBKEY_PATTERN (group_str mt 3)); [|done].
  destruct (field ALLOWED_IPS_PATTERN (group_str mt 3)); [|done].
  injection H as <-. apply strip_idem.
Qed.

Lemma decoded_no_status content p :
  p ∈ parse_content content ->
  latest_handshake p = None /\ transfer_rx p = None /\ transfer_tx p = None.
Proof.
  intros H. apply parse_content_elem in H as (mt & H).
  unfold peer_of_match in H.
  destruct (field PUBKEY_PATTERN (group_str mt 3)); [|done].
  destruct (field ALLOWED_IPS_PATTERN (group_str mt 3)); [|done].
  by injection H as <-.
Qed.

(** X1: whatever the text of the file, every record [parse_peers]
    decodes from it has its name, date, public key and allowed addresses
    free of white space at both ends, as are its endpoint and preshared
    key when it has them, and carries no runtime status. *)
Theorem parse_peers_fields_stripped (content : str) (p : WgPeer) :
  p ∈ parse_content content ->
  Py.strip (name p) = name p /\ Py.strip (added_at p) = added_at p /\
  Py.strip (public_key p) = public_key p /\
  Py.strip (allowed_ips p) = allowed_ips p /\
  (forall e, endpoint p = Some e -> Py.strip e = e) /\
  (forall k, preshared_key p = Some k -> Py.strip k = k) /\
  latest_handshake p = None /\ transfer_rx p = None /\ transfer_tx p = None.
Proof.
  intros H. apply parse_content_elem in H as (mt & H).
  unfold peer_of_match in H.
  destruct (field PUBKEY_PATTERN (group_str mt 3)) as [pk|] eqn:Epk; [|done].
  destruct (field ALLOWED_IPS_PATTERN (group_str mt 3)) as [ips|] eqn:Eips; [|done].
  injection H as <-. cbn [name added_at public_key allowed_ips endpoint
                           preshared_key latest_handshake transfer_rx transfer_tx].
  split; [apply strip_idem|]. split; [apply strip_idem|].
  split; [by apply (field_stripped _ _ _ Epk)|].
  split; [by apply (field_stripped _ _ _ Eips)|].
  split; [intros e He; by apply (field_stripped _ _ _ He)|].
  split; [intros k Hk; by apply (field_stripped _ _ _ Hk)|].
  done.
Qed.

(** [parse_peers_fields_stripped] for the second peer of the sample
    configuration. *)
Lemma parse_peers_fields_stripped_witness :
  let p := mkWgPeer (L "home-nas") (L "CLIENT2_PUBLIC_KEY") (L "10.8.0.6/32")
             (L "2026-01-27") (Some (L "nas.myhome.com:51820")) None
             None None None in
  Py.strip (name p) = name p /\ latest_handshake p = None.
Proof.
  intros p.
  assert (Hp : p ∈ parse_content SAMPLE_WG_CONFIG).
  { rewrite SAMPLE_peers. apply elem_of_cons. right. apply elem_of_cons. by left. }
  destruct (parse_peers_fields_stripped SAMPLE_WG_CONFIG p Hp)
    as (H1 & _ & _ & _ & _ & _ & H2 & _).
  exact (conj H1 H2).
Defined.

(** X3: [check_name_conflict] compares the requested name as it is with
    the stripped names of the file, so a name with white space at either
    end is never found taken, whatever the file holds; [add_peer] then
    never answers such a request with the name conflict. *)
Theorem padded_name_never_conflicts (config_path nm pk ip date : str)
        (ep psk : option str) (content : str) (st : fs) :
  Py.strip nm <> nm ->
  check_name_conflict config_path nm (Some content) st = (Ok false, st) /\
  add_peer config_path nm pk ip date ep psk st
  <> (Raise (NameConflict nm), st).
Proof.
  intros Hnm.
  assert (Hfree : forall c, ~ name_taken c nm).
  { intros c (p & Hp & Hname).
    apply decoded_name_stripped in Hp. congruence. }
  assert (Hcheck : forall c, check_name_conflict config_path nm (Some c) st
                             = (Ok false, st)).
  { intros c.
    destruct (check_name_conflict_spec config_path nm c st) as (b & Hb & Hbn).
    destruct b; [|exact Hb]. exfalso. by apply (Hfree c), Hbn. }
  split; [apply Hcheck|].
  unfold add_peer, bind at 1, read_config.
  destruct st as [[c|] w|w]; [|discriminate..].
  unfold bind at 1. rewrite Hcheck.
  unfold bind at 1.
  destruct (check_ip_conflict _ _ _ _) as [[[]|e] st1] eqn:Eip.
  - unfold raise. intros [=].
  - unfold write_config. discriminate.
  - intros [= -> _]. revert Eip. unfold check_ip_conflict, raise, bind.
    destruct (Ip.IPv4Address _); [|discriminate].
    destruct (get_used_ips _ _ _) as [[u|e'] st2] eqn:Eu; [discriminate|].
    revert Eu. unfold get_used_ips, bind, parse_peers, bind, content_or_read, ret.
    discriminate.
Qed.

(** [padded_name_never_conflicts] on the sample configuration, which
    holds ["home-nas"], for the name [" home-nas"]. *)
Lemma padded_name_never_conflicts_witness :
  check_name_conflict [] (L " home-nas") (Some SAMPLE_WG_CONFIG) (FS None [])
  = (Ok false, FS None []).
Proof.
  apply (padded_name_never_conflicts [] (L " home-nas") [] [] [] None None
           SAMPLE_WG_CONFIG (FS None [])).
  vm_compute. discriminate.
Defined.

(** *** Candidates and runtime status *)

Lemma peers_no_status content :
  Forall (fun p => latest_handshake p = None /\ transfer_rx p = None /\
                   transfer_tx p = None) (parse_content content).
Proof.
  apply Forall_forall. intros p Hp.
  by apply decoded_no_status in Hp.
Qed.

Lemma candidate_infos_filter peers :
  Forall (fun p => latest_handshake p = None /\ transfer_rx p = None /\
                   transfer_tx p = None) peers ->
  map Router.candidate_info (filter (fun p => is_Some (endpoint p)) peers)
  = filter (fun i => is_Some (Router.pi_endpoint i)) (map Router.peer_info peers).
Proof.
  induction 1 as [|p peers (H1 & H2 & H3) _ IH]; [reflexivity|].
  cbn [map]. destruct (decide (is_Some (endpoint p))) as [E|E].
  - rewrite !filter_cons_True by done. cbn [map]. rewrite IH. f_equal.
    unfold Router.candidate_info, Router.peer_info. by rewrite H1, H2, H3.
  - by rewrite !filter_cons_False by done.
Qed.

Lemma get_peers_with_status_empty config_path st :
  get_peers_with_status config_path ∅ st = parse_peers config_path None st.
Proof.
  unfold get_peers_with_status, bind.
  destruct (parse_peers config_path None st) as [[peers|e] st']; [|reflexivity].
  unfold ret. f_equal. f_equal.
  induction peers as [|p peers IH]; [reflexivity|]. cbn [map].
  rewrite lookup_empty. by rewrite IH.
Qed.

(** X13: the candidates endpoint never changes the file.  On a file
    that is absent or is a text it always answers with a response: its
    candidates are, in the order of the file, the entries of the peer
    list (read without runtime status) that have an endpoint, and its
    count is their number; with the file absent there are none.  On a
    file that is no UTF-8 text the decoding error of [read_text] goes
    through, as the endpoint catches [FileNotFoundError] only. *)
Theorem p2p_candidates_answer (config_path : str) (st : fs) :
  match st with
  | NotUtf8 _ =>
      Router.get_p2p_candidates_endpoint config_path st
      = (Router.Uncaught (ValueError MsgNotUtf8), st)
  | FS stored _ =>
      exists r l,
        Router.get_p2p_candidates_endpoint config_path st = (Router.Response r, st) /\
        Router.list_peers config_path ∅ st = (Router.Response l, st) /\
        Router.p2p_success r = true /\
        Router.p2p_count r = length (Router.p2p_candidates r) /\
        Router.p2p_candidates r
        = filter (fun i => is_Some (Router.pi_endpoint i)) (Router.pl_peers l) /\
        (stored = None -> Router.p2p_candidates r = [])
  end.
Proof.
  destruct st as [[content|] w|w]; [| |reflexivity];
    unfold Router.get_p2p_candidates_endpoint, Router.list_peers;
    rewrite get_peers_with_status_empty;
    unfold get_p2p_candidates, bind, parse_peers, bind, content_or_read,
      read_config, ret.
  - eexists _, _. split; [reflexivity|]. split; [reflexivity|].
    cbn [Router.p2p_success Router.p2p_count Router.p2p_candidates Router.pl_peers].
    split; [reflexivity|]. split; [reflexivity|].
    split; [apply candidate_infos_filter, peers_no_status|discriminate].
  - eexists _, _. split; [reflexivity|]. split; [reflexivity|].
    cbn [Router.p2p_success Router.p2p_count Router.p2p_candidates Router.pl_peers].
    done.
Qed.

(** X14: [get_peers_with_status] keeps the peers of the file in number
    and order and changes none of the fields read from the file; a peer
    whose public key is in the runtime dictionary receives the handshake
    and the two counters of that entry, and any other peer has no
    status. *)
Theorem peers_with_status_merge (config_path content : str)
        (runtime : gmap str runtime_info) (st : fs) :
  file st = Some content ->
  exists peers,
    get_peers_with_status config_path runtime st = (Ok peers, st) /\
    Forall2 (fun p q =>
               name q = name p /\ public_key q = public_key p /\
               allowed_ips q = allowed_ips p /\ added_at q = added_at p /\
               endpoint q = endpoint p /\ preshared_key q = preshared_key p /\
               (latest_handshake q, transfer_rx q, transfer_tx q)
               = match runtime !! public_key p with
                 | Some info => (ri_latest_handshake info,
                                 Some (ri_transfer_rx info),
                                 Some (ri_transfer_tx info))
                 | None => (None, None, None)
                 end)
            (parse_content content) peers.
Proof.
  intros Hf.
  unfold get_peers_with_status, bind, parse_peers, bind, content_or_read, ret.
  rewrite (read_config_text _ _ _ Hf). eexists. split; [reflexivity|].
  pose proof (peers_no_status content) as Hs.
  induction Hs as [|p peers (H1 & H2 & H3) _ IH]; [constructor|].
  cbn [map]. constructor; [|exact IH].
  destruct (runtime !! public_key p) as [info|].
  - cbn [name public_key allowed_ips added_at endpoint preshared_key
           latest_handshake transfer_rx transfer_tx]. done.
  - rewrite H1, H2, H3. done.
Qed.

(** [peers_with_status_merge] on the sample configuration, with a
    runtime entry for the second peer. *)
Lemma peers_with_status_merge_witness :
  let runtime : gmap str runtime_info :=
    {[ L "CLIENT2_PUBLIC_KEY" := Build_runtime_info (Some 1700000000%Z) 10%Z 20%Z ]} in
  exists peers,
    get_peers_with_status [] runtime (FS (Some SAMPLE_WG_CONFIG) [])
    = (Ok peers, FS (Some SAMPLE_WG_CONFIG) []) /\
    length peers = 3.
Proof.
  intros runtime.
  destruct (peers_with_status_merge [] SAMPLE_WG_CONFIG runtime
              (FS (Some SAMPLE_WG_CONFIG) []) eq_refl) as (peers & H & HF).
  exists peers. split; [exact H|].
  apply Forall2_length in HF. rewrite <- HF. rewrite SAMPLE_peers. reflexivity.
Defined.

(** *** [get_runtime_status] *)

Lemma split_no_sep d x : d ∉ x -> Py.split d x = [x].
Proof.
  induction x as [|c x IH]; [done|]. intros H. cbn [Py.split].
  apply not_elem_of_cons in H as [H1 H2].
  rewrite (proj2 (Ascii.eqb_neq c d)) by congruence.
  by rewrite IH.
Qed.

(** X15: [get_runtime_status] returns the empty dictionary when the
    command fails and when its output, stripped, is a single line (the
    line of the interface is passed over); the peer list read with that
    dictionary is the list of [parse_peers], with no status. *)
Theorem runtime_status_interface_only (dump : option str) (config_path : str)
        (st : fs) :
  (forall out, dump = Some out -> NL ∉ Py.strip out) ->
  get_runtime_status dump = Status ∅ /\
  get_peers_with_status config_path (runtime_of <$> ∅) st
  = parse_peers config_path None st.
Proof.
  intros H. split.
  - destruct dump as [out|]; [|reflexivity]. unfold get_runtime_status.
    by rewrite (split_no_sep NL _ (H out eq_refl)).
  - rewrite fmap_empty. apply get_peers_with_status_empty.
Qed.

(** [runtime_status_interface_only] for the dump of an interface without
    peers. *)
Lemma runtime_status_interface_only_witness :
  get_runtime_status
    (Some (L "PRIVATE" ++ "009"%char :: L "PUBLIC" ++ "009"%char :: L "51820"
           ++ "009"%char :: L "off" ++ [NL]))
  = Status ∅.
Proof.
  apply (runtime_status_interface_only _ [] (FS None [])).
  intros out [= <-]. vm_compute. intros H.
  repeat (apply elem_of_cons in H as [H|H]; [discriminate|]).
  by apply elem_of_nil in H.
Defined.

Lemma status_lines_short status line lines :
  long_line line = false ->
  status_lines status (line :: lines) = status_lines status lines.
Proof.
  unfold long_line. intros H. cbn [status_lines].
  destruct (Py.split "009" line) as [|p0 [|p1 [|p2 [|p3 [|p4 [|p5 [|p6 [|p7 ps]]]]]]]];
    try reflexivity.
  cbn [length] in H. apply Nat.leb_gt in H. lia.
Qed.

(** X16: the loop of [get_runtime_status] passes over the lines of fewer
    than eight tab-separated fields wherever they stand, and it ends with
    a dictionary exactly when the counters of every line are numbers;
    otherwise the [ValueError] of [int] leaves the method and nothing of
    the dictionary is returned. *)
Theorem runtime_status_lines (status : gmap str status_entry) (lines : list str) :
  status_lines status lines
  = status_lines status (filter (fun line => long_line line = true) lines) /\
  ((exists m, status_lines status lines = Status m) <->
   forallb counters_ok lines = true).
Proof.
  split.
  - revert status. induction lines as [|line lines IH]; intros status; [done|].
    destruct (long_line line) eqn:E.
    + rewrite filter_cons_True by done. cbn [status_lines].
      destruct (Py.split "009" line)
        as [|p0 [|p1 [|p2 [|p3 [|p4 [|p5 [|p6 [|p7 ps]]]]]]]]; try apply IH.
      destruct (if bool_decide (p4 = L "0") then Some None else Some <$> Py.int p4);
        [|reflexivity].
      destruct (Py.int p5); [|reflexivity]. destruct (Py.int p6); [|reflexivity].
      apply IH.
    + rewrite filter_cons_False by (by rewrite E).
      rewrite status_lines_short by done. apply IH.
  - revert status. induction lines as [|line lines IH]; intros status.
    + split; [done|]. intros _. by eexists.
    + cbn [status_lines forallb]. unfold counters_ok at 1.
      destruct (Py.split "009" line)
        as [|p0 [|p1 [|p2 [|p3 [|p4 [|p5 [|p6 [|p7 ps]]]]]]]];
        cbn [andb]; try apply IH.
      case_bool_decide as E4; cbn [orb].
      * destruct (Py.int p5) as [rx|]; cbn [andb];
          [|split; [intros [m [=]]|rewrite bool_decide_eq_false_2;
                                    [discriminate|by intros [? [=]]]]].
        rewrite (bool_decide_eq_true_2 (is_Some (Some rx))) by eauto. cbn [andb].
        destruct (Py.int p6) as [tx|]; cbn [andb];
          [|split; [intros [m [=]]|rewrite bool_decide_eq_false_2;
                                    [discriminate|by intros [? [=]]]]].
        rewrite (bool_decide_eq_true_2 (is_Some (Some tx))) by eauto. cbn [andb].
        apply IH.
      * destruct (Py.int p4) as [hs|]; cbn [fmap option_fmap option_map andb];
          [|split; [intros [m [=]]|rewrite bool_decide_eq_false_2;
                                    [discriminate|by intros [? [=]]]]].
        rewrite (bool_decide_eq_true_2 (is_Some (Some hs))) by eauto. cbn [andb].
        destruct (Py.int p5) as [rx|]; cbn [andb];
          [|split; [intros [m [=]]|rewrite bool_decide_eq_false_2;
                                    [discriminate|by intros [? [=]]]]].
        rewrite (bool_decide_eq_true_2 (is_Some (Some rx))) by eauto. cbn [andb].
        destruct (Py.int p6) as [tx|]; cbn [andb];
          [|split; [intros [m [=]]|rewrite bool_decide_eq_false_2;
                                    [discriminate|by intros [? [=]]]]].
        rewrite (bool_decide_eq_true_2 (is_Some (Some tx))) by eauto. cbn [andb].
        apply IH.
Qed.

(** *** The resolver *)

Lemma lower_char_table :
  forallb (fun n => let c := ascii_of_nat n in
                    Ascii.eqb (Py.lower_char (Py.lower_char c)) (Py.lower_char c))
          (seq 0 256) = true.
Proof. vm_compute. reflexivity. Qed.

Lemma lower_char_idem c : Py.lower_char (Py.lower_char c) = Py.lower_char c.
Proof.
  pose proof lower_char_table as T. rewrite forallb_forall in T.
  specialize (T (nat_of_ascii c)). rewrite ascii_nat_embedding in T.
  apply Ascii.eqb_eq, T, in_seq. pose proof (nat_ascii_bounded c). lia.
Qed.

Lemma lower_idem x : Py.lower (Py.lower x) = Py.lower x.
Proof.
  unfold Py.lower. rewrite map_map. apply map_ext. intros c. apply lower_char_idem.
Qed.

Lemma rstrip_char_snoc d x : Py.rstrip_char d (x ++ [d]) = Py.rstrip_char d x.
Proof.
  induction x as [|c x IH]; cbn [app Py.rstrip_char].
  - by rewrite Ascii.eqb_refl.
  - by rewrite IH.
Qed.

Lemma rstrip_char_dots d x n :
  Py.rstrip_char d (x ++ replicate n d) = Py.rstrip_char d x.
Proof.
  induction n as [|n IH] in x |- *; [by rewrite app_nil_r|].
  rewrite replicate_S_end, app_assoc, rstrip_char_snoc. apply IH.
Qed.

Lemma rstrip_char_last d x : last (Py.rstrip_char d x) <> Some d.
Proof.
  induction x as [|c x IH]; [done|]. cbn [Py.rstrip_char].
  destruct (Py.rstrip_char d x) as [|a l] eqn:E.
  - destruct (Ascii.eqb c d) eqn:Ec; [done|]. cbn [last].
    apply Ascii.eqb_neq in Ec. congruence.
  - exact IH.
Qed.

(** X19: [resolve_query] does not tell the letter case of the query
    name, nor its trailing dots: a name, the same in lower case, and
    either of them followed by any number of dots get the same answer. *)
Theorem resolve_query_case_and_dots (self : InternalDNSServer) (qname : str)
        (n : nat) (qtype : Z) (st : fs) :
  resolve_query self (Py.lower qname) qtype st = resolve_query self qname qtype st /\
  resolve_query self (qname ++ replicate n "."%char) qtype st
  = resolve_query self qname qtype st.
Proof.
  unfold resolve_query. split.
  - by rewrite lower_idem.
  - unfold Py.lower. rewrite map_app, fmap_replicate.
    change (Py.lower_char ".") with "."%char.
    by rewrite rstrip_char_dots.
Qed.

(** X21: a configured suffix that ends with a dot makes the resolver
    answer nothing at all: the trailing dots of the query name are taken
    off before the suffix is compared, so no name ends with it. *)
Theorem suffix_with_trailing_dot_never_answers (address : str) (port : Z)
        (suffix path qname : str) (qtype : Z) (st : fs) :
  last suffix = Some "."%char ->
  resolve_query (InternalDNSServer_init address port suffix path) qname qtype st
  = (Ok None, st).
Proof.
  intros Hs. unfold resolve_query.
  destruct (negb (qtype =? QTYPE_A)%Z); [reflexivity|].
  cbn [domain_suffix InternalDNSServer_init].
  destruct (Py.endswith (Py.rstrip_char "." (Py.lower qname)) (Py.lower suffix))
    eqn:E; [|reflexivity].
  exfalso. apply endswith_inv in E.
  apply (rstrip_char_last "." (Py.lower qname)). rewrite E.
  apply last_app_Some. unfold Py.lower.
  destruct suffix as [|c suffix _] using rev_ind; [done|].
  rewrite last_snoc in Hs. injection Hs as ->.
  rewrite map_app. cbn [map]. rewrite last_snoc. reflexivity.
Qed.

(** [suffix_with_trailing_dot_never_answers] for the suffix
    [.vpn.example.com.] and the sample configuration. *)
Lemma suffix_with_trailing_dot_never_answers_witness :
  resolve_query (InternalDNSServer_init (L "10.8.0.1") 53 (L ".vpn.example.com.") [])
    (L "home-nas.vpn.example.com.") QTYPE_A (FS (Some SAMPLE_WG_CONFIG) [])
  = (Ok None, FS (Some SAMPLE_WG_CONFIG) []).
Proof.
  apply suffix_with_trailing_dot_never_answers. reflexivity.
Defined.

(** X20: every peer of a document is resolved.  For a document of
    canonical peers, a peer whose name in lower case is neither
    ["server"] nor ["gateway"], and which shares it only with peers of
    the same address, a query of type A for its name under the configured
    suffix, in any letter case, is answered with its address. *)
Theorem listed_peer_resolves (address : str) (port : Z)
        (suffix path P qname : str) (rs : list PeerSpec) (r : PeerSpec) (st : fs) :
  suffix <> [] ->
  file st = Some (doc P rs) ->
  contains P (L "# =") = false ->
  Forall (fun r => canonical r = true) rs ->
  r ∈ rs ->
  (forall r', r' ∈ rs -> Py.lower (s_name r') = Py.lower (s_name r) ->
              s_ip r' = s_ip r) ->
  Py.lower (s_name r) ∉ [L "server"; L "gateway"] ->
  Py.rstrip_char "." (Py.lower qname) = Py.lower (s_name r) ++ Py.lower suffix ->
  resolve_query (InternalDNSServer_init address port suffix path) qname QTYPE_A st
  = (Ok (Some (s_ip r)), st).
Proof.
  intros Hs Hf HP Hrs Hr Hsame Halias Hq.
  rewrite (resolve_query_in_zone _ qname (Py.lower (s_name r)) st);
    [|by destruct suffix|exact Hq].
  rewrite (looked_up_file st _ _ Hf), mapping_of_other by exact Halias.
  unfold peers_of. rewrite Hf, parse_content_doc by done.
  rewrite add_names_lookup.
  destruct (list_find _ _) as [[i p]|] eqn:E.
  - apply list_find_Some in E as (Hi & Hp & _).
    apply bool_decide_unpack in Hp.
    apply list_elem_of_lookup_2, list_elem_of_In, (proj2 (in_rev _ _)),
      list_elem_of_In in Hi.
    apply list_elem_of_fmap in Hi as (r' & -> & Hr').
    cbn [decoded allowed_ips name] in *.
    rewrite Forall_forall in Hrs.
    change (L "/32") with ("/"%char :: L "32").
    rewrite split_head_app by (apply canonical_no_slash, Hrs, Hr').
    by rewrite (Hsame r' Hr' Hp).
  - exfalso. apply list_find_None in E. rewrite Forall_forall in E.
    apply (E (decoded r)).
    + apply list_elem_of_In, (proj1 (in_rev _ _)), list_elem_of_In,
        list_elem_of_fmap.
      by exists r.
    + by apply bool_decide_pack.
Qed.

(** [listed_peer_resolves] for the second of two peers after an
    interface part. *)
Lemma listed_peer_resolves_witness :
  let nas := mkSpec (L "home-nas") (L "CLIENT2_PUBLIC_KEY=") (L "10.8.0.6")
               (L "2026-01-27") (Some (L "nas.myhome.com:51820")) None in
  let phone := mkSpec (L "Phone") (L "CLIENT3_PUBLIC_KEY") (L "10.8.0.7")
                 (L "2026-01-28") None (Some (L "PRESHARED_KEY_VALUE")) in
  let P := L "[Interface]" ++ NL :: L "Address = 10.8.0.1/24" in
  let st := FS (Some (doc P [nas; phone])) [] in
  resolve_query (InternalDNSServer_init (L "10.8.0.1") 53 (L ".vpn.example.com") [])
    (L "PHONE.vpn.example.com.") QTYPE_A st
  = (Ok (Some (L "10.8.0.7")), st).
Proof.
  intros nas phone P st.
  assert (Hs : L ".vpn.example.com" <> []) by discriminate.
  assert (Hrs : Forall (fun r => canonical r = true) [nas; phone])
    by (repeat constructor).
  assert (Hr : phone ∈ [nas; phone])
    by (apply elem_of_cons; right; apply elem_of_cons; by left).
  assert (Hsame : forall r', r' ∈ [nas; phone] ->
                    Py.lower (s_name r') = Py.lower (s_name phone) ->
                    s_ip r' = s_ip phone).
  { intros r' H. apply elem_of_cons in H as [->|H]; [vm_compute; discriminate|].
    apply elem_of_cons in H as [->|H]; [done|]. by apply elem_of_nil in H. }
  assert (Ha : Py.lower (s_name phone) ∉ [L "server"; L "gateway"]).
  { vm_compute. intros H.
    repeat (apply elem_of_cons in H as [H|H]; [discriminate|]).
    by apply elem_of_nil in H. }
  exact (listed_peer_resolves (L "10.8.0.1") 53 (L ".vpn.example.com") [] P
           (L "PHONE.vpn.example.com.") [nas; phone] phone st
           Hs eq_refl eq_refl Hrs Hr Hsame Ha eq_refl).
Defined.

(** *** Texts without banner *)

Lemma parse_content_bannerless content :
  contains content (L "# =") = false -> parse_content content = [].
Proof.
  intros H. unfold parse_content, Re.finditer.
  fold (matches_of (Re.scan MULTILINE_DOTALL PEER_PATTERN 0 None content 0)).
  rewrite <- (app_nil_r content) at 1.
  rewrite scan_chars.
  - rewrite scan_fail_nil by (by apply peer_fail).
    by rewrite app_nil_r, matches_of_chars.
  - intros x1 x2 E _. rewrite app_nil_r. apply peer_fail.
    subst content. by apply contains_suffix in H.
Qed.

(** X2: a text in which no line of equal signs follows ["# "] holds no
    peer for the registry, whatever [[Peer]] sections it has: the list is
    empty, every name is free, and the next address is [10.8.0.2]. *)
Theorem bannerless_text_has_no_peers (config_path content nm : str) (st : fs) :
  contains content (L "# =") = false ->
  parse_peers config_path (Some content) st = (Ok [], st) /\
  check_name_conflict config_path nm (Some content) st = (Ok false, st) /\
  get_p2p_candidates config_path (Some content) st = (Ok [], st) /\
  get_next_available_ip config_path (Some content) st = (Ok (Pool.addr 2), st).
Proof.
  intros H. apply parse_content_bannerless in H.
  unfold get_next_available_ip, get_used_ips, get_p2p_candidates,
    check_name_conflict, bind, parse_peers, bind, content_or_read, ret, lift.
  rewrite H. repeat split.
Qed.

(** [bannerless_text_has_no_peers] for a configuration whose peer, at
    [10.8.0.2], was written without the comment block. *)
Lemma bannerless_text_has_no_peers_witness :
  let content := L "[Interface]" ++ NL :: L "Address = 10.8.0.1/24" ++ NL
                 :: L "[Peer]" ++ NL :: L "PublicKey = KEY" ++ NL
                 :: L "AllowedIPs = 10.8.0.2/32" ++ [NL] in
  get_next_available_ip [] (Some content) (FS None []) = (Ok (Pool.addr 2), FS None []).
Proof.
  intros content.
  apply (bannerless_text_has_no_peers [] content [] (FS None []) eq_refl).
Defined.

(** *** What [remove_peer] does to any text *)

(** What [subn] keeps is a sublist of the text. *)
Lemma scan_kept_sublist fl r s : forall skip p off,
  sublist (kept (Re.scan fl r skip p s off)) s.
Proof.
  induction s as [|c s IH]; intros skip p off.
  - destruct skip as [|k]; cbn [Re.scan]; [|constructor].
    destruct (Re.match_here fl r false p []) as [[s' g]|]; [|constructor].
    destruct (length [] - length s') eqn:E; [|discriminate].
    destruct (Re.match_here fl r true p []) as [[s'' g']|]; constructor.
  - destruct skip as [|k]; cbn [Re.scan].
    + destruct (Re.match_here fl r false p (c :: s)) as [[s' g]|].
      * destruct (length (c :: s) - length s') eqn:E.
        -- destruct (Re.match_here fl r true p (c :: s)) as [[s'' g']|].
           ++ cbn [kept flat_map app].
              destruct (length (c :: s) - length s'').
              ** cbn [flat_map app]. apply sublist_skip, IH.
              ** apply sublist_cons, IH.
           ++ cbn [kept flat_map app]. apply sublist_skip, IH.
        -- cbn [kept flat_map app]. apply sublist_cons, IH.
      * cbn [kept flat_map app]. apply sublist_skip, IH.
    + apply sublist_cons, IH.
Qed.

(** X7: for every name, [remove_peer] does one of four things,
    according to the file alone.  An absent file makes it raise
    [FileNotFoundError], and a file that is no UTF-8 text the decoding
    error of [read_text], both without a write.  On a file that is a
    text it never raises, as the pattern built from the name always
    compiles: it returns [False] and leaves everything as it is, or it
    returns [True] after writing, once, a text obtained from the old one
    by deleting characters (a sublist of it). *)
Theorem remove_peer_outcomes (config_path nm : str) (st : fs) :
  match st with
  | FS None _ =>
      remove_peer config_path nm st
      = (Raise (FileNotFoundError (MsgConfigMissing config_path)), st)
  | NotUtf8 _ =>
      remove_peer config_path nm st = (Raise (ValueError MsgNotUtf8), st)
  | FS (Some stored) _ =>
      let content := Py.universal_newlines stored in
      remove_peer config_path nm st = (Ok false, st) \/
      exists new_content,
        sublist new_content content /\
        remove_peer config_path nm st
        = (Ok true, FS (Some new_content) (new_content :: written st))
  end.
Proof.
  destruct st as [[stored|] w|w]; [|reflexivity..]. intros content.
  remember (remove_peer config_path nm (FS (Some stored) w)) as R eqn:E.
  unfold remove_peer, bind at 1, read_config in E. fold content in E.
  rewrite compile_remove_pattern in E. unfold Re.subn in E.
  destruct (length (Re.finditer MULTILINE_DOTALL (remove_pattern nm) content)).
  - left. exact E.
  - right. eexists. split; [|exact E]. apply scan_kept_sublist.
Qed.

(** *** The endpoints that change the file *)

Lemma add_peer_cases config_path nm pk ip date ep psk stored w :
  let st := FS (Some stored) w in
  let content := Py.universal_newlines stored in
  let new_content :=
    Py.rstrip content ++ [NL]
    ++ generate_peer_block nm pk ip date ep psk ++ [NL] in
  add_peer config_path nm pk ip date ep psk st = (Raise (NameConflict nm), st) \/
  add_peer config_path nm pk ip date ep psk st = (Raise (AddressConflict ip), st) \/
  add_peer config_path nm pk ip date ep psk st
  = (Raise (ValueError (MsgInvalidIp ip)), st) \/
  add_peer config_path nm pk ip date ep psk st
  = (Ok tt, FS (Some new_content) (new_content :: w)).
Proof.
  intros st content new_content.
  remember (add_peer config_path nm pk ip date ep psk st) as R eqn:E.
  unfold add_peer, bind at 1, read_config in E. subst st. cbv beta iota in E.
  fold content in E.
  destruct (check_name_conflict_spec config_path nm content (FS (Some stored) w))
    as (b & Hb & _).
  unfold bind at 1 in E. rewrite Hb in E. destruct b; [by left|].
  unfold bind at 1, check_ip_conflict in E.
  destruct (Ip.IPv4Address (Py.split_head "/" ip)) as [a|e].
  - unfold bind, get_used_ips, bind, parse_peers, bind, content_or_read, ret in E.
    case_bool_decide.
    + right. by left.
    + right. right. right. exact E.
  - right. right. by left.
Qed.

(** X6: what the two endpoints that change the file answer, according to
    the file.  They write at most once, and only with a success.  With
    the file absent both answer 503.  With a file that is a text the add
    endpoint answers a failure with the message of the name conflict, of
    the address conflict or of the address that is none, the file being
    as before, or a success after writing the old text, stripped on the
    right, followed by the new block; the delete endpoint answers a
    failure with the file as before, or a success after one write.  With
    a file that is no UTF-8 text the decoding error of [read_text], a
    [ValueError], is answered by the add endpoint as a failure with the
    message of that error, and goes through the delete endpoint, which
    catches [FileNotFoundError] only. *)
Theorem mutation_endpoints_outcomes (config_path today nm pk ip : str)
        (ep psk : option str) (st : fs) :
  let added := Router.add_peer_endpoint config_path today nm pk ip ep psk st in
  let deleted := Router.delete_peer config_path nm st in
  match st with
  | FS None _ =>
      added = (Router.HTTPException 503, st) /\
      deleted = (Router.HTTPException 503, st)
  | NotUtf8 _ =>
      added = (Router.Response (Router.mkOp false (Router.OpFailed MsgNotUtf8)), st) /\
      deleted = (Router.Uncaught (ValueError MsgNotUtf8), st)
  | FS (Some stored) _ =>
      let content := Py.universal_newlines stored in
      let new_content :=
        Py.rstrip content ++ [NL]
        ++ generate_peer_block nm pk ip today ep psk ++ [NL] in
      ((exists e, (e = MsgNameExists nm \/ e = MsgIpInUse ip \/ e = MsgInvalidIp ip) /\
                  added = (Router.Response (Router.mkOp false (Router.OpFailed e)), st)) \/
       added = (Router.Response (Router.mkOp true (Router.OpAdded nm ip)),
                FS (Some new_content) (new_content :: written st))) /\
      (deleted = (Router.Response (Router.mkOp false (Router.OpNotFound nm)), st) \/
       exists removed_content,
         deleted = (Router.Response (Router.mkOp true (Router.OpRemoved nm)),
                    FS (Some removed_content) (removed_content :: written st)))
  end.
Proof.
  intros added deleted. subst added deleted.
  destruct st as [[stored|] w|w]; [|split; reflexivity..].
  intros content new_content. split.
  - unfold Router.add_peer_endpoint.
    destruct (add_peer_cases config_path nm pk ip today ep psk stored w)
      as [->|[->|[->| ->]]].
    + left. eexists. split; [by left|reflexivity].
    + left. eexists. split; [right; by left|reflexivity].
    + left. eexists. split; [right; by right|reflexivity].
    + right. reflexivity.
  - remember (Router.delete_peer config_path nm (FS (Some stored) w)) as R eqn:E.
    unfold Router.delete_peer, remove_peer, bind at 1, read_config in E.
    fold content in E.
    rewrite compile_remove_pattern in E. unfold Re.subn in E.
    destruct (length (Re.finditer MULTILINE_DOTALL (remove_pattern nm) content)).
    + left. exact E.
    + right. eexists. exact E.
Qed.

(** *** Removing from documents, and adding again *)

Lemma others_canonical nm rs :
  Forall (fun r => canonical r = true) rs ->
  Forall (fun r => canonical r = true) (others nm rs).
Proof.
  rewrite !Forall_forall. intros H r Hr. apply H.
  unfold others in Hr. by apply list_elem_of_filter in Hr as [_ Hr].
Qed.

Lemma others_names nm rs : Forall (fun r => s_name r <> nm) (others nm rs).
Proof.
  apply Forall_forall. intros r Hr.
  unfold others in Hr. by apply list_elem_of_filter in Hr as [Hr _].
Qed.

Lemma others_sublist nm rs : sublist (others nm rs) rs.
Proof. apply sublist_filter. Qed.

Lemma others_snoc nm rs r :
  Forall (fun r => s_name r <> nm) rs -> s_name r = nm ->
  others nm (rs ++ [r]) = rs.
Proof.
  intros H E. unfold others. rewrite filter_app.
  fold (others nm rs). rewrite others_all by done.
  rewrite filter_cons_False by (intros ?; done).
  by rewrite filter_nil, app_nil_r.
Qed.

Lemma name_taken_doc P rs nm :
  contains P (L "# =") = false ->
  Forall (fun r => canonical r = true) rs ->
  name_taken (doc P rs) nm <-> exists r, r ∈ rs /\ s_name r = nm.
Proof.
  intros HP Hrs. unfold name_taken. rewrite parse_content_doc by done. split.
  - intros (p & Hp & <-). apply list_elem_of_fmap in Hp as (r & -> & Hr).
    by exists r.
  - intros (r & Hr & <-). exists (decoded r). split; [|done].
    apply list_elem_of_fmap. by exists r.
Qed.

(** X8: on a document, [remove_peer] deletes the blocks of the peers of
    the given name, all of them, and nothing else: when no peer has the
    name it returns [False] and writes nothing; otherwise it returns
    [True] and the new text is the document of the other peers, with the
    same text before the blocks, byte for byte; the list then read is the
    records of the other peers, in their order. *)
Theorem remove_peer_document (config_path nm P : str) (rs : list PeerSpec) (st : fs) :
  file st = Some (doc P rs) ->
  NL ∉ nm ->
  contains P (L "# =") = false ->
  Forall (fun r => canonical r = true) rs ->
  let rest := others nm rs in
  remove_peer config_path nm st
  = (if decide (Forall (fun r => s_name r <> nm) rs) then (Ok false, st)
     else (Ok true, FS (Some (doc P rest)) (doc P rest :: written st))) /\
  parse_content (doc P rest) = map decoded rest /\
  Forall (fun r => s_name r <> nm) rest /\
  sublist rest rs /\
  (Forall (fun r => s_name r <> nm) rs -> rest = rs).
Proof.
  intros Hf Hnm HP Hrs rest.
  split; [by apply remove_peer_doc|].
  split; [apply parse_content_doc; [done|by apply others_canonical]|].
  split; [apply others_names|]. split; [apply others_sublist|apply others_all].
Qed.

(** [remove_peer_document] for the name ["a.b"] in a document that also
    holds a peer named ["axb"]: only the block of ["a.b"] goes. *)
Lemma remove_peer_document_witness :
  let dot := mkSpec (L "a.b") (L "KEY1") (L "10.8.0.6") (L "2026-01-27") None None in
  let other := mkSpec (L "axb") (L "KEY2") (L "10.8.0.7") (L "2026-01-28")
                 (Some (L "nas.myhome.com:51820")) None in
  let P := L "[Interface]" ++ NL :: L "Address = 10.8.0.1/24" in
  let st := FS (Some (doc P [other; dot; other])) [] in
  remove_peer [] (L "a.b") st
  = (Ok true, FS (Some (doc P [other; other])) [doc P [other; other]]).
Proof.
  intros dot other P st.
  assert (Hnm : NL ∉ L "a.b").
  { intros H. repeat (apply elem_of_cons in H as [H|H]; [discriminate|]).
    by apply elem_of_nil in H. }
  assert (Hrs : Forall (fun r => canonical r = true) [other; dot; other])
    by (repeat constructor).
  destruct (remove_peer_document [] (L "a.b") P [other; dot; other] st
              eq_refl Hnm eq_refl Hrs) as (H & _).
  rewrite H. destruct (decide _) as [F|_]; [|reflexivity].
  exfalso. apply Forall_cons in F as [_ F]. apply Forall_cons in F as [F _].
  by apply F.
Defined.

(** X9: on a document whose text before the blocks ends with no white
    space, an add that succeeds for a canonical peer whose block holds
    no carriage return, followed by the removal of the added name, gives
    back the text of the file as it was read: the text the add wrote is
    read back as it was written, and the removal writes the old
    document. *)
Theorem add_then_remove_restores (config_path P : str) (rs : list PeerSpec)
        (r : PeerSpec) (st st1 : fs) :
  file st = Some (doc P rs) ->
  Py.rstrip P = P ->
  contains P (L "# =") = false ->
  Forall (fun r => canonical r = true) rs ->
  canonical r = true ->
  cr_free (encode r) = true ->
  add_spec config_path r st = (Ok tt, st1) ->
  file st1 = Some (doc P (rs ++ [r])) /\
  exists st2,
    remove_peer config_path (s_name r) st1 = (Ok true, st2) /\
    st2 = FS (Some (doc P rs)) (doc P rs :: written st1) /\
    file st2 = file st.
Proof.
  intros Hf HP1 HP2 Hrs Hr Hcr' Hadd.
  pose proof (file_cr_free _ _ Hf) as Hcr.
  pose proof (add_spec_doc _ _ _ _ _ _ Hf HP1 Hrs Hadd) as ->.
  assert (Hf1 : file (FS (Some (doc P (rs ++ [r]))) (doc P (rs ++ [r]) :: written st))
                = Some (doc P (rs ++ [r])))
    by (by apply file_stored, cr_free_doc_snoc).
  split; [exact Hf1|].
  apply (add_peer_inv _ _ _ _ _ _ _ _ _ _ Hf) in Hadd as (_ & Hfree & _).
  assert (Hnames : Forall (fun r' => s_name r' <> s_name r) rs).
  { apply Forall_forall. intros r' Hr' E. apply Hfree.
    apply name_taken_doc; [done..|]. by exists r'. }
  assert (Hrs' : Forall (fun r => canonical r = true) (rs ++ [r]))
    by (apply Forall_app; split; [done|by repeat constructor]).
  assert (Hnl : NL ∉ s_name r).
  { apply single_line_spec. apply canonical_spec in Hr as (Hn & _).
    by apply clean_spec in Hn as (Hn & _). }
  eexists. split; [|split; [reflexivity|by rewrite Hf; apply file_stored]].
  rewrite (remove_peer_doc _ (s_name r) P (rs ++ [r])) by done.
  rewrite others_snoc by done.
  destruct (decide _) as [F|_]; [|reflexivity].
  exfalso. apply Forall_app in F as [_ F]. apply Forall_cons in F as [F _].
  by apply F.
Qed.

(** X10: on a document, a second removal of the same name finds nothing:
    whatever the first one did, the second returns [False] and writes
    nothing, and the name is free for a new add. *)
Theorem remove_twice (config_path nm P : str) (rs : list PeerSpec)
        (st st1 : fs) (b : bool) :
  file st = Some (doc P rs) ->
  NL ∉ nm ->
  contains P (L "# =") = false ->
  Forall (fun r => canonical r = true) rs ->
  remove_peer config_path nm st = (Ok b, st1) ->
  remove_peer config_path nm st1 = (Ok false, st1) /\
  check_name_conflict config_path nm None st1 = (Ok false, st1).
Proof.
  intros Hf Hnm HP Hrs H1.
  assert (Hdoc : exists rs1, file st1 = Some (doc P rs1) /\
                   Forall (fun r => canonical r = true) rs1 /\
                   Forall (fun r => s_name r <> nm) rs1).
  { rewrite (remove_peer_doc _ nm P rs) in H1 by done.
    destruct (decide _) as [F|_].
    - injection H1 as _ <-. by exists rs.
    - injection H1 as _ <-. exists (others nm rs).
      split; [apply file_stored, cr_free_doc_others, (file_cr_free _ _ Hf)|].
      split; [by apply others_canonical|apply others_names]. }
  destruct Hdoc as (rs1 & Hf1 & Hrs1 & Hn1). split.
  - rewrite (remove_peer_doc _ nm P rs1) by done. by rewrite decide_True.
  - unfold check_name_conflict, bind, parse_peers, bind, content_or_read, ret.
    rewrite (read_config_text _ _ _ Hf1), parse_content_doc by done.
    f_equal. f_equal.
    apply not_true_is_false. intros H. apply existsb_exists in H as (p & Hp & H).
    apply bool_decide_eq_true in H. apply in_map_iff in Hp as (r & <- & Hr).
    rewrite Forall_forall in Hn1. apply (Hn1 r); [|done].
    by apply list_elem_of_In.
Qed.

(** [add_then_remove_restores] for a tablet added to a document of two
    peers and removed again. *)
Lemma add_then_remove_restores_witness :
  let nas := mkSpec (L "home-nas") (L "CLIENT2_PUBLIC_KEY=") (L "10.8.0.6")
               (L "2026-01-27") (Some (L "nas.myhome.com:51820")) None in
  let phone := mkSpec (L "phone-android") (L "CLIENT3_PUBLIC_KEY") (L "10.8.0.7")
                 (L "2026-01-28") None (Some (L "PRESHARED_KEY_VALUE")) in
  let tablet := mkSpec (L "tablet") (L "CLIENT4_PUBLIC_KEY") (L "10.8.0.8")
                  (L "2026-02-01") None None in
  let P := L "[Interface]" ++ NL :: L "Address = 10.8.0.1/24  # root" in
  let st := FS (Some (doc P [nas; phone])) [] in
  let st1 := FS (Some (doc P [nas; phone; tablet])) [doc P [nas; phone; tablet]] in
  remove_peer [] (L "tablet") st1
  = (Ok true, FS (Some (doc P [nas; phone]))
                [doc P [nas; phone]; doc P [nas; phone; tablet]]).
Proof.
  intros nas phone tablet P st st1.
  assert (Hadd : add_spec [] tablet st = (Ok tt, st1)) by (vm_compute; reflexivity).
  assert (Hrs : Forall (fun r => canonical r = true) [nas; phone])
    by (repeat constructor).
  destruct (add_then_remove_restores [] P [nas; phone] tablet st st1
              eq_refl eq_refl eq_refl Hrs eq_refl eq_refl Hadd)
    as (_ & st2 & H2 & -> & _).
  exact H2.
Defined.

(** [remove_twice] for the first of two peers. *)
Lemma remove_twice_witness :
  let nas := mkSpec (L "home-nas") (L "CLIENT2_PUBLIC_KEY=") (L "10.8.0.6")
               (L "2026-01-27") (Some (L "nas.myhome.com:51820")) None in
  let phone := mkSpec (L "phone-android") (L "CLIENT3_PUBLIC_KEY") (L "10.8.0.7")
                 (L "2026-01-28") None (Some (L "PRESHARED_KEY_VALUE")) in
  let P := L "[Interface]" ++ NL :: L "Address = 10.8.0.1/24  # root" in
  let st1 := FS (Some (doc P [phone])) [doc P [phone]] in
  remove_peer [] (L "home-nas") st1 = (Ok false, st1).
Proof.
  intros nas phone P st1.
  assert (H1 : remove_peer [] (L "home-nas") (FS (Some (doc P [nas; phone])) [])
               = (Ok true, st1)) by (vm_compute; reflexivity).
  assert (Hnm : NL ∉ L "home-nas").
  { intros H. repeat (apply elem_of_cons in H as [H|H]; [discriminate|]).
    by apply elem_of_nil in H. }
  assert (Hrs : Forall (fun r => canonical r = true) [nas; phone])
    by (repeat constructor).
  exact (proj1 (remove_twice [] (L "home-nas") P [nas; phone]
                  (FS (Some (doc P [nas; phone])) []) st1 true
                  eq_refl Hnm eq_refl Hrs H1)).
Defined.

(** *** Successive adds *)

Lemma startswith_prefix x s kw :
  Py.startswith (x ++ s) kw = false -> Py.startswith x kw = false.
Proof.
  revert kw. induction x as [|c x IH]; intros kw.
  - destruct kw; [by destruct s|done].
  - destruct kw as [|d kw]; [done|]. cbn [app Py.startswith].
    destruct (Ascii.eqb c d); [apply IH|done].
Qed.

Lemma contains_prefix x s kw :
  contains (x ++ s) kw = false -> contains x kw = false.
Proof.
  induction x as [|c x IH].
  - cbn [app]. destruct kw; [by destruct s|done].
  - cbn [app contains]. intros H. apply orb_false_elim in H as [H1 H2].
    rewrite (startswith_prefix (c :: x) s kw H1). by apply IH.
Qed.

Lemma contains_rstrip x kw :
  contains x kw = false -> contains (Py.rstrip x) kw = false.
Proof.
  destruct (rstrip_split x) as (ws & E & _). rewrite E at 1. apply contains_prefix.
Qed.

Lemma used_doc rs a :
  Forall (fun r => canonical r = true) rs ->
  a ∈ add_used {[SERVER_IP]} (map decoded rs) <->
  a = SERVER_IP \/ exists r, r ∈ rs /\ Ip.parse (s_ip r) = Some a.
Proof.
  intros Hrs. rewrite Forall_forall in Hrs. rewrite add_used_spec.
  rewrite elem_of_singleton. split.
  - intros [H|(p & Hp & H)]; [by left|right].
    apply list_elem_of_fmap in Hp as (r & -> & Hr). exists r. split; [done|].
    cbn [decoded allowed_ips] in H.
    change (L "/32") with ("/"%char :: L "32") in H.
    by rewrite split_head_app in H by (apply canonical_no_slash, Hrs, Hr).
  - intros [H|(r & Hr & H)]; [by left|right].
    exists (decoded r). split; [apply list_elem_of_fmap; by exists r|].
    cbn [decoded allowed_ips]. change (L "/32") with ("/"%char :: L "32").
    by rewrite split_head_app by (apply canonical_no_slash, Hrs, Hr).
Qed.


Lemma NoDup_map_snoc {A B} (f : A -> B) l x k :
  NoDup (map f (l ++ x :: k)) -> forall y, y ∈ l -> f y <> f x.
Proof.
  rewrite map_app. cbn [map]. intros H y Hy E.
  apply NoDup_app in H as (_ & H & _).
  apply (H (f y)).
  - apply list_elem_of_fmap. by exists y.
  - rewrite E. apply elem_of_cons. by left.
Qed.

Lemma addable_step rs0 r rs :
  addable rs0 (r :: rs) = true ->
  addable (rs0 ++ [r]) rs = true /\
  (forall r0, r0 ∈ rs0 -> s_name r0 <> s_name r) /\
  (forall r0, r0 ∈ rs0 -> Ip.parse (s_ip r0) <> Ip.parse (s_ip r)) /\
  exists a, Ip.parse (s_ip r) = Some a /\ a <> SERVER_IP.
Proof.
  unfold addable. intros H. apply andb_prop in H as [H H3].
  apply andb_prop in H as [H1 H2].
  apply bool_decide_eq_true in H1, H2. cbn [forallb] in H3.
  apply andb_prop in H3 as [H3 H4].
  split; [|split; [|split]].
  - rewrite <- !app_assoc. cbn [app].
    by rewrite !bool_decide_eq_true_2, H4 by done.
  - by apply (NoDup_map_snoc s_name rs0 r rs).
  - by apply (NoDup_map_snoc (fun r => Ip.parse (s_ip r)) rs0 r rs).
  - destruct (Ip.parse (s_ip r)) as [a|]; [|done]. exists a. split; [done|].
    apply negb_true_iff, Z.eqb_neq in H3. done.
Qed.

Lemma add_all_doc config_path P :
  Py.rstrip P = P -> contains P (L "# =") = false ->
  forall rs rs0 st,
    file st = Some (doc P rs0) ->
    Forall (fun r => canonical r = true) rs0 ->
    Forall (fun r => canonical r = true) rs ->
    addable rs0 rs = true ->
    Forall (fun r => cr_free (encode r) = true) rs ->
    exists st' ws, add_all config_path rs st = (Ok tt, st') /\
                   file st' = Some (doc P (rs0 ++ rs)) /\
                   written st' = ws ++ written st /\
                   length ws = length rs /\
                   Forall (fun x => cr_free x = true) ws.
Proof.
  intros HP1 HP2.
  induction rs as [|r rs IH]; intros rs0 st Hf Hrs0 Hrs Hadd Hcr.
  - exists st, []. by rewrite app_nil_r.
  - apply Forall_cons in Hrs as [Hr Hrs]. apply Forall_cons in Hcr as [Hcr1 Hcr].
    apply addable_step in Hadd as (Hadd & Hnames & Hips & a & Ha & Hroot).
    assert (Hok : exists st1, add_spec config_path r st = (Ok tt, st1)).
    { eexists. apply (add_peer_ok _ (doc P rs0) _ _ _ _ _ _ _ a); [done| | |].
      - intros Ht. apply name_taken_doc in Ht as (r0 & Hr0 & E); [|done..].
        by apply (Hnames r0).
      - by rewrite split_head_none by (by apply canonical_no_slash).
      - rewrite parse_content_doc by done. intros Hin.
        apply (used_doc rs0 a Hrs0) in Hin as [E|(r0 & Hr0 & E)];
          [by apply Hroot|].
        apply (Hips r0 Hr0). by rewrite E. }
    destruct Hok as (st1 & Hst1).
    pose proof (add_spec_doc _ _ _ _ _ _ Hf HP1 Hrs0 Hst1) as E1.
    pose proof (cr_free_doc_snoc P rs0 r (file_cr_free _ _ Hf) Hcr1) as Hcr2.
    destruct (IH (rs0 ++ [r]) st1) as (st' & ws & H1 & H2 & H3 & H4 & H5);
      try done.
    + rewrite E1. by apply file_stored.
    + apply Forall_app. split; [done|by repeat constructor].
    + exists st', (ws ++ [doc P (rs0 ++ [r])]). cbn [add_all]. unfold bind.
      rewrite Hst1.
      split; [exact H1|]. rewrite <- app_assoc in H2. split; [exact H2|].
      split; [rewrite H3, E1, <- app_assoc; reflexivity|].
      split; [rewrite length_app, H4; cbn [length]; lia|].
      apply Forall_app. split; [exact H5|by repeat constructor].
Qed.

(** X11: successive adds build a document.  From a file whose text has
    no banner line, adding one after the other canonical peers whose
    blocks hold no carriage return, whose names differ, whose addresses
    parse, differ and are not that of the server, succeeds every time;
    the text of the file is then the old text stripped on the right, a
    line feed and the blocks of the peers in the order of the calls;
    there was one write for each, of a text that is read back as it was
    written; and the list read back is the peers in that order with all
    their fields. *)
Theorem adds_build_document (config_path content : str) (r : PeerSpec)
        (rs : list PeerSpec) (st : fs) :
  file st = Some content ->
  contains content (L "# =") = false ->
  Forall (fun r => canonical r = true) (r :: rs) ->
  addable [] (r :: rs) = true ->
  Forall (fun r => cr_free (encode r) = true) (r :: rs) ->
  exists st' ws,
    add_all config_path (r :: rs) st = (Ok tt, st') /\
    file st' = Some (doc (Py.rstrip content) (r :: rs)) /\
    written st' = ws ++ written st /\
    length ws = length (r :: rs) /\
    Forall (fun x => Py.universal_newlines x = x) ws /\
    parse_peers config_path None st' = (Ok (map decoded (r :: rs)), st').
Proof.
  intros Hf Hc Hall Hadd Hcrs. apply Forall_cons in Hall as [Hr Hrs].
  apply Forall_cons in Hcrs as [Hcr1 Hcrs].
  pose proof (file_cr_free _ _ Hf) as Hcr.
  apply addable_step in Hadd as (Hadd & _ & _ & a & Ha & Hroot).
  pose proof (parse_content_bannerless content Hc) as Hnone.
  assert (H1 : add_spec config_path r st
               = (Ok tt, FS (Some (doc (Py.rstrip content) [r]))
                           (doc (Py.rstrip content) [r] :: written st))).
  { unfold doc, blocks. cbn [flat_map]. rewrite app_nil_r.
    apply (add_peer_ok _ content _ _ _ _ _ _ _ a); [done| | |].
    - intros (p & Hp & _). rewrite Hnone in Hp. by apply elem_of_nil in Hp.
    - by rewrite split_head_none by (by apply canonical_no_slash).
    - rewrite Hnone. cbn [add_used]. by apply not_elem_of_singleton. }
  pose proof (cr_free_doc_one (Py.rstrip content) r (cr_free_rstrip _ Hcr) Hcr1)
    as Hcr2.
  destruct (add_all_doc config_path (Py.rstrip content) (rstrip_idem content)
              (contains_rstrip _ _ Hc) rs [r]
              (FS (Some (doc (Py.rstrip content) [r]))
                 (doc (Py.rstrip content) [r] :: written st))
              (file_stored _ _ Hcr2)
              ltac:(by repeat constructor) Hrs Hadd Hcrs)
    as (st' & ws & H2 & H3 & H4 & H5 & H6).
  exists st', (ws ++ [doc (Py.rstrip content) [r]]).
  cbn [add_all]. unfold bind at 1. rewrite H1.
  split; [exact H2|]. split; [exact H3|].
  split; [rewrite H4; cbn [written]; rewrite <- app_assoc; reflexivity|].
  split; [rewrite length_app, H5; cbn [length]; lia|].
  split.
  - apply Forall_app. split.
    + eapply Forall_impl; [exact H6|]. intros x Hx.
      by apply universal_newlines_cr_free.
    + repeat constructor. by apply universal_newlines_cr_free.
  - unfold parse_peers, bind, content_or_read, ret.
    rewrite (read_config_text _ _ _ H3).
    rewrite parse_content_doc;
      [reflexivity|by apply contains_rstrip|by constructor].
Qed.

(** [adds_build_document] for two peers added to a file that holds the
    interface section and trailing blank lines. *)
Lemma adds_build_document_witness :
  let nas := mkSpec (L "home-nas") (L "CLIENT2_PUBLIC_KEY=") (L "10.8.0.6")
               (L "2026-01-27") (Some (L "nas.myhome.com:51820")) None in
  let phone := mkSpec (L "phone-android") (L "CLIENT3_PUBLIC_KEY") (L "10.8.0.7")
                 (L "2026-01-28") None (Some (L "PRESHARED_KEY_VALUE")) in
  let P := L "[Interface]" ++ NL :: L "Address = 10.8.0.1/24" in
  exists st',
    add_all [] [nas; phone] (FS (Some (P ++ [NL; NL])) []) = (Ok tt, st') /\
    file st' = Some (doc P [nas; phone]).
Proof.
  intros nas phone P.
  assert (Hrs : Forall (fun r => canonical r = true) [nas; phone])
    by (repeat constructor).
  assert (Hcr : Forall (fun r => cr_free (encode r) = true) [nas; phone])
    by (repeat constructor).
  destruct (adds_build_document [] (P ++ [NL; NL]) nas [phone]
              (FS (Some (P ++ [NL; NL])) []) eq_refl eq_refl Hrs eq_refl Hcr)
    as (st' & ws & H1 & H2 & _).
  exists st'. split; [exact H1|exact H2].
Defined.

(** *** The codec on documents *)

(** X22: on a document of canonical peers the decoder and the encoder
    are inverse of each other: the list read from the document is the
    peers in their order, the peers read back as requests are the
    original ones, and encoding the records of the list again gives the
    blocks of the document byte for byte. *)
Theorem codec_inverse_on_documents (P : str) (rs : list PeerSpec) :
  contains P (L "# =") = false ->
  Forall (fun r => canonical r = true) rs ->
  parse_content (doc P rs) = map decoded rs /\
  map spec_of (parse_content (doc P rs)) = rs /\
  reencode (parse_content (doc P rs)) = blocks rs /\
  doc P (map spec_of (parse_content (doc P rs))) = doc P rs.
Proof.
  intros HP Hrs. rewrite parse_content_doc by done.
  assert (E : map spec_of (map decoded rs) = rs).
  { induction Hrs as [|r rs Hr _ IH]; [reflexivity|]. cbn [map].
    by rewrite spec_of_decoded, IH. }
  split; [reflexivity|]. split; [exact E|].
  split; [by apply reencode_decoded|by rewrite E].
Qed.

(** [codec_inverse_on_documents] for a document of two peers. *)
Lemma codec_inverse_on_documents_witness :
  let nas := mkSpec (L "home-nas") (L "CLIENT2_PUBLIC_KEY=") (L "10.8.0.6")
               (L "2026-01-27") (Some (L "nas.myhome.com:51820")) None in
  let phone := mkSpec (L "phone-android") (L "CLIENT3_PUBLIC_KEY") (L "10.8.0.7")
                 (L "2026-01-28") None (Some (L "PRESHARED_KEY_VALUE")) in
  let P := L "[Interface]" ++ NL :: L "Address = 10.8.0.1/24  # root" in
  map spec_of (parse_content (doc P [nas; phone])) = [nas; phone].
Proof.
  intros nas phone P.
  assert (Hrs : Forall (fun r => canonical r = true) [nas; phone])
    by (repeat constructor).
  exact (proj1 (proj2 (codec_inverse_on_documents P [nas; phone] eq_refl Hrs))).
Defined.

(** *** Blocks without keys *)

Lemma broken_text_eq nm date body :
  item_text (Broken nm date body) = NL :: header 41 41 nm date ++ body.
Proof.
  unfold item_text, header. cbn [Py.join app]. norm_app. reflexivity.
Qed.

Lemma item_blocks_end items : block_end (item_blocks items).
Proof.
  destruct items as [|it items]; [by left|]. right.
  cbn [item_blocks flat_map]. destruct it as [r|nm date body].
  - cbn [item_text]. rewrite encode_eq. unfold header. exists 41. eexists.
    split; [rewrite <- !app_assoc; reflexivity|]. cbn. reflexivity.
  - rewrite broken_text_eq. unfold header. exists 41. eexists.
    split; [rewrite <- !app_assoc; reflexivity|]. cbn. reflexivity.
Qed.

Lemma broken_nostart body tail :
  contains body (L "# =") = false -> block_end tail ->
  nostart (NL :: L "# =") (body ++ [NL]) tail.
Proof.
  intros Hb Ht. apply nostart_app.
  - cbn [app]. by apply nostart_nl_field.
  - apply nostart_cons; [|apply nostart_nil]. cbn [app Py.startswith].
    rewrite Ascii.eqb_refl. cbn [andb].
    destruct Ht as [->|(n & t & -> & _)]; reflexivity.
Qed.

Lemma broken_skipped off text nm date body :
  contains body (L "PublicKey") = false \/ contains body (L "AllowedIPs") = false ->
  peer_of_match
    (Re.Match off (off + length text) text [(3, body ++ [NL]); (2, date); (1, nm)])
  = None.
Proof.
  intros H. unfold peer_of_match, group_str, Re.group. cbn [Re.get_cap Re.m_caps Nat.eqb default from_option].
  unfold id.
  destruct (kw_patterns) as (-> & -> & _).
  destruct H as [H|H].
  - rewrite (field_none (L "PublicKey") (body ++ [NL])); [done|done|].
    apply nostart_app; [by apply nostart_field|].
    apply nostart_cons; [reflexivity|apply nostart_nil].
  - rewrite (field_none (L "AllowedIPs") (body ++ [NL])); [|done|].
    + by destruct (field _ _).
    + apply nostart_app; [by apply nostart_field|].
      apply nostart_cons; [reflexivity|apply nostart_nil].
Qed.

Lemma scan_items items : forall p off,
  Forall (fun it => item_ok it = true) items ->
  omap peer_of_match
    (matches_of (Re.scan MULTILINE_DOTALL PEER_PATTERN 0 p (item_blocks items) off))
  = map decoded (good_peers items).
Proof.
  induction items as [|it items IH]; intros p off Hall.
  - cbn [item_blocks flat_map]. rewrite scan_fail_nil; [reflexivity|by apply peer_fail].
  - apply Forall_cons in Hall as [Hit Hall].
    cbn [item_blocks flat_map]. fold (item_blocks items).
    destruct it as [r|nm date body].
    + cbn [item_ok] in Hit.
      pose proof (canonical_spec r Hit) as (Hn & Hd & Hpk & Hip & Hpsk & Hep).
      cbn [item_text]. rewrite encode_eq. rewrite !truthy_ok by done. cbn [app].
      rewrite scan_fail_step by (by apply peer_fail).
      set (body := body_text (s_public_key r) (s_ip r) (s_preshared_key r)
                     (s_endpoint r)).
      match goal with
      | |- context [Re.scan _ _ 0 (Some NL) ?t (S off)] =>
          replace t
            with ((header 41 41 (s_name r) (s_added_at r) ++ body ++ [NL])
                  ++ item_blocks items)
            by (rewrite <- !app_assoc; reflexivity)
      end.
      apply clean_spec in Hn as (Ln & Tn & _).
      apply clean_spec in Hd as (Ld & Td & _).
      rewrite (scan_match _ _ _
                 (header 41 41 (s_name r) (s_added_at r) ++ body ++ [NL])
                 (item_blocks items)
                 [(3, body ++ [NL]); (2, s_added_at r); (1, s_name r)]).
      * subst body. rewrite matches_of_inl, matches_of_inr.
        rewrite (omap_cons_Some _ _ _ (decoded r)) by (apply peer_of_block; auto).
        change (good_peers (Good r :: items)) with (r :: good_peers items).
        cbn [map]. f_equal. by apply IH.
      * unfold header. discriminate.
      * rewrite <- app_assoc. apply peer_match_at; try done.
        -- by destruct (trimmed_head _ Tn) as (? & ? & -> & _).
        -- by apply single_line_spec.
        -- by destruct (trimmed_head _ Td) as (? & ? & -> & _).
        -- by apply single_line_spec.
        -- apply body_nostart; try done. right. split; [done|apply item_blocks_end].
        -- apply item_blocks_end.
    + cbn [item_ok] in Hit. unfold broken_ok in Hit.
      apply andb_prop in Hit as [Hit Hkeys]. apply andb_prop in Hit as [Hit Hb].
      apply andb_prop in Hit as [Hn Hd]. apply negb_true_iff in Hb.
      rewrite broken_text_eq. cbn [app].
      rewrite scan_fail_step by (by apply peer_fail).
      match goal with
      | |- context [Re.scan _ _ 0 (Some NL) ?t (S off)] =>
          replace t
            with ((header 41 41 nm date ++ body ++ [NL]) ++ item_blocks items)
            by (rewrite <- !app_assoc; reflexivity)
      end.
      apply clean_spec in Hn as (Ln & Tn & _).
      apply clean_spec in Hd as (Ld & Td & _).
      rewrite (scan_match _ _ _ (header 41 41 nm date ++ body ++ [NL])
                 (item_blocks items) [(3, body ++ [NL]); (2, date); (1, nm)]).
      * rewrite matches_of_inl, matches_of_inr.
        rewrite omap_cons_None.
        -- change (good_peers (Broken nm date body :: items))
             with (good_peers items).
           by apply IH.
        -- apply broken_skipped. apply orb_prop in Hkeys as [H|H];
             apply negb_true_iff in H; [by left|by right].
      * unfold header. discriminate.
      * rewrite <- app_assoc. apply peer_match_at; try done.
        -- by destruct (trimmed_head _ Tn) as (? & ? & -> & _).
        -- by apply single_line_spec.
        -- by destruct (trimmed_head _ Td) as (? & ? & -> & _).
        -- by apply single_line_spec.
        -- apply broken_nostart; [done|apply item_blocks_end].
        -- apply item_blocks_end.
Qed.

(** X23: a block whose body lacks the public key or the allowed
    addresses is passed over in silence.  In a text made of a part
    without banner and of blocks, each that of a canonical peer or a
    block with banner, name and date whose body has no [PublicKey] or no
    [AllowedIPs], [parse_peers] returns the canonical peers, all of them
    and in the order of their blocks, and raises nothing. *)
Theorem keyless_blocks_are_skipped (config_path P : str) (items : list item)
        (st : fs) :
  contains P (L "# =") = false ->
  Forall (fun it => item_ok it = true) items ->
  parse_peers config_path (Some (P ++ [NL] ++ item_blocks items)) st
  = (Ok (map decoded (good_peers items)), st).
Proof.
  intros HP Hall.
  unfold parse_peers, bind, content_or_read, ret. f_equal. f_equal.
  unfold parse_content, Re.finditer.
  rewrite app_assoc, scan_chars.
  - fold (matches_of (map inl (P ++ [NL]) ++
            Re.scan MULTILINE_DOTALL PEER_PATTERN 0 (prev_after None (P ++ [NL]))
              (item_blocks items) (0 + length (P ++ [NL])))).
    rewrite matches_of_app, matches_of_chars. cbn [app]. by apply scan_items.
  - intros x1 x2 E Hx2. apply peer_fail.
    revert x1 x2 E Hx2. change (nostart (L "# =") (P ++ [NL]) (item_blocks items)).
    apply nostart_app; [by apply nostart_field|].
    apply nostart_cons; [reflexivity|apply nostart_nil].
Qed.

(** [keyless_blocks_are_skipped] for a block without [AllowedIPs] between
    two peers. *)
Lemma keyless_blocks_are_skipped_witness :
  let nas := mkSpec (L "home-nas") (L "CLIENT2_PUBLIC_KEY=") (L "10.8.0.6")
               (L "2026-01-27") (Some (L "nas.myhome.com:51820")) None in
  let phone := mkSpec (L "phone-android") (L "CLIENT3_PUBLIC_KEY") (L "10.8.0.7")
                 (L "2026-01-28") None (Some (L "PRESHARED_KEY_VALUE")) in
  let broken := Broken (L "tablet") (L "2026-02-01") (L "PublicKey = CLIENT4_KEY") in
  let P := L "[Interface]" ++ NL :: L "Address = 10.8.0.1/24" in
  parse_peers [] (Some (P ++ [NL] ++ item_blocks [Good nas; broken; Good phone]))
    (FS None [])
  = (Ok [decoded nas; decoded phone], FS None []).
Proof.
  intros nas phone broken P.
  assert (Hall : Forall (fun it => item_ok it = true) [Good nas; broken; Good phone])
    by (repeat constructor).
  exact (keyless_blocks_are_skipped [] P [Good nas; broken; Good phone] (FS None [])
           eq_refl Hall).
Defined.

(** ** The subscriptions of the Clash configuration *)

(** *** The calendar *)

Local Open Scope Z_scope.

Lemma days_before_year_step y :
  Clash.days_before_year (y + 1)
  = Clash.days_before_year y + 365 + (if Clash.is_leap y then 1 else 0).
Proof.
  unfold Clash.days_before_year, Clash.is_leap.
  replace (y + 1 - 1) with y by lia.
  destruct (Z.eqb_spec (y mod 4) 0) as [H4|H4];
    destruct (Z.eqb_spec (y mod 100) 0) as [H100|H100];
    destruct (Z.eqb_spec (y mod 400) 0) as [H400|H400];
    cbn [andb orb negb]; Z.div_mod_to_equations; lia.
Qed.

Lemma days_before_year_mono a b :
  a <= b -> Clash.days_before_year a <= Clash.days_before_year b.
Proof.
  unfold Clash.days_before_year. intros H. Z.div_mod_to_equations. lia.
Qed.

Lemma month_cases m :
  1 <= m <= 12 ->
  m = 1 \/ m = 2 \/ m = 3 \/ m = 4 \/ m = 5 \/ m = 6 \/ m = 7 \/ m = 8 \/
  m = 9 \/ m = 10 \/ m = 11 \/ m = 12.
Proof. lia. Qed.

Lemma days_before_month_step y m :
  1 <= m <= 11 ->
  Clash.days_before_month y (m + 1)
  = Clash.days_before_month y m + Clash.days_in_month y m.
Proof.
  intros H. assert (H' : 1 <= m <= 12) by lia.
  destruct (month_cases m H') as [->|[->|[->|[->|[->|[->|[->|[->|[->|[->|[->| ->]]]]]]]]]]];
    try lia;
    unfold Clash.days_before_month, Clash.days_in_month;
    destruct (Clash.is_leap y); reflexivity.
Qed.

Lemma days_in_month_pos y m : 28 <= Clash.days_in_month y m <= 31.
Proof.
  unfold Clash.days_in_month.
  destruct (m =? 2); [destruct (Clash.is_leap y); lia|].
  destruct ((m =? 4) || (m =? 6) || (m =? 9) || (m =? 11))%bool; lia.
Qed.

Lemma days_before_month_mono y m1 m2 :
  1 <= m1 -> m1 < m2 -> m2 <= 12 ->
  Clash.days_before_month y m1 + Clash.days_in_month y m1
  <= Clash.days_before_month y m2.
Proof.
  intros H1 H H2.
  assert (Hk : exists k : nat, m2 = m1 + 1 + Z.of_nat k)
    by (exists (Z.to_nat (m2 - m1 - 1)); lia).
  destruct Hk as (k & ->). clear H.
  induction k as [|k IH].
  - rewrite Z.add_0_r. rewrite days_before_month_step by lia. lia.
  - replace (m1 + 1 + Z.of_nat (S k)) with (m1 + 1 + Z.of_nat k + 1) by lia.
    rewrite days_before_month_step by lia.
    pose proof (days_in_month_pos y (m1 + 1 + Z.of_nat k)).
    specialize (IH ltac:(lia)). lia.
Qed.

Lemma days_before_month_12 y :
  Clash.days_before_month y 12 + 31 = 365 + (if Clash.is_leap y then 1 else 0).
Proof. unfold Clash.days_before_month. destruct (Clash.is_leap y); reflexivity. Qed.

Lemma valid_spec d :
  Clash.valid d = true ->
  1 <= Clash.year d <= 9999 /\ 1 <= Clash.month d <= 12 /\
  1 <= Clash.day d <= Clash.days_in_month (Clash.year d) (Clash.month d).
Proof.
  unfold Clash.valid. intros H.
  repeat (apply andb_prop in H as [H ?]).
  repeat match goal with
         | H : (_ <=? _) = true |- _ => apply Z.leb_le in H
         end.
  lia.
Qed.

Lemma days_before_month_1 y : Clash.days_before_month y 1 = 0.
Proof. reflexivity. Qed.

(** A valid date lies in its year. *)
Lemma toordinal_bounds d :
  Clash.valid d = true ->
  Clash.days_before_year (Clash.year d) < Clash.toordinal d
  <= Clash.days_before_year (Clash.year d + 1).
Proof.
  intros (Hy & Hm & Hd)%valid_spec.
  rewrite days_before_year_step. unfold Clash.toordinal.
  pose proof (days_before_month_12 (Clash.year d)) as H12.
  pose proof (days_before_month_1 (Clash.year d)) as H1.
  pose proof (days_in_month_pos (Clash.year d) 1) as Hp.
  set (leap := if Clash.is_leap (Clash.year d) then 1 else 0) in *.
  assert (Hlow : 0 <= Clash.days_before_month (Clash.year d) (Clash.month d)).
  { destruct (Z.eq_dec (Clash.month d) 1) as [E1|E1]; [rewrite E1; lia|].
    pose proof (days_before_month_mono (Clash.year d) 1 (Clash.month d)
                  ltac:(lia) ltac:(lia) ltac:(lia)).
    lia. }
  destruct (Z.eq_dec (Clash.month d) 12) as [E|E].
  - rewrite E in Hd, Hlow |- *.
    change (Clash.days_in_month (Clash.year d) 12) with 31 in Hd. lia.
  - pose proof (days_before_month_mono (Clash.year d) (Clash.month d) 12
                  ltac:(lia) ltac:(lia) ltac:(lia)).
    lia.
Qed.

(** The ordinal grows with the calendar. *)
Lemma toordinal_mono a b :
  Clash.valid a = true -> Clash.valid b = true ->
  date_before a b = true -> Clash.toordinal a < Clash.toordinal b.
Proof.
  intros Ha Hb H. unfold date_before in H.
  apply orb_prop in H as [H|H].
  - apply Z.ltb_lt in H.
    pose proof (toordinal_bounds a Ha). pose proof (toordinal_bounds b Hb).
    pose proof (days_before_year_mono (Clash.year a + 1) (Clash.year b) ltac:(lia)).
    lia.
  - apply andb_prop in H as [Hy H]. apply Z.eqb_eq in Hy.
    apply valid_spec in Ha as (_ & Hma & Hda).
    apply valid_spec in Hb as (_ & Hmb & Hdb).
    unfold Clash.toordinal. rewrite Hy in *.
    apply orb_prop in H as [H|H].
    + apply Z.ltb_lt in H.
      pose proof (days_before_month_mono (Clash.year b) (Clash.month a)
                    (Clash.month b) ltac:(lia) ltac:(lia) ltac:(lia)).
      lia.
    + apply andb_prop in H as [Hm H]. apply Z.eqb_eq in Hm. apply Z.ltb_lt in H.
      rewrite Hm. lia.
Qed.

Lemma date_trichotomy a b :
  date_before a b = true \/ a = b \/ date_before b a = true.
Proof.
  destruct a as [y1 m1 d1], b as [y2 m2 d2]. unfold date_before. cbn.
  destruct (Z.ltb_spec y1 y2); [by left|].
  destruct (Z.ltb_spec y2 y1); [right; right; done|].
  assert (y1 = y2) as -> by lia. rewrite !Z.eqb_refl. cbn.
  destruct (Z.ltb_spec m1 m2); [by left|].
  destruct (Z.ltb_spec m2 m1); [right; right; done|].
  assert (m1 = m2) as -> by lia. rewrite !Z.eqb_refl. cbn.
  destruct (Z.ltb_spec d1 d2); [by left|].
  destruct (Z.ltb_spec d2 d1); [right; right; done|].
  assert (d1 = d2) as -> by lia. right. by left.
Qed.

Lemma date_before_iff a b :
  Clash.valid a = true -> Clash.valid b = true ->
  date_before a b = true <-> Clash.toordinal a < Clash.toordinal b.
Proof.
  intros Ha Hb. split; [by apply toordinal_mono|]. intros H.
  destruct (date_trichotomy a b) as [E|[->|E]]; [done|lia|].
  apply (toordinal_mono b a Hb Ha) in E. lia.
Qed.

Lemma toordinal_inj a b :
  Clash.valid a = true -> Clash.valid b = true ->
  Clash.toordinal a = Clash.toordinal b -> a = b.
Proof.
  intros Ha Hb H.
  destruct (date_trichotomy a b) as [E|[->|E]]; [|done|].
  - apply (toordinal_mono a b Ha Hb) in E. lia.
  - apply (toordinal_mono b a Hb Ha) in E. lia.
Qed.

(** *** Status, order and summary *)

Local Open Scope Z_scope.

Lemma make_date_valid y m d x : Clash.make_date y m d = Some x -> Clash.valid x = true.
Proof.
  unfold Clash.make_date. destruct (Clash.valid (Clash.Date y m d)) eqn:E; [|done].
  by intros [= <-].
Qed.

(** X24: the entry of a provider.  Without a date in the key, or with
    digits that are no day of the calendar, the name is the whole key and
    the status is ["unknown"]; otherwise the date is a day of the
    calendar, the days remaining are counted from today, and the status
    is ["expired"] exactly when the date is before today in the calendar,
    ["expiring"] from today to the seventh day after it, and ["active"]
    later; no day remains exactly on the date itself. *)
Theorem info_status_calendar (date_fields : str -> option (str * Z * Z * Z))
        (today : Clash.date) (key : str) (value : Clash.provider) :
  Clash.valid today = true ->
  let x := Clash.info_of date_fields today (key, value) in
  Clash.key x = key /\
  match Clash.expire_date x with
  | None =>
      Clash.name x = key /\ Clash.days_remaining x = None /\
      Clash.status x = L "unknown"
  | Some d =>
      Clash.valid d = true /\
      (exists y m dd, date_fields key = Some (Clash.name x, y, m, dd) /\
                      d = Clash.Date y m dd) /\
      let days := Clash.days_between d today in
      Clash.days_remaining x = Some days /\
      (days = 0 <-> d = today) /\
      (Clash.status x = L "expired" <-> date_before d today = true) /\
      (Clash.status x = L "expiring" <-> date_before d today = false /\ days <= 7) /\
      (Clash.status x = L "active" <-> 7 < days)
  end.
Proof.
  intros Ht x. subst x. unfold Clash.info_of, Clash.parse_subscription_date.
  destruct (date_fields key) as [[[[n y] m] dd]|]; [|by cbn].
  destruct (Clash.make_date y m dd) as [d|] eqn:E; [|by cbn].
  pose proof (make_date_valid _ _ _ _ E) as Hd.
  assert (Ed : d = Clash.Date y m dd).
  { unfold Clash.make_date in E.
    destruct (Clash.valid (Clash.Date y m dd)); congruence. }
  pose proof (date_before_iff d today Hd Ht) as Hb.
  assert (Hz : Clash.days_between d today = 0 <-> d = today).
  { unfold Clash.days_between. split; [|intros ->; lia].
    intros H. apply toordinal_inj; [done..|lia]. }
  unfold Clash.calculate_status.
  assert (Hlt : Clash.days_between d today < 0 <-> date_before d today = true)
    by (rewrite Hb; unfold Clash.days_between; lia).
  destruct (Z.ltb_spec (Clash.days_between d today) 0) as [H0|H0];
    [|destruct (Z.leb_spec (Clash.days_between d today) 7) as [H7|H7]];
    cbn [Clash.key Clash.name Clash.expire_date Clash.days_remaining Clash.status];
    (split; [reflexivity|]); (split; [exact Hd|]);
    (split; [by exists y, m, dd|]); (split; [reflexivity|]);
    (split; [exact Hz|]).
  - split; [split; [intros _; by apply Hlt|done]|].
    split; [split; [discriminate|]|split; [discriminate|lia]].
    intros [H _]. apply Hlt in H0. congruence.
  - split; [split; [discriminate|intros H; apply Hlt in H; lia]|].
    split; [split; [intros _|done]|split; [discriminate|lia]].
    split; [|lia]. apply not_true_is_false. intros H. apply Hlt in H. lia.
  - split; [split; [discriminate|intros H; apply Hlt in H; lia]|].
    split; [split; [discriminate|lia]|done].
Qed.

(** [info_status_calendar] for a key that expires on the last day of
    February of a leap year, read on the first of March. *)
Lemma info_status_calendar_witness :
  let date_fields := fun _ : str => Some (L "sub", 2024, 2, 29) in
  let today := Clash.Date 2024 3 1 in
  Clash.status (Clash.info_of date_fields today (L "sub-2024-02-29", Clash.ProviderOther))
  = L "expired".
Proof.
  intros date_fields today.
  destruct (info_status_calendar date_fields today (L "sub-2024-02-29")
              Clash.ProviderOther eq_refl) as (_ & H).
  change (Clash.expire_date
            (Clash.info_of date_fields today (L "sub-2024-02-29", Clash.ProviderOther)))
    with (Some (Clash.Date 2024 2 29)) in H.
  destruct H as (_ & _ & _ & _ & H & _). by apply H.
Defined.

Lemma key_le_refl a : Clash.key_le a a = true.
Proof.
  unfold Clash.key_le. rewrite Nat.eqb_refl, Z.leb_refl. apply orb_true_r.
Qed.

Lemma key_le_spec a b :
  Clash.key_le a b = true <->
  (a.1 < b.1)%nat \/ (a.1 = b.1 /\ a.2 <= b.2).
Proof.
  unfold Clash.key_le. rewrite orb_true_iff, andb_true_iff.
  by rewrite Nat.ltb_lt, Nat.eqb_eq, Z.leb_le.
Qed.

Lemma key_le_trans a b c :
  Clash.key_le a b = true -> Clash.key_le b c = true -> Clash.key_le a c = true.
Proof. rewrite !key_le_spec. lia. Qed.

Lemma key_le_total a b : Clash.key_le a b = false -> Clash.key_le b a = true.
Proof.
  intros H. apply key_le_spec.
  destruct (Clash.key_le a b) eqn:E; [done|].
  assert (N : ~ ((a.1 < b.1)%nat \/ (a.1 = b.1 /\ a.2 <= b.2)))
    by (rewrite <- key_le_spec; congruence).
  lia.
Qed.

Lemma insert_perm x l : Permutation (Clash.insert x l) (x :: l).
Proof.
  induction l as [|y l IH]; [done|]. cbn [Clash.insert].
  destruct (Clash.key_le _ _); [done|]. rewrite IH. apply perm_swap.
Qed.

Lemma sort_perm l : Permutation (Clash.sort l) l.
Proof.
  induction l as [|x l IH]; [done|]. cbn [Clash.sort foldr].
  fold (Clash.sort l). by rewrite insert_perm, IH.
Qed.

Lemma insert_sorted x l :
  StronglySorted (fun a b => Clash.key_le (Clash.sort_key a) (Clash.sort_key b) = true) l ->
  StronglySorted (fun a b => Clash.key_le (Clash.sort_key a) (Clash.sort_key b) = true)
    (Clash.insert x l).
Proof.
  induction 1 as [|y l Hl IH Hy]; [repeat constructor|]. cbn [Clash.insert].
  destruct (Clash.key_le (Clash.sort_key x) (Clash.sort_key y)) eqn:E.
  - constructor; [by constructor|]. constructor; [done|].
    eapply Forall_impl; [exact Hy|]. intros z Hz. cbv beta in *.
    by eapply key_le_trans.
  - constructor; [exact IH|].
    rewrite (insert_perm x l). constructor; [by apply key_le_total|exact Hy].
Qed.

Lemma sort_sorted l :
  StronglySorted (fun a b => Clash.key_le (Clash.sort_key a) (Clash.sort_key b) = true)
    (Clash.sort l).
Proof.
  induction l as [|x l IH]; [constructor|]. cbn [Clash.sort foldr].
  by apply insert_sorted.
Qed.

Lemma insert_stable k x l :
  filter (fun y => Clash.sort_key y = k) (Clash.insert x l)
  = filter (fun y => Clash.sort_key y = k) (x :: l).
Proof.
  induction l as [|y l IH]; [done|]. cbn [Clash.insert].
  destruct (Clash.key_le (Clash.sort_key x) (Clash.sort_key y)) eqn:E; [done|].
  destruct (decide (Clash.sort_key y = k)) as [Ey|Ey].
  - assert (Ex : Clash.sort_key x <> k).
    { intros Ex. rewrite Ex, <- Ey, key_le_refl in E. done. }
    rewrite (filter_cons_True _ y) by done. rewrite IH.
    rewrite !(filter_cons_False _ x) by done. by rewrite filter_cons_True.
  - rewrite (filter_cons_False _ y) by done. rewrite IH.
    destruct (decide (Clash.sort_key x = k)) as [Ex|Ex].
    + rewrite !(filter_cons_True _ x) by done. by rewrite filter_cons_False.
    + rewrite !(filter_cons_False _ x) by done. by rewrite filter_cons_False.
Qed.

Lemma sort_stable k l :
  filter (fun y => Clash.sort_key y = k) (Clash.sort l)
  = filter (fun y => Clash.sort_key y = k) l.
Proof.
  induction l as [|x l IH]; [done|]. cbn [Clash.sort foldr]. fold (Clash.sort l).
  rewrite insert_stable.
  destruct (decide (Clash.sort_key x = k)).
  - rewrite !(filter_cons_True _ x) by done. by rewrite IH.
  - rewrite !(filter_cons_False _ x) by done. by rewrite IH.
Qed.

Lemma sorted_lookup {A} (R : A -> A -> Prop) l i j a b :
  StronglySorted R l -> l !! i = Some a -> l !! j = Some b -> (i < j)%nat -> R a b.
Proof.
  intros H. revert i j a b.
  induction H as [|x l Hl IH Hx]; intros i j a b Hi Hj Hij.
  - done.
  - destruct i as [|i], j as [|j]; try lia.
    + cbn in Hi, Hj. injection Hi as <-. rewrite Forall_forall in Hx.
      apply Hx. by eapply list_elem_of_lookup_2.
    + cbn in Hi, Hj. apply (IH i j); [done..|lia].
Qed.

(** The status and the days of an entry. *)
Lemma info_status_cases date_fields today item :
  let x := Clash.info_of date_fields today item in
  (Clash.status x = L "unknown" /\ Clash.days_remaining x = None) \/
  (exists d, Clash.days_remaining x = Some d /\
             ((Clash.status x = L "expired" /\ d < 0) \/
              (Clash.status x = L "expiring" /\ 0 <= d <= 7) \/
              (Clash.status x = L "active" /\ 7 < d))).
Proof.
  destruct item as [key value]. unfold Clash.info_of.
  destruct (Clash.parse_subscription_date date_fields key) as [n [d|]];
    [|by left].
  right. unfold Clash.calculate_status.
  destruct (Z.ltb_spec (Clash.days_between d today) 0);
    [|destruct (Z.leb_spec (Clash.days_between d today) 7)];
    eexists; (split; [reflexivity|]); cbn [Clash.status]; auto.
Qed.

(** X25: [get_subscription_status] returns one entry for each provider,
    none lost and none added, sorted by the key of the source: the
    expired before the expiring, these before the active, and the
    unknown last; entries with the same key stay in the order of the
    dictionary; and, as the key reads no day remaining as 999, among the
    expiring entries those that expire today come last.  Without the file
    the list is empty. *)
Theorem subscriptions_sorted (date_fields : str -> option (str * Z * Z * Z))
        (items : list (str * Clash.provider)) (today : Clash.date) :
  let l := Clash.get_subscription_status date_fields (Some items) today in
  let infos := map (Clash.info_of date_fields today) items in
  Permutation l infos /\
  StronglySorted
    (fun a b => Clash.key_le (Clash.sort_key a) (Clash.sort_key b) = true) l /\
  (forall k, filter (fun x => Clash.sort_key x = k) l
             = filter (fun x => Clash.sort_key x = k) infos) /\
  (forall i j a b,
     l !! i = Some a -> l !! j = Some b -> (i < j)%nat ->
     (Clash.status_order (Clash.status a) <= Clash.status_order (Clash.status b))%nat /\
     (Clash.status a = L "expiring" -> Clash.status b = L "expiring" ->
      Clash.days_remaining a = Some 0 -> Clash.days_remaining b = Some 0)) /\
  Clash.get_subscription_status date_fields None today = [].
Proof.
  intros l infos. subst l. unfold Clash.get_subscription_status. fold infos.
  split; [apply sort_perm|]. split; [apply sort_sorted|].
  split; [intros k; apply sort_stable|]. split; [|reflexivity].
  intros i j a b Hi Hj Hij.
  pose proof (sorted_lookup _ _ _ _ _ _ (sort_sorted infos) Hi Hj Hij) as H.
  apply key_le_spec in H. cbn [fst snd Clash.sort_key] in H.
  split; [lia|]. intros Ha Hb Hda. rewrite Ha, Hb, Hda in H.
  assert (Hin : b ∈ infos).
  { rewrite <- (sort_perm infos). by eapply list_elem_of_lookup_2. }
  apply list_elem_of_fmap in Hin as (item & -> & _).
  destruct (info_status_cases date_fields today item)
    as [[Hs _]|(d & Hd & [[Hs _]|[[_ Hr]|[Hs _]]])];
    try (rewrite Hs in Hb; discriminate).
  rewrite Hd in H |- *. f_equal. cbn in H.
  destruct (Z.eqb_spec d 0); lia.
Qed.

Lemma count_partition (l : list Clash.SubscriptionInfo) :
  Forall (fun x => Clash.status x ∈ [L "expired"; L "expiring"; L "active"; L "unknown"]) l ->
  length l
  = (Clash.count_status (L "expired") l + Clash.count_status (L "expiring") l
     + Clash.count_status (L "active") l + Clash.count_status (L "unknown") l)%nat.
Proof.
  unfold Clash.count_status.
  induction 1 as [|x l Hx _ IH]; [reflexivity|].
  repeat (apply elem_of_cons in Hx as [Hx|Hx]);
    [| | | |by apply elem_of_nil in Hx];
    repeat match goal with
           | |- context [filter ?P (x :: l)] =>
               first [rewrite (filter_cons_True P x l) by (rewrite Hx; reflexivity)
                     |rewrite (filter_cons_False P x l) by (rewrite Hx; discriminate)]
           end;
    cbn [length]; lia.
Qed.

(** X26: the summary counts every provider once: its total is the number
    of providers (0 without the file) and the sum of the four counts by
    status, and its list has one entry for each subscription, in the
    order of [get_subscription_status], with the same key, name, days and
    status and the date in its ISO form. *)
Theorem summary_counts (date_fields : str -> option (str * Z * Z * Z))
        (providers : option (list (str * Clash.provider))) (today : Clash.date) :
  let s := Clash.get_status_summary date_fields providers today in
  let l := Clash.get_subscription_status date_fields providers today in
  Clash.total s = match providers with Some items => length items | None => 0%nat end /\
  Clash.total s
  = (Clash.expired s + Clash.expiring s + Clash.active s + Clash.unknown s)%nat /\
  Forall2 (fun e x =>
             Clash.e_key e = Clash.key x /\ Clash.e_name e = Clash.name x /\
             Clash.e_days_remaining e = Clash.days_remaining x /\
             Clash.e_status e = Clash.status x /\
             Clash.e_expire_date e = Clash.isoformat <$> Clash.expire_date x)
          (Clash.subscriptions s) l.
Proof.
  intros s l. subst s. unfold Clash.get_status_summary. fold l.
  cbn [Clash.total Clash.expired Clash.expiring Clash.active Clash.unknown
         Clash.subscriptions].
  split; [|split].
  - subst l. destruct providers as [items|]; [|reflexivity].
    unfold Clash.get_subscription_status.
    by rewrite (Permutation_length (sort_perm _)), length_map.
  - apply count_partition. apply Forall_forall. intros x Hx. subst l.
    destruct providers as [items|]; [|by apply elem_of_nil in Hx].
    unfold Clash.get_subscription_status in Hx. rewrite sort_perm in Hx.
    apply list_elem_of_fmap in Hx as (item & -> & _).
    destruct (info_status_cases date_fields today item)
      as [[Hs _]|(d & _ & [[Hs _]|[[Hs _]|[Hs _]]])]; rewrite Hs;
      repeat first [by (apply elem_of_cons; left)|apply elem_of_cons; right].
  - induction l as [|x l IH]; [constructor|]. cbn [map].
    constructor; [done|exact IH].
Qed.

(** ** Removal, name by name *)






(** ** Blocks without keys *)







(** ** The name in the pattern of the removal *)



